(** * The namespace-store reconciler of the noobaa operator

    A shallow embedding of [pkg/namespacestore/reconciler.go] and of the
    helpers of package [util] it calls, followed by the properties of the
    reconciliation engine.

    Conventions of the embedding:
    - a Go [string] is a [string]; a Go pointer that may be nil is an
      [option]; a [map[string]string] is a [gmap string string] (a nil map is
      [None] where the code tells nil from empty);
    - a Go [error] is an [option error]: [None] is nil, and the dynamic type
      behind the interface is the constructor of [error];
    - the reconciler is a mutable struct, so every method is a state
      transformer over [State]: the struct itself and the log of the calls
      made so far to the collaborators (cluster API, remote management API,
      event recorder);
    - the collaborators are a [World]: each call is answered as a function of
      the calls made so far and of the request;
    - a Go panic ([util.Panic], a nil dereference) is the outcome
      [Panicked];
    - logging ([logrus], [log.Printf]) has no effect on the reconciler and is
      left out. *)

From Stdlib Require Import ZArith String List Bool Lia Permutation.
From stdpp Require Import gmap strings.
Import ListNotations.

Local Open Scope string_scope.
Local Open Scope Z_scope.

(** ** Go runtime pieces *)

Notation "a =s? b" := (String.eqb a b) (at level 70, no associativity).

(** [time.Time] as nanoseconds since the Unix epoch, [time.Duration] as the
    int64 count of nanoseconds it is. *)
Definition Time := Z.
Definition Duration := Z.

Definition Nanosecond : Duration := 1.
Definition Second : Duration := 1000000000 * Nanosecond.
Definition Minute : Duration := 60 * Second.

Definition minDuration : Duration := - 2 ^ 63.
Definition maxDuration : Duration := 2 ^ 63 - 1.

(** [Time.Sub]: the difference, saturated to the range of [Duration]. *)
Definition Time_Sub (t u : Time) : Duration :=
  let d := t - u in
  if d <? minDuration then minDuration
  else if maxDuration <? d then maxDuration
  else d.

(** A [rune] is a Unicode code point. *)
Definition rune := Z.

(** [net/url.URL], as far as the reconciler touches it: the scheme, the host
    and the rest of the parsed URL kept as it was read. *)
Record URL := mkURL {
  URL_Scheme : string;
  URL_Host : string;
  URL_Rest : string
}.

(** ** Package util: error values *)

(** [util.PersistentError] tells the reconcile to avoid requeueing. *)
Record PersistentError := NewPersistentError {
  PersistentError_Reason : string;
  PersistentError_Message : string
}.

(** [nb.RPCError], the error reply of the remote management API. *)
Record RPCError := mkRPCError {
  RPCError_RPCCode : string;
  RPCError_Message : string
}.

(** The dynamic types an [error] value of the reconciler can have:
    [*util.PersistentError], [*nb.RPCError], and any other error type, kept
    by its text ([fmt.Errorf] and the errors of the client libraries). *)
Inductive error :=
| PersistentErr (e : PersistentError)
| RPCErr (e : RPCError)
| errorString (s : string).

(** [IsPersistentError]: the type assertion of [err] to a pointer to
    [PersistentError]; it fails on the nil interface. *)
Definition IsPersistentError (err : option error) : bool :=
  match err with
  | Some (PersistentErr _) => true
  | _ => false
  end.

(** The loop body of [CombineErrors], [combined] being the accumulator. *)
Definition CombineErrors_step (combined err : option error) : option error :=
  match err with
  | None => combined
  | Some _ =>
      match combined with
      | None => err
      | Some _ =>
          if IsPersistentError err && negb (IsPersistentError combined)
          then err else combined
      end
  end.

(** [CombineErrors] takes a list of errors and combines them to one. *)
Definition CombineErrors (errs : list (option error)) : option error :=
  fold_left CombineErrors_step errs None.

(** [Contains] checks if string array [arr] contains string [s]. *)
Fixpoint Contains (s : string) (arr : list string) : bool :=
  match arr with
  | [] => false
  | b :: arr' => if b =s? s then true else Contains s arr'
  end.

(** [RemoveFinalizer]: the in-place filter; returns the finalizers left
    and whether the finalizer was found. A nil slice is the empty list:
    the early return leaves it as it is and reports [false]. *)
Fixpoint RemoveFinalizer_loop (finalizers : list string) (finalizer : string)
  : list string * bool :=
  match finalizers with
  | [] => ([], false)
  | f :: fs =>
      let '(kept, found) := RemoveFinalizer_loop fs finalizer in
      if f =s? finalizer then (kept, true) else (f :: kept, found)
  end.

(** The first non-nil error of a list, nil when there is none. *)
Fixpoint first_non_nil (errs : list (option error)) : option error :=
  match errs with
  | [] => None
  | Some e :: _ => Some e
  | None :: errs' => first_non_nil errs'
  end.

Definition has_persistent (errs : list (option error)) : bool :=
  existsb IsPersistentError errs.

Definition has_transient (errs : list (option error)) : bool :=
  existsb (fun e => match e with
                    | Some _ => negb (IsPersistentError e)
                    | None => false
                    end) errs.

(** ** Declarations of the packages outside this file

    The API types ([nbv1], [nb], [corev1], [metav1], [conditionsv1]) are
    declared in packages the reconciler imports. The records below carry the
    fields the reconciler and its helpers read or write, under the names the
    code uses; string-typed enumerations stay strings, with their constants
    under the names of the declaring package. *)

(** The event types and condition statuses of the Kubernetes API
    ([corev1]), and the condition types of the status library
    ([conditionsv1]). *)
Module corev1.
Definition EventTypeNormal : string := "Normal".
Definition EventTypeWarning : string := "Warning".
Definition ConditionTrue : string := "True".
Definition ConditionFalse : string := "False".
Definition ConditionUnknown : string := "Unknown".
End corev1.

Module conditionsv1.
Definition ConditionAvailable : string := "Available".
Definition ConditionProgressing : string := "Progressing".
Definition ConditionDegraded : string := "Degraded".
Definition ConditionUpgradeable : string := "Upgradeable".
End conditionsv1.

(** [conditionsv1.Condition]. *)
Record Condition := mkCondition {
  Condition_Type : string;
  Condition_Status : string;
  Condition_Reason : string;
  Condition_Message : string;
  Condition_LastHeartbeatTime : Time;
  Condition_LastTransitionTime : Time
}.

(** [metav1.ObjectMeta], the metadata every record embeds. *)
Record ObjectMeta := mkObjectMeta {
  Name : string;
  Namespace : string;
  UID : string;
  Labels : option (gmap string string);
  Finalizers : list string;
  CreationTimestamp : Time;
  DeletionTimestamp : option Time
}.

(** [corev1.SecretReference]. *)
Record SecretReference := mkSecretReference {
  SecretReference_Name : string;
  SecretReference_Namespace : string
}.

(** Modelled from the spec: the constants of package [nbv1]
    (pkg/apis/noobaa/v1alpha1), which is not among the sources embedded
    here: the phases of the status (Verifying, Connecting, Creating, Ready,
    Rejected, Deleting), the store types, the signature versions and the
    finalizer, each the string the package declares. The properties rely on
    no more than their being distinct and not empty. *)
Module nbv1.
(** Phases of a namespace store. *)
Definition NamespaceStorePhaseVerifying : string := "Verifying".
Definition NamespaceStorePhaseConnecting : string := "Connecting".
Definition NamespaceStorePhaseCreating : string := "Creating".
Definition NamespaceStorePhaseReady : string := "Ready".
Definition NamespaceStorePhaseRejected : string := "Rejected".
Definition NamespaceStorePhaseDeleting : string := "Deleting".
(** Store types. *)
Definition NSStoreTypeAWSS3 : string := "aws-s3".
Definition NSStoreTypeS3Compatible : string := "s3-compatible".
Definition NSStoreTypeIBMCos : string := "ibm-cos".
Definition NSStoreTypeAzureBlob : string := "azure-blob".
Definition NSStoreTypeNSFS : string := "nsfs".
(** Signature versions. *)
Definition S3SignatureVersionV4 : string := "v4".
Definition S3SignatureVersionV2 : string := "v2".
Definition Finalizer : string := "noobaa.io/finalizer".
End nbv1.

(** Modelled from the spec: the records of package [nbv1], the desired
    spec with one optional block per store type, and the status with its
    phase, conditions and mode. *)
Record AWSS3Spec := mkAWSS3Spec {
  AWSS3_TargetBucket : string;
  AWSS3_Region : string;
  AWSS3_Secret : SecretReference;
  AWSS3_SSLDisabled : bool
}.

Record S3CompatibleSpec := mkS3CompatibleSpec {
  S3Compatible_TargetBucket : string;
  S3Compatible_Endpoint : string;
  S3Compatible_Secret : SecretReference;
  S3Compatible_SignatureVersion : string
}.

Record IBMCosSpec := mkIBMCosSpec {
  IBMCos_TargetBucket : string;
  IBMCos_Endpoint : string;
  IBMCos_Secret : SecretReference;
  IBMCos_SignatureVersion : string
}.

Record AzureBlobSpec := mkAzureBlobSpec {
  AzureBlob_TargetBlobContainer : string;
  AzureBlob_Secret : SecretReference
}.

Record NSFSSpec := mkNSFSSpec {
  NSFS_FsBackend : string;
  NSFS_FsRootPath : string
}.

Record NamespaceStoreSpec := mkNamespaceStoreSpec {
  Spec_Type : string;
  Spec_AWSS3 : option AWSS3Spec;
  Spec_S3Compatible : option S3CompatibleSpec;
  Spec_IBMCos : option IBMCosSpec;
  Spec_AzureBlob : option AzureBlobSpec;
  Spec_NSFS : option NSFSSpec
}.

Record NamespaceStoreStatus := mkNamespaceStoreStatus {
  Status_Phase : string;
  Status_Conditions : list Condition;
  Status_ModeCode : string
}.

Record NamespaceStore := mkNamespaceStore {
  NamespaceStore_Meta : ObjectMeta;
  NamespaceStore_Spec : NamespaceStoreSpec;
  NamespaceStore_Status : NamespaceStoreStatus
}.

(** The parent system, and a secret of the cluster. *)
Record NooBaa := mkNooBaa {
  NooBaa_Meta : ObjectMeta
}.

Record Secret := mkSecret {
  Secret_Meta : ObjectMeta;
  Secret_StringData : gmap string string;
  Secret_Data : gmap string string
}.

(** Modelled from the spec: the constants of package [nb] (pkg/nb), which
    is not among the sources embedded here: the endpoint types and the
    statuses of a connection check (success, invalid-credentials,
    invalid-endpoint, time-skew, not-supported, timeout, unknown-failure),
    each the string the package declares. *)
Module nb.
(** Endpoint types. *)
Definition EndpointTypeAws : string := "AWS".
Definition EndpointTypeS3Compat : string := "S3_COMPATIBLE".
Definition EndpointTypeIBMCos : string := "IBM_COS".
Definition EndpointTypeAzure : string := "AZURE".
(** Statuses of a connection check. *)
Definition ExternalConnectionSuccess : string := "SUCCESS".
Definition ExternalConnectionTimeout : string := "TIMEOUT".
Definition ExternalConnectionInvalidEndpoint : string := "INVALID_ENDPOINT".
Definition ExternalConnectionInvalidCredentials : string := "INVALID_CREDENTIALS".
Definition ExternalConnectionNotSupported : string := "NOT_SUPPORTED".
Definition ExternalConnectionTimeSkew : string := "TIME_SKEW".
Definition ExternalConnectionUnknownFailure : string := "UNKNOWN_FAILURE".
End nb.

(** Modelled from the spec: the records of package [nb], what the remote
    system lists (connections, resource handles, pools, accounts) and the
    parameters and replies of its calls. *)
Record ExternalConnectionInfo := mkExternalConnectionInfo {
  ExternalConnectionInfo_Name : string;
  ExternalConnectionInfo_EndpointType : string;
  ExternalConnectionInfo_Endpoint : string;
  ExternalConnectionInfo_Identity : string
}.

Record NamespaceResourceInfo := mkNamespaceResourceInfo {
  NamespaceResourceInfo_Name : string;
  NamespaceResourceInfo_EndpointType : string;
  NamespaceResourceInfo_Endpoint : string;
  NamespaceResourceInfo_Identity : string
}.

Record PoolInfo := mkPoolInfo {
  PoolInfo_Name : string;
  PoolInfo_ResourceType : string
}.

Record AccountAllowedBuckets := mkAccountAllowedBuckets {
  FullPermission : bool;
  PermissionList : option (list string)
}.

Record AccountInfo := mkAccountInfo {
  AccountInfo_Email : string;
  AccountInfo_HasS3Access : bool;
  AccountInfo_DefaultResource : string;
  AccountInfo_AllowedBuckets : AccountAllowedBuckets;
  AccountInfo_Connections : list ExternalConnectionInfo
    (* ExternalConnections.Connections *)
}.

Record SystemInfo := mkSystemInfo {
  SystemInfo_Accounts : list AccountInfo;
  SystemInfo_Pools : list PoolInfo;
  SystemInfo_NamespaceResources : list NamespaceResourceInfo
}.

Record AddExternalConnectionParams := mkAddExternalConnectionParams {
  Conn_Name : string;
  Conn_EndpointType : string;
  Conn_Endpoint : string;
  Conn_Identity : string;
  Conn_Secret : string;
  Conn_AuthMethod : string
}.

Record NSFSConfig := mkNSFSConfig {
  NSFSConfig_FsBackend : string;
  NSFSConfig_FsRootPath : string
}.

Record NamespaceStoreInfo := mkNamespaceStoreInfo {
  NamespaceStoreInfo_Name : string;
  NamespaceStoreInfo_Namespace : string
}.

Record CreateNamespaceResourceParams := mkCreateNamespaceResourceParams {
  Create_Name : string;
  Create_Connection : string;
  Create_TargetBucket : string;
  Create_NSFSConfig : option NSFSConfig;
  Create_NamespaceStore : option NamespaceStoreInfo
}.

Record CheckExternalConnectionReply := mkCheckExternalConnectionReply {
  Reply_Status : string;
  Reply_Error_Code : string;
  Reply_Error_Message : string
}.

Record UpdateAccountS3AccessParams := mkUpdateAccountS3AccessParams {
  Update_Email : string;
  Update_S3Access : bool;
  Update_DefaultResource : option string;
  Update_AllowBuckets : option AccountAllowedBuckets
}.

(** [reconcile.Result], [RequeueAfter] zero meaning no retry asked. *)
Record Result := mkResult {
  Requeue : bool;
  RequeueAfter : Duration
}.

(** ** The libraries and the collaborators *)

(** What the Go standard library and the packages of this repository that
    are not in this file compute for the reconciler. They are taken as they
    come: nothing below depends on what they return.
    - [fmt_Sprintf format args] is [fmt.Sprintf], the arguments given by
      their text;
    - [url_String], [url_Parse] (the error by its text), [regexp_MatchString]
      are those of [net/url] and [regexp];
    - [utf8_runes s] is the sequence of runes a [range] over [s] yields;
    - [RPCError_Error] is the [Error] method of [nb.RPCError];
    - [GetNamespaceStoreSecret] and [GetNamespaceStoreTargetBucket] are the
      accessors of package [namespacestore];
    - [options_Namespace], [options_SystemName] are the settings of package
      [options], and the [bundle_] objects are the parsed templates of
      package [bundle] that [NewReconciler] starts from. *)
Class GoLib := {
  fmt_Sprintf : string -> list string -> string;
  url_String : URL -> string;
  url_Parse : string -> URL + string;
  regexp_MatchString : string -> string -> bool + string;
  utf8_runes : string -> list rune;
  unicode_IsGraphic : rune -> bool;
  unicode_IsSpace : rune -> bool;
  RPCError_Error : RPCError -> string;
  GetNamespaceStoreSecret : NamespaceStore -> option SecretReference;
  GetNamespaceStoreTargetBucket : NamespaceStore -> string;
  options_Namespace : string;
  options_SystemName : string;
  bundle_namespacestore_cr : NamespaceStore;
  bundle_noobaa_cr : NooBaa;
  bundle_secret_empty : Secret
}.

(** The errors of the cluster API, by the predicates the helpers of [util]
    classify them with: [meta.IsNoMatchError], [runtime.IsNotRegisteredError],
    [errors.IsConflict], [errors.IsNotFound], and any other error. *)
Inductive KubeError :=
| KubeNoMatch
| KubeNotRegistered
| KubeConflict
| KubeNotFound
| KubeOther (msg : string).

(** One call to a collaborator, with the request and the answer it got. *)
Inductive Action :=
| KubeGet_NamespaceStore (obj : NamespaceStore) (res : NamespaceStore + KubeError)
| KubeGet_NooBaa (obj : NooBaa) (res : NooBaa + KubeError)
| KubeGet_Secret (obj : Secret) (res : Secret + KubeError)
| KubeUpdate_NamespaceStore (obj : NamespaceStore) (res : option KubeError)
| Status_Update (obj : NamespaceStore) (res : option error)
| Eventf (eventtype reason message : string)
| Connect (res : option error)
| ReadSystemAPI (res : SystemInfo + error)
| UpdateAccountS3Access (p : UpdateAccountS3AccessParams) (res : option error)
| DeleteNamespaceResourceAPI (name : string) (res : option error)
| DeleteExternalConnectionAPI (name : string) (res : option error)
| CheckExternalConnectionAPI (p : AddExternalConnectionParams)
    (res : CheckExternalConnectionReply * option error)
| AddExternalConnectionAPI (p : AddExternalConnectionParams) (res : option error)
| CreateNamespaceResourceAPI (p : CreateNamespaceResourceParams) (res : option error).

(** The collaborators: the clock, the cluster API and the remote management
    API. Every answer may depend on the calls made so far. One pass of the
    reconciler reads the clock at the instant [time_Now]. *)
Record World := mkWorld {
  time_Now : Time;
  klient_Get_NamespaceStore : list Action -> NamespaceStore -> NamespaceStore + KubeError;
  klient_Get_NooBaa : list Action -> NooBaa -> NooBaa + KubeError;
  klient_Get_Secret : list Action -> Secret -> Secret + KubeError;
  klient_Update : list Action -> NamespaceStore -> option KubeError;
  Client_Status_Update : list Action -> NamespaceStore -> option error;
  system_Connect : list Action -> unit -> option error;
  nb_ReadSystemAPI : list Action -> unit -> SystemInfo + error;
  nb_UpdateAccountS3Access : list Action -> UpdateAccountS3AccessParams -> option error;
  nb_DeleteNamespaceResourceAPI : list Action -> string -> option error;
  nb_DeleteExternalConnectionAPI : list Action -> string -> option error;
  nb_CheckExternalConnectionAPI :
    list Action -> AddExternalConnectionParams -> CheckExternalConnectionReply * option error;
  nb_AddExternalConnectionAPI : list Action -> AddExternalConnectionParams -> option error;
  nb_CreateNamespaceResourceAPI : list Action -> CreateNamespaceResourceParams -> option error
}.

(** ** The reconciler and its state *)

(** The [Reconciler] struct. [r_Recorder] and [r_NBClient] say whether the
    interface value is non-nil; [Client], [Scheme], [Ctx] and [Logger] are
    set once by [NewReconciler] and are the [World] of the run. *)
Record Reconciler := mkReconciler {
  r_Recorder : bool;
  r_NBClient : bool;
  r_NamespaceStore : NamespaceStore;
  r_NooBaa : NooBaa;
  r_Secret : Secret;
  r_SystemInfo : option SystemInfo;
  r_ExternalConnectionInfo : option ExternalConnectionInfo;
  r_NamespaceResourceinfo : option NamespaceResourceInfo;
  r_AddExternalConnectionParams : option AddExternalConnectionParams;
  r_CreateNamespaceResourceParams : option CreateNamespaceResourceParams
}.

Record State := mkState {
  st_r : Reconciler;
  st_log : list Action
}.

Inductive Outcome (A : Type) :=
| Returned (a : A) (s : State)
| Panicked (s : State).
Arguments Returned {A} a s.
Arguments Panicked {A} s.

Definition M (A : Type) : Type := State -> Outcome A.

Definition ret {A} (a : A) : M A := fun s => Returned a s.

Definition bind {A B} (m : M A) (k : A -> M B) : M B :=
  fun s => match m s with
           | Returned a s' => k a s'
           | Panicked s' => Panicked s'
           end.

Definition panic {A} : M A := fun s => Panicked s.

Notation "x <- m ; k" := (bind m (fun x => k))
  (at level 20, m at level 100, k at level 200, only parsing).
Notation "'run' m ; k" := (bind m (fun _ => k))
  (at level 20, m at level 100, k at level 200, only parsing).

Definition get_r : M Reconciler := fun s => Returned (st_r s) s.

Definition modify_r (f : Reconciler -> Reconciler) : M unit :=
  fun s => Returned tt (mkState (f (st_r s)) (st_log s)).

(** A call to a collaborator: the answer is the world's, and the call is
    appended to the log. *)
Definition call {Req Resp} (oracle : list Action -> Req -> Resp)
    (act : Req -> Resp -> Action) (req : Req) : M Resp :=
  fun s => let resp := oracle (st_log s) req in
           Returned resp (mkState (st_r s) (st_log s ++ [act req resp])).

(** An event sent to the recorder. *)
Definition emit (a : Action) : M unit :=
  fun s => Returned tt (mkState (st_r s) (st_log s ++ [a])).

(** Go's early [return err]: run [k] only when [m] returned nil. *)
Definition orReturn (m : M (option error)) (k : M (option error)) : M (option error) :=
  err <- m;
  match err with
  | Some e => ret (Some e)
  | None => k
  end.

(** *** Field updates *)

Definition set_Labels (l : option (gmap string string)) (m : ObjectMeta) : ObjectMeta :=
  mkObjectMeta (Name m) (Namespace m) (UID m) l (Finalizers m)
    (CreationTimestamp m) (DeletionTimestamp m).

Definition set_Finalizers (f : list string) (m : ObjectMeta) : ObjectMeta :=
  mkObjectMeta (Name m) (Namespace m) (UID m) (Labels m) f
    (CreationTimestamp m) (DeletionTimestamp m).

Definition set_Name (n : string) (m : ObjectMeta) : ObjectMeta :=
  mkObjectMeta n (Namespace m) (UID m) (Labels m) (Finalizers m)
    (CreationTimestamp m) (DeletionTimestamp m).

Definition set_Namespace (n : string) (m : ObjectMeta) : ObjectMeta :=
  mkObjectMeta (Name m) n (UID m) (Labels m) (Finalizers m)
    (CreationTimestamp m) (DeletionTimestamp m).

Definition set_Meta (m : ObjectMeta) (o : NamespaceStore) : NamespaceStore :=
  mkNamespaceStore m (NamespaceStore_Spec o) (NamespaceStore_Status o).

Definition set_Spec (sp : NamespaceStoreSpec) (o : NamespaceStore) : NamespaceStore :=
  mkNamespaceStore (NamespaceStore_Meta o) sp (NamespaceStore_Status o).

Definition set_Status (st : NamespaceStoreStatus) (o : NamespaceStore) : NamespaceStore :=
  mkNamespaceStore (NamespaceStore_Meta o) (NamespaceStore_Spec o) st.

Definition set_Phase (p : string) (st : NamespaceStoreStatus) : NamespaceStoreStatus :=
  mkNamespaceStoreStatus p (Status_Conditions st) (Status_ModeCode st).

Definition set_Conditions (c : list Condition) (st : NamespaceStoreStatus) : NamespaceStoreStatus :=
  mkNamespaceStoreStatus (Status_Phase st) c (Status_ModeCode st).

Definition set_S3Compatible (b : option S3CompatibleSpec) (sp : NamespaceStoreSpec) : NamespaceStoreSpec :=
  mkNamespaceStoreSpec (Spec_Type sp) (Spec_AWSS3 sp) b (Spec_IBMCos sp)
    (Spec_AzureBlob sp) (Spec_NSFS sp).

Definition set_IBMCos (b : option IBMCosSpec) (sp : NamespaceStoreSpec) : NamespaceStoreSpec :=
  mkNamespaceStoreSpec (Spec_Type sp) (Spec_AWSS3 sp) (Spec_S3Compatible sp) b
    (Spec_AzureBlob sp) (Spec_NSFS sp).

Definition set_Conn_Name (n : string) (c : AddExternalConnectionParams) : AddExternalConnectionParams :=
  mkAddExternalConnectionParams n (Conn_EndpointType c) (Conn_Endpoint c)
    (Conn_Identity c) (Conn_Secret c) (Conn_AuthMethod c).

Definition set_r_NBClient (b : bool) (r : Reconciler) : Reconciler :=
  mkReconciler (r_Recorder r) b (r_NamespaceStore r) (r_NooBaa r) (r_Secret r)
    (r_SystemInfo r) (r_ExternalConnectionInfo r) (r_NamespaceResourceinfo r)
    (r_AddExternalConnectionParams r) (r_CreateNamespaceResourceParams r).

Definition set_r_NamespaceStore (o : NamespaceStore) (r : Reconciler) : Reconciler :=
  mkReconciler (r_Recorder r) (r_NBClient r) o (r_NooBaa r) (r_Secret r)
    (r_SystemInfo r) (r_ExternalConnectionInfo r) (r_NamespaceResourceinfo r)
    (r_AddExternalConnectionParams r) (r_CreateNamespaceResourceParams r).

Definition set_r_NooBaa (o : NooBaa) (r : Reconciler) : Reconciler :=
  mkReconciler (r_Recorder r) (r_NBClient r) (r_NamespaceStore r) o (r_Secret r)
    (r_SystemInfo r) (r_ExternalConnectionInfo r) (r_NamespaceResourceinfo r)
    (r_AddExternalConnectionParams r) (r_CreateNamespaceResourceParams r).

Definition set_r_Secret (o : Secret) (r : Reconciler) : Reconciler :=
  mkReconciler (r_Recorder r) (r_NBClient r) (r_NamespaceStore r) (r_NooBaa r) o
    (r_SystemInfo r) (r_ExternalConnectionInfo r) (r_NamespaceResourceinfo r)
    (r_AddExternalConnectionParams r) (r_CreateNamespaceResourceParams r).

Definition set_r_SystemInfo (o : option SystemInfo) (r : Reconciler) : Reconciler :=
  mkReconciler (r_Recorder r) (r_NBClient r) (r_NamespaceStore r) (r_NooBaa r) (r_Secret r)
    o (r_ExternalConnectionInfo r) (r_NamespaceResourceinfo r)
    (r_AddExternalConnectionParams r) (r_CreateNamespaceResourceParams r).

Definition set_r_ExternalConnectionInfo (o : option ExternalConnectionInfo) (r : Reconciler) : Reconciler :=
  mkReconciler (r_Recorder r) (r_NBClient r) (r_NamespaceStore r) (r_NooBaa r) (r_Secret r)
    (r_SystemInfo r) o (r_NamespaceResourceinfo r)
    (r_AddExternalConnectionParams r) (r_CreateNamespaceResourceParams r).

Definition set_r_NamespaceResourceinfo (o : option NamespaceResourceInfo) (r : Reconciler) : Reconciler :=
  mkReconciler (r_Recorder r) (r_NBClient r) (r_NamespaceStore r) (r_NooBaa r) (r_Secret r)
    (r_SystemInfo r) (r_ExternalConnectionInfo r) o
    (r_AddExternalConnectionParams r) (r_CreateNamespaceResourceParams r).

Definition set_r_AddExternalConnectionParams (o : option AddExternalConnectionParams) (r : Reconciler) : Reconciler :=
  mkReconciler (r_Recorder r) (r_NBClient r) (r_NamespaceStore r) (r_NooBaa r) (r_Secret r)
    (r_SystemInfo r) (r_ExternalConnectionInfo r) (r_NamespaceResourceinfo r)
    o (r_CreateNamespaceResourceParams r).

Definition set_r_CreateNamespaceResourceParams (o : option CreateNamespaceResourceParams) (r : Reconciler) : Reconciler :=
  mkReconciler (r_Recorder r) (r_NBClient r) (r_NamespaceStore r) (r_NooBaa r) (r_Secret r)
    (r_SystemInfo r) (r_ExternalConnectionInfo r) (r_NamespaceResourceinfo r)
    (r_AddExternalConnectionParams r) o.

(** ** Package util: objects and conditions *)

(** The double quote, for the texts that quote a word. *)
Definition dq : string := String (Ascii.ascii_of_nat 34) EmptyString.

(** [AddFinalizer] adds the finalizer to the object if it doesn't contain
    it already. *)
Definition AddFinalizer (obj : ObjectMeta) (finalizer : string) : ObjectMeta * bool :=
  if negb (Contains finalizer (Finalizers obj))
  then (set_Finalizers (Finalizers obj ++ [finalizer]) obj, true)
  else (obj, false).

(** [RemoveFinalizer] modifies the object and removes the finalizer. *)
Definition RemoveFinalizer (obj : ObjectMeta) (finalizer : string) : ObjectMeta * bool :=
  let '(kept, found) := RemoveFinalizer_loop (Finalizers obj) finalizer in
  (set_Finalizers kept obj, found).

(** [EnsureCommonMetaFields] ensures that the resource has all mandatory
    meta fields. *)
Definition EnsureCommonMetaFields (object : ObjectMeta) (finalizer : string)
  : ObjectMeta * bool :=
  let '(object1, updated) :=
    match Labels object with
    | None => (set_Labels (Some {[ "app" := "noobaa" ]}) object, true)
    | Some labels =>
        if negb (default EmptyString (labels !! "app") =s? "noobaa")
        then (set_Labels (Some (<[ "app" := "noobaa" ]> labels)) object, true)
        else (object, false)
    end in
  let '(object2, added) := AddFinalizer object1 finalizer in
  (object2, updated || added).

(** [SecretResetStringDataFromData] reads the secret data into string
    data. *)
Definition SecretResetStringDataFromData (secret : Secret) : Secret :=
  mkSecret (Secret_Meta secret) (Secret_Data secret) ∅.

(** The errors the helpers of [util] report with [false]; any other error
    goes to [util.Panic]. *)
Definition kube_classified (e : KubeError) : bool :=
  match e with
  | KubeOther _ => false
  | _ => true
  end.

(** [conditionsv1.FindStatusCondition] and [conditionsv1.SetStatusCondition]
    of the status library: a condition of a new type is appended, a condition
    of a known type is updated in place, its transition time moving only when
    the status changes. [now] is the reading of the clock. *)
Definition FindStatusCondition (conditions : list Condition) (conditionType : string)
  : option Condition :=
  find (fun c => Condition_Type c =s? conditionType) conditions.

Definition refresh_condition (now : Time) (newCondition existing : Condition) : Condition :=
  mkCondition (Condition_Type existing) (Condition_Status newCondition)
    (Condition_Reason newCondition) (Condition_Message newCondition) now
    (if Condition_Status existing =s? Condition_Status newCondition
     then Condition_LastTransitionTime existing else now).

Fixpoint refresh_first (now : Time) (newCondition : Condition) (conditions : list Condition)
  : list Condition :=
  match conditions with
  | [] => []
  | c :: rest =>
      if Condition_Type c =s? Condition_Type newCondition
      then refresh_condition now newCondition c :: rest
      else c :: refresh_first now newCondition rest
  end.

Definition SetStatusCondition (now : Time) (conditions : list Condition)
    (newCondition : Condition) : list Condition :=
  match FindStatusCondition conditions (Condition_Type newCondition) with
  | None =>
      conditions ++ [mkCondition (Condition_Type newCondition) (Condition_Status newCondition)
                       (Condition_Reason newCondition) (Condition_Message newCondition) now now]
  | Some _ => refresh_first now newCondition conditions
  end.

(** The four conditions every [Set...Condition] writes, in the order it
    writes them. *)
Definition set_four (now : Time) (conditions : list Condition)
    (available progressing degraded upgradeable reason message : string) : list Condition :=
  let c1 := SetStatusCondition now conditions
              (mkCondition conditionsv1.ConditionAvailable available reason message now now) in
  let c2 := SetStatusCondition now c1
              (mkCondition conditionsv1.ConditionProgressing progressing reason message now now) in
  let c3 := SetStatusCondition now c2
              (mkCondition conditionsv1.ConditionDegraded degraded reason message now now) in
  SetStatusCondition now c3
    (mkCondition conditionsv1.ConditionUpgradeable upgradeable reason message now now).

(** [SetAvailableCondition] updates the status conditions to available
    state. *)
Definition SetAvailableCondition (now : Time) (conditions : list Condition)
    (reason message : string) : list Condition :=
  set_four now conditions corev1.ConditionTrue corev1.ConditionFalse
    corev1.ConditionFalse corev1.ConditionTrue reason message.

(** [SetProgressingCondition] updates the status conditions to in-progress
    state. *)
Definition SetProgressingCondition (now : Time) (conditions : list Condition)
    (reason message : string) : list Condition :=
  set_four now conditions corev1.ConditionFalse corev1.ConditionTrue
    corev1.ConditionFalse corev1.ConditionFalse reason message.

(** [SetErrorCondition] updates the status conditions to error state. *)
Definition SetErrorCondition (now : Time) (conditions : list Condition)
    (reason message : string) : list Condition :=
  set_four now conditions corev1.ConditionUnknown corev1.ConditionFalse
    corev1.ConditionTrue corev1.ConditionUnknown reason message.

(** ** Package namespacestore *)

(** [ModeInfo] holds local information for a namespace store mode. *)
Record ModeInfo := mkModeInfo {
  ModeInfo_Phase : string;
  ModeInfo_Severity : string
}.

Definition modeInfoMap : gmap string ModeInfo :=
  list_to_map [
    ("OPTIMAL", mkModeInfo nbv1.NamespaceStorePhaseReady corev1.EventTypeNormal);
    ("IO_ERRORS", mkModeInfo nbv1.NamespaceStorePhaseRejected corev1.EventTypeWarning);
    ("STORAGE_NOT_EXIST", mkModeInfo nbv1.NamespaceStorePhaseRejected corev1.EventTypeWarning);
    ("AUTH_FAILED", mkModeInfo nbv1.NamespaceStorePhaseRejected corev1.EventTypeWarning)
  ].

Definition nsrModeInfoMap : gmap string ModeInfo := modeInfoMap.

Section Engine.

Context `{L : GoLib} (w : World).

(** [time.Since]. *)
Definition time_Since (t : Time) : Duration := Time_Sub (time_Now w) t.

(** [fmt.Errorf]: an error of an unexported type, known by its text. *)
Definition fmt_Errorf (format : string) (args : list string) : error :=
  errorString (fmt_Sprintf format args).

(** The [Error] method behind the interface. *)
Definition error_Error (e : error) : string :=
  match e with
  | PersistentErr p => PersistentError_Message p
  | RPCErr e => RPCError_Error e
  | errorString s => s
  end.

(** *** Cluster helpers of package util *)

(** [KubeCheck] checks if the object exists; the object is filled from
    the cluster when it does. *)
Definition KubeCheck_NamespaceStore : M bool :=
  r <- get_r;
  res <- call (klient_Get_NamespaceStore w) KubeGet_NamespaceStore (r_NamespaceStore r);
  match res with
  | inl obj => run modify_r (set_r_NamespaceStore obj); ret true
  | inr e => if kube_classified e then ret false else panic
  end.

Definition KubeCheck_NooBaa : M bool :=
  r <- get_r;
  res <- call (klient_Get_NooBaa w) KubeGet_NooBaa (r_NooBaa r);
  match res with
  | inl obj => run modify_r (set_r_NooBaa obj); ret true
  | inr e => if kube_classified e then ret false else panic
  end.

Definition KubeCheck_Secret : M bool :=
  r <- get_r;
  res <- call (klient_Get_Secret w) KubeGet_Secret (r_Secret r);
  match res with
  | inl obj => run modify_r (set_r_Secret (SecretResetStringDataFromData obj)); ret true
  | inr e => if kube_classified e then ret false else panic
  end.

(** [KubeUpdate] updates an object and reports the object status. *)
Definition KubeUpdate : M bool :=
  r <- get_r;
  res <- call (klient_Update w) KubeUpdate_NamespaceStore (r_NamespaceStore r);
  match res with
  | None => ret true
  | Some e => if kube_classified e then ret false else panic
  end.

(** Modelled from the spec: [system.CheckSystem] is declared in package
    [system]; it loads the parent system record the Verifying phase then
    looks at, which is [util.KubeCheck] on the record. *)
Definition CheckSystem : M bool := KubeCheck_NooBaa.

(** A method call on [r.NBClient], a nil interface until [ReadSystemInfo]
    sets it. *)
Definition NBClient_call {Req Resp} (oracle : list Action -> Req -> Resp)
    (act : Req -> Resp -> Action) (req : Req) : M Resp :=
  r <- get_r;
  if r_NBClient r then call oracle act req else panic.

(** *** The reconciler *)

(** [NewReconciler] initializes a reconciler. *)
Definition NewReconciler (req_Namespace req_Name : string) (recorder : bool) : Reconciler :=
  let ns := bundle_namespacestore_cr in
  let nooBaa := bundle_noobaa_cr in
  let secret := bundle_secret_empty in
  mkReconciler recorder false
    (set_Meta (set_Name req_Name (set_Namespace req_Namespace (NamespaceStore_Meta ns))) ns)
    (mkNooBaa (set_Name options_SystemName (set_Namespace req_Namespace (NooBaa_Meta nooBaa))))
    (mkSecret (set_Name EmptyString (set_Namespace EmptyString (Secret_Meta secret)))
       (Secret_StringData secret) (Secret_Data secret))
    None None None None None.

Definition ns_Meta (r : Reconciler) : ObjectMeta := NamespaceStore_Meta (r_NamespaceStore r).
Definition ns_Spec (r : Reconciler) : NamespaceStoreSpec := NamespaceStore_Spec (r_NamespaceStore r).
Definition ns_Status (r : Reconciler) : NamespaceStoreStatus := NamespaceStore_Status (r_NamespaceStore r).

Definition modify_Status (f : NamespaceStoreStatus -> NamespaceStoreStatus) : M unit :=
  modify_r (fun r => set_r_NamespaceStore (set_Status (f (ns_Status r)) (r_NamespaceStore r)) r).

(** [SetPhase] updates the status phase and conditions: what it does to
    [r.NamespaceStore.Status], then the method. *)
Definition SetPhase_status (now : Time) (phase reason message : string)
    (status : NamespaceStoreStatus) : NamespaceStoreStatus :=
  let c := Status_Conditions status in
  if phase =s? EmptyString then
    set_Conditions (SetProgressingCondition now c reason message) status
  else
    let status := set_Phase phase status in
    if phase =s? nbv1.NamespaceStorePhaseReady then
      set_Conditions (SetAvailableCondition now c reason message) status
    else if phase =s? nbv1.NamespaceStorePhaseRejected then
      set_Conditions (SetErrorCondition now c reason message) status
    else
      set_Conditions (SetProgressingCondition now c reason message) status.

Definition SetPhase (phase reason message : string) : M unit :=
  modify_Status (SetPhase_status (time_Now w) phase reason message).

(** [UpdateStatus] updates the namespace store status in kubernetes from
    the memory. *)
Definition UpdateStatus : M (option error) :=
  r <- get_r;
  call (Client_Status_Update w) Status_Update (r_NamespaceStore r).

(** [ReconcilePhaseVerifying] checks that we have the system and secret
    needed to reconcile. *)
Definition ReconcilePhaseVerifying : M (option error) :=
  run SetPhase nbv1.NamespaceStorePhaseVerifying "NamespaceStorePhaseVerifying"
        ("noobaa operator started phase 1/3 - " ++ dq ++ "Verifying" ++ dq);
  r <- get_r;
  if UID (NooBaa_Meta (r_NooBaa r)) =s? EmptyString then
    ret (Some (PersistentErr (NewPersistentError "MissingSystem"
      (fmt_Sprintf "NooBaa system %q not found or deleted" [Name (NooBaa_Meta (r_NooBaa r))]))))
  else if negb (Name (Secret_Meta (r_Secret r)) =s? EmptyString)
          && (UID (Secret_Meta (r_Secret r)) =s? EmptyString) then
    if time_Since (CreationTimestamp (ns_Meta r)) <? 5 * Minute then
      ret (Some (fmt_Errorf "NamespaceStore Secret %q not found, but not rejecting the young as it might be in process"
                   [Name (Secret_Meta (r_Secret r))]))
    else
      ret (Some (PersistentErr (NewPersistentError "MissingSecret"
        (fmt_Sprintf "NamespaceStore Secret %q not found or deleted" [Name (Secret_Meta (r_Secret r))]))))
  else ret None.

(** [fixAlternateKeysNames]: the loop over the alternate names, then the
    two assignments. *)
Definition StringData_get (sd : gmap string string) (key : string) : string :=
  default EmptyString (sd !! key).

Fixpoint first_alternate (sd : gmap string string) (keys : list string) : option string :=
  match keys with
  | [] => None
  | key :: rest =>
      if negb (StringData_get sd key =s? EmptyString) then Some (StringData_get sd key)
      else first_alternate sd rest
  end.

Definition fix_key (canonical : string) (alternates : list string) (sd : gmap string string)
  : gmap string string :=
  if StringData_get sd canonical =s? EmptyString then
    match first_alternate sd alternates with
    | Some v => <[ canonical := v ]> sd
    | None => sd
    end
  else sd.

Definition fixAlternateKeysNames : M unit :=
  let alternateAccessKeyNames := ["aws_access_key_id"; "AccessKey"] in
  let alternateSecretKeyNames := ["aws_secret_access_key"; "SecretKey"] in
  modify_r (fun r =>
    let secret := r_Secret r in
    let sd1 := fix_key "AWS_ACCESS_KEY_ID" alternateAccessKeyNames (Secret_StringData secret) in
    let sd2 := fix_key "AWS_SECRET_ACCESS_KEY" alternateSecretKeyNames sd1 in
    set_r_Secret (mkSecret (Secret_Meta secret) sd2 (Secret_Data secret)) r).

(** [IsStringGraphicOrSpacesCharsOnly] returns true only if all the chars
    are graphic or spaces. *)
Definition IsStringGraphicOrSpacesCharsOnly (s : string) : bool :=
  forallb (fun c => unicode_IsGraphic c || unicode_IsSpace c) (utf8_runes s).

(** The signature-version branch shared by the S3-compatible and the IBM
    COS cases of [MakeExternalConnectionParams]. *)
Definition auth_method (signatureVersion nsName : string) : string + error :=
  if signatureVersion =s? nbv1.S3SignatureVersionV4 then inl "AWS_V4"
  else if signatureVersion =s? nbv1.S3SignatureVersionV2 then inl "AWS_V2"
  else if negb (signatureVersion =s? EmptyString) then
    inr (PersistentErr (NewPersistentError "InvalidSignatureVersion"
           (fmt_Sprintf "Invalid s3 signature version %q for namespace store %q"
              [signatureVersion; nsName])))
  else inl EmptyString.

(** The endpoint branch of the same two cases: the endpoint left in the
    spec block (the code prefixes it in place when it has no scheme) and
    the endpoint of the connection, or the error. *)
Definition endpoint_url (endpoint : string) : string * (string + error) :=
  if endpoint =s? EmptyString then
    (endpoint, inl (url_String (mkURL "https" "127.0.0.1:6443" EmptyString)))
  else
    match regexp_MatchString "^\w+://" endpoint with
    | inr err =>
        (endpoint, inr (PersistentErr (NewPersistentError "InvalidEndpoint"
                     (fmt_Sprintf "Invalid endpoint url %q: %v" [endpoint; err]))))
    | inl matched =>
        let endpoint' := if negb matched then "https://" ++ endpoint else endpoint in
        match url_Parse endpoint' with
        | inr err =>
            (endpoint', inr (PersistentErr (NewPersistentError "InvalidEndpoint"
                           (fmt_Sprintf "Invalid endpoint url %q: %v" [endpoint'; err]))))
        | inl u =>
            let u' := if URL_Scheme u =s? EmptyString
                      then mkURL "https" (URL_Host u) (URL_Rest u) else u in
            (endpoint', inl (url_String u'))
        end
    end.

Definition modify_Spec (f : NamespaceStoreSpec -> NamespaceStoreSpec) : M unit :=
  modify_r (fun r => set_r_NamespaceStore (set_Spec (f (ns_Spec r)) (r_NamespaceStore r)) r).

(** [MakeExternalConnectionParams] translates the namespace store spec
    and secret to the parameters of the external connection. A spec block
    that is nil where the code reads through it is a nil dereference. *)
Definition MakeExternalConnectionParams : M (AddExternalConnectionParams + error) :=
  run fixAlternateKeysNames;
  r <- get_r;
  let name := Name (ns_Meta r) in
  let sd := StringData_get (Secret_StringData (r_Secret r)) in
  let type := Spec_Type (ns_Spec r) in
  built <-
    (if type =s? nbv1.NSStoreTypeAWSS3 then
       match Spec_AWSS3 (ns_Spec r) with
       | None => panic
       | Some awsS3 =>
           let scheme := if AWSS3_SSLDisabled awsS3 then "http" else "https" in
           let host := if negb (AWSS3_Region awsS3 =s? EmptyString)
                       then fmt_Sprintf "s3.%s.amazonaws.com" [AWSS3_Region awsS3]
                       else "s3.amazonaws.com" in
           ret (inl (mkAddExternalConnectionParams name nb.EndpointTypeAws
                       (url_String (mkURL scheme host EmptyString))
                       (sd "AWS_ACCESS_KEY_ID") (sd "AWS_SECRET_ACCESS_KEY") EmptyString))
       end
     else if type =s? nbv1.NSStoreTypeS3Compatible then
       match Spec_S3Compatible (ns_Spec r) with
       | None => panic
       | Some s3Compatible =>
           match auth_method (S3Compatible_SignatureVersion s3Compatible) name with
           | inr e => ret (inr e)
           | inl authMethod =>
               let '(endpoint', res) := endpoint_url (S3Compatible_Endpoint s3Compatible) in
               run modify_Spec (set_S3Compatible (Some
                     (mkS3CompatibleSpec (S3Compatible_TargetBucket s3Compatible) endpoint'
                        (S3Compatible_Secret s3Compatible)
                        (S3Compatible_SignatureVersion s3Compatible))));
               match res with
               | inr e => ret (inr e)
               | inl endpoint =>
                   ret (inl (mkAddExternalConnectionParams name nb.EndpointTypeS3Compat endpoint
                               (sd "AWS_ACCESS_KEY_ID") (sd "AWS_SECRET_ACCESS_KEY") authMethod))
               end
           end
       end
     else if type =s? nbv1.NSStoreTypeIBMCos then
       match Spec_IBMCos (ns_Spec r) with
       | None => panic
       | Some IBMCos =>
           match auth_method (IBMCos_SignatureVersion IBMCos) name with
           | inr e => ret (inr e)
           | inl authMethod =>
               let '(endpoint', res) := endpoint_url (IBMCos_Endpoint IBMCos) in
               run modify_Spec (set_IBMCos (Some
                     (mkIBMCosSpec (IBMCos_TargetBucket IBMCos) endpoint'
                        (IBMCos_Secret IBMCos) (IBMCos_SignatureVersion IBMCos))));
               match res with
               | inr e => ret (inr e)
               | inl endpoint =>
                   ret (inl (mkAddExternalConnectionParams name nb.EndpointTypeIBMCos endpoint
                               (sd "IBM_COS_ACCESS_KEY_ID") (sd "IBM_COS_SECRET_ACCESS_KEY")
                               authMethod))
               end
           end
       end
     else if type =s? nbv1.NSStoreTypeAzureBlob then
       ret (inl (mkAddExternalConnectionParams name nb.EndpointTypeAzure
                   "https://blob.core.windows.net" (sd "AccountName") (sd "AccountKey")
                   EmptyString))
     else
       ret (inr (PersistentErr (NewPersistentError "InvalidType"
                   (fmt_Sprintf "Invalid namespace store type %q" [type])))));
  match built with
  | inr e => ret (inr e)
  | inl conn =>
      if negb (IsStringGraphicOrSpacesCharsOnly (Conn_Identity conn))
         || negb (IsStringGraphicOrSpacesCharsOnly (Conn_Secret conn))
      then
        s <- get_r;
        ret (inr (PersistentErr (NewPersistentError "InvalidSecret"
          (fmt_Sprintf
             "Invalid secret containing non graphic characters (perhaps not base64 encoded?) %q"
             [Name (Secret_Meta (r_Secret s))]))))
      else ret (inl conn)
  end.

(** Whether an existing connection is the one the descriptor asks for:
    the same endpoint type, endpoint and identity. *)
Definition same_connection (conn : AddExternalConnectionParams) (c : ExternalConnectionInfo)
  : bool :=
  (ExternalConnectionInfo_EndpointType c =s? Conn_EndpointType conn)
  && (ExternalConnectionInfo_Endpoint c =s? Conn_Endpoint conn)
  && (ExternalConnectionInfo_Identity c =s? Conn_Identity conn).

(** The body of the two nested loops of [ReadSystemInfo] that look for a
    connection to reuse; the accumulator is [r.ExternalConnectionInfo] and
    [conn.Name]. *)
Definition reuse_step (conn : AddExternalConnectionParams)
    (acc : option ExternalConnectionInfo * string) (c : ExternalConnectionInfo)
  : option ExternalConnectionInfo * string :=
  if same_connection conn c then (Some c, ExternalConnectionInfo_Name c) else acc.

Definition reuse_connections (conn : AddExternalConnectionParams) (accounts : list AccountInfo)
    (acc : option ExternalConnectionInfo * string) : option ExternalConnectionInfo * string :=
  fold_left (fun acc account => fold_left (reuse_step conn) (AccountInfo_Connections account) acc)
    accounts acc.

(** [ReadSystemInfo] loads the information from the noobaa system api,
    and prepares the structures to reconcile. Its body is given in three
    parts: the end of it, from the descriptor [conn] that
    [MakeExternalConnectionParams] returned (the reuse of an existing
    connection and the parameters of the namespace resource); the
    handling of a namespace fs resource; and the whole. *)
Definition ReadSystemInfo_reuse (systemInfo : SystemInfo) (conn : AddExternalConnectionParams)
  : M (option error) :=
  (* a mismatch with the existing namespace resource is only logged *)
  r <- get_r;
  (* Reuse an existing connection if match is found *)
  let '(info, connName) :=
    reuse_connections conn (SystemInfo_Accounts systemInfo)
      (r_ExternalConnectionInfo r, Conn_Name conn) in
  let conn := set_Conn_Name connName conn in
  run modify_r (set_r_ExternalConnectionInfo info);
  run modify_r (set_r_AddExternalConnectionParams (Some conn));
  r <- get_r;
  run modify_r (set_r_CreateNamespaceResourceParams (Some
        (mkCreateNamespaceResourceParams (Name (ns_Meta r)) (Conn_Name conn)
           (GetNamespaceStoreTargetBucket (r_NamespaceStore r)) None
           (Some (mkNamespaceStoreInfo (Name (ns_Meta r)) options_Namespace)))));
  ret None.

Definition ReadSystemInfo_nsfs : M (option error) :=
  r <- get_r;
  match Spec_NSFS (ns_Spec r) with
  | None => panic
  | Some nsfs =>
      run modify_r (set_r_CreateNamespaceResourceParams (Some
            (mkCreateNamespaceResourceParams (Name (ns_Meta r)) EmptyString EmptyString
               (Some (mkNSFSConfig (NSFS_FsBackend nsfs) (NSFS_FsRootPath nsfs)))
               (Some (mkNamespaceStoreInfo (Name (ns_Meta r)) options_Namespace)))));
      ret None
  end.

Definition ReadSystemInfo : M (option error) :=
  orReturn (call (system_Connect w) (fun _ => Connect) tt) (
  run modify_r (set_r_NBClient true);
  res <- NBClient_call (nb_ReadSystemAPI w) (fun _ => ReadSystemAPI) tt;
  match res with
  | inr err => ret (Some err)
  | inl systemInfo =>
      run modify_r (set_r_SystemInfo (Some systemInfo));
      (* Check if namespace resource exists *)
      run modify_r (fun r =>
            match find (fun nsr => NamespaceResourceInfo_Name nsr =s? Name (ns_Meta r))
                    (SystemInfo_NamespaceResources systemInfo) with
            | Some nsr => set_r_NamespaceResourceinfo (Some nsr) r
            | None => r
            end);
      r <- get_r;
      (* handling namespace fs resource *)
      if Spec_Type (ns_Spec r) =s? nbv1.NSStoreTypeNSFS then ReadSystemInfo_nsfs
      else
        made <- MakeExternalConnectionParams;
        match made with
        | inr err => ret (Some err)
        | inl conn => ReadSystemInfo_reuse systemInfo conn
        end
  end).

(** [LoadNamespaceStoreSecret] loads the secret to the reconciler
    struct. *)
Definition LoadNamespaceStoreSecret : M (option error) :=
  r <- get_r;
  match GetNamespaceStoreSecret (r_NamespaceStore r) with
  | Some secretRef =>
      let namespace :=
        if SecretReference_Namespace secretRef =s? EmptyString
        then Namespace (ns_Meta r) else SecretReference_Namespace secretRef in
      run modify_r (fun r =>
            let secret := r_Secret r in
            set_r_Secret (mkSecret
              (set_Namespace namespace (set_Name (SecretReference_Name secretRef) (Secret_Meta secret)))
              (Secret_StringData secret) (Secret_Data secret)) r);
      run KubeCheck_Secret;
      ret None
  | None => ret None
  end.

(** [ReconcilePhaseConnecting]. *)
Definition ReconcilePhaseConnecting : M (option error) :=
  run SetPhase nbv1.NamespaceStorePhaseConnecting "NamespaceStorePhaseConnecting"
        ("noobaa operator started phase 2/3 - " ++ dq ++ "Connecting" ++ dq);
  ReadSystemInfo.

(** The cases of the switch of [ReconcileExternalConnection] on the status
    of the connection check, each falling through to the next as the code
    does. *)
Definition case_NotSupported (r : Reconciler) (status : string) : option error :=
  Some (PersistentErr (NewPersistentError status
    (fmt_Sprintf "NamespaceStore %q invalid external connection %q"
       [Name (ns_Meta r); status]))).

Definition case_TimeSkew (r : Reconciler) (status : string) : option error :=
  case_NotSupported r status.

Definition case_InvalidEndpoint (r : Reconciler) (status : string) : option error :=
  if time_Since (CreationTimestamp (ns_Meta r)) <? 5 * Minute then
    Some (fmt_Errorf "got invalid endopint. requeue again" [])
  else case_TimeSkew r status.

Definition case_InvalidCredentials (r : Reconciler) (status : string) : option error :=
  if time_Since (CreationTimestamp (ns_Meta r)) <? 5 * Minute then
    Some (fmt_Errorf "Got InvalidCredentials. requeue again" [])
  else case_InvalidEndpoint r status.

Definition case_default (res : CheckExternalConnectionReply) : option error :=
  Some (fmt_Errorf "CheckExternalConnection Status=%s Error=%s Message=%s"
          [Reply_Status res; Reply_Error_Code res; Reply_Error_Message res]).

(** [ReconcileExternalConnection] handles the external connection using
    noobaa api. *)
Definition ReconcileExternalConnection : M (option error) :=
  r <- get_r;
  match r_ExternalConnectionInfo r with
  | Some _ => ret None
  | None =>
      match r_AddExternalConnectionParams r with
      | None => ret None
      | Some params =>
          checked <- NBClient_call (nb_CheckExternalConnectionAPI w) CheckExternalConnectionAPI params;
          let '(res, err) := checked in
          match err with
          | Some e =>
              match e with
              | RPCErr rpcErr =>
                  if RPCError_RPCCode rpcErr =s? "INVALID_SCHEMA_PARAMS"
                  then ret (Some (PersistentErr
                              (NewPersistentError "InvalidConnectionParams" (RPCError_Message rpcErr))))
                  else ret (Some e)
              | _ => ret (Some e)
              end
          | None =>
              let status := Reply_Status res in
              if status =s? nb.ExternalConnectionSuccess then
                NBClient_call (nb_AddExternalConnectionAPI w) AddExternalConnectionAPI params
              else if status =s? nb.ExternalConnectionInvalidCredentials then
                ret (case_InvalidCredentials r status)
              else if status =s? nb.ExternalConnectionInvalidEndpoint then
                ret (case_InvalidEndpoint r status)
              else if status =s? nb.ExternalConnectionTimeSkew then
                ret (case_TimeSkew r status)
              else if status =s? nb.ExternalConnectionNotSupported then
                ret (case_NotSupported r status)
              else
                ret (case_default res)
          end
      end
  end.

(** [ReconcileNamespaceStore] handles the namespace store using noobaa
    api. *)
Definition ReconcileNamespaceStore : M (option error) :=
  r <- get_r;
  match r_NamespaceResourceinfo r with
  | Some _ => ret None
  | None =>
      match r_CreateNamespaceResourceParams r with
      | Some params =>
          NBClient_call (nb_CreateNamespaceResourceAPI w) CreateNamespaceResourceAPI params
      | None => ret None
      end
  end.

(** [ReconcilePhaseCreating]. *)
Definition ReconcilePhaseCreating : M (option error) :=
  run SetPhase nbv1.NamespaceStorePhaseCreating "NamespaceStorePhaseCreating"
        ("noobaa operator started phase 3/3 - " ++ dq ++ "Creating" ++ dq);
  orReturn ReconcileExternalConnection ReconcileNamespaceStore.

(** [ReconcilePhases] runs the reconcile flow and populates the status. *)
Definition ReconcilePhases : M (option error) :=
  orReturn ReconcilePhaseVerifying
    (orReturn ReconcilePhaseConnecting ReconcilePhaseCreating).

(** [FinalizeDeletion] removes the finalizer and updates in order to let
    the namespace-store get reclaimed by kubernetes. *)
Definition FinalizeDeletion : M (option error) :=
  run modify_r (fun r =>
        set_r_NamespaceStore
          (set_Meta (fst (RemoveFinalizer (ns_Meta r) nbv1.Finalizer)) (r_NamespaceStore r)) r);
  updated <- KubeUpdate;
  if negb updated then
    r <- get_r;
    ret (Some (fmt_Errorf "NamespaceStore %q failed to remove finalizer %q"
                 [Name (ns_Meta r); nbv1.Finalizer]))
  else ret None.

(** The name of the first pool of resource type INTERNAL, empty when
    there is none. *)
Definition internalPoolName (pools : list PoolInfo) : string :=
  match find (fun pool => PoolInfo_ResourceType pool =s? "INTERNAL") pools with
  | Some pool => PoolInfo_Name pool
  | None => EmptyString
  end.

(** The parameters of the account update of [ReconcileDeletion]. *)
Definition reset_default_resource (account : AccountInfo) (internalPool : string)
  : UpdateAccountS3AccessParams :=
  let allowedBuckets := AccountInfo_AllowedBuckets account in
  let allowedBuckets :=
    match PermissionList allowedBuckets with
    | None => mkAccountAllowedBuckets (FullPermission allowedBuckets) (Some [])
    | Some _ => allowedBuckets
    end in
  mkUpdateAccountS3AccessParams (AccountInfo_Email account) (AccountInfo_HasS3Access account)
    (Some internalPool) (Some allowedBuckets).

(** The loop of [ReconcileDeletion] over the accounts. *)
Fixpoint ReconcileDeletion_accounts (accounts : list AccountInfo)
    (resourceName internalPool : string) : M (option error) :=
  match accounts with
  | [] => ret None
  | account :: rest =>
      if AccountInfo_DefaultResource account =s? resourceName then
        orReturn
          (NBClient_call (nb_UpdateAccountS3Access w) UpdateAccountS3Access
             (reset_default_resource account internalPool))
          (ReconcileDeletion_accounts rest resourceName internalPool)
      else ReconcileDeletion_accounts rest resourceName internalPool
  end.

(** The two cleanup blocks of [ReconcileDeletion]: the namespace resource,
    then the external connection. *)
Definition ReconcileDeletion_resource : M (option error) :=
  r <- get_r;
  match r_NamespaceResourceinfo r with
  | Some nsr =>
      match r_SystemInfo r with
      | None => panic
      | Some systemInfo =>
          orReturn
            (ReconcileDeletion_accounts (SystemInfo_Accounts systemInfo)
               (NamespaceResourceInfo_Name nsr) (internalPoolName (SystemInfo_Pools systemInfo)))
            (err <- NBClient_call (nb_DeleteNamespaceResourceAPI w) DeleteNamespaceResourceAPI
                      (NamespaceResourceInfo_Name nsr);
             match err with
             | Some (RPCErr rpcErr) =>
                 if RPCError_RPCCode rpcErr =s? "IN_USE" then
                   ret (Some (fmt_Errorf
                     "DeleteNamespaceResourceAPI cannot complete because namespace store %q has buckets attached"
                     [NamespaceResourceInfo_Name nsr]))
                 else ret err
             | _ => ret err
             end)
      end
  | None => ret None
  end.

Definition ReconcileDeletion_connection : M (option error) :=
  r <- get_r;
  match r_ExternalConnectionInfo r with
  | Some info =>
      err <- NBClient_call (nb_DeleteExternalConnectionAPI w) DeleteExternalConnectionAPI
               (ExternalConnectionInfo_Name info);
      match err with
      | Some (RPCErr rpcErr) =>
          if negb (RPCError_RPCCode rpcErr =s? "IN_USE") then ret err else ret None
      | _ => ret err
      end
  | None => ret None
  end.

(** The cleanup and the release of the finalizer, the end of
    [ReconcileDeletion] from the test of [r.NamespaceResourceinfo] on. *)
Definition ReconcileDeletion_cleanup : M (option error) :=
  orReturn ReconcileDeletion_resource
    (orReturn ReconcileDeletion_connection FinalizeDeletion).

(** [ReconcileDeletion] handles the deletion of a namespace-store using
    the noobaa api. Its first block, which sets the phase to let users know
    the operator has noticed the deletion request, is
    [ReconcileDeletion_announce]. *)
Definition ReconcileDeletion_announce : M (option error) :=
  r <- get_r;
  if negb (Status_Phase (ns_Status r) =s? nbv1.NamespaceStorePhaseDeleting) then
    run SetPhase nbv1.NamespaceStorePhaseDeleting "NamespaceStorePhaseDeleting"
          "noobaa operator started deletion";
    UpdateStatus
  else ret None.

Definition ReconcileDeletion : M (option error) :=
  orReturn ReconcileDeletion_announce
    (r <- get_r;
     if UID (NooBaa_Meta (r_NooBaa r)) =s? EmptyString then FinalizeDeletion
     else
       orReturn ReadSystemInfo ReconcileDeletion_cleanup).

(** [Reconcile], in the parts of its body: the run of the deletion path
    or of the phases ([Reconcile_run]); the reaction to the error of the
    run ([Reconcile_react]); that reaction followed by the status update
    and the return ([Reconcile_finish]); and the whole, with the loading
    of the record first. *)
Definition Reconcile_run : M (option error) :=
  run CheckSystem;
  orReturn LoadNamespaceStoreSecret
    (r <- get_r;
     match DeletionTimestamp (ns_Meta r) with
     | Some _ => ReconcileDeletion
     | None => ReconcilePhases
     end).

Definition set_RequeueAfter (d : Duration) (res : Result) : Result :=
  mkResult (Requeue res) d.

Definition Reconcile_react (err : option error) (res : Result) : M Result :=
  match err with
  | Some (PersistentErr perr) =>
      run SetPhase nbv1.NamespaceStorePhaseRejected
            (PersistentError_Reason perr) (PersistentError_Message perr);
      r <- get_r;
      run (if r_Recorder r
           then emit (Eventf corev1.EventTypeWarning (PersistentError_Reason perr)
                        (fmt_Sprintf (PersistentError_Message perr) []))
           else ret tt);
      ret res
  | Some e =>
      let res := set_RequeueAfter (3 * Second) res in
      (* leave current phase as is *)
      run SetPhase EmptyString "TemporaryError" (error_Error e);
      ret res
  | None =>
      r <- get_r;
      let mode := Status_ModeCode (ns_Status r) in
      let ready :=
        SetPhase nbv1.NamespaceStorePhaseReady "NamespaceStorePhaseReady"
          "noobaa operator completed reconcile - namespace store is ready" in
      match nsrModeInfoMap !! mode with
      | Some phaseInfo =>
          if negb (ModeInfo_Phase phaseInfo =s? Status_Phase (ns_Status r)) then
            let phaseName := fmt_Sprintf "NamespaceStorePhase%s" [ModeInfo_Phase phaseInfo] in
            let desc := fmt_Sprintf "Namespace store mode: %s" [mode] in
            run SetPhase (ModeInfo_Phase phaseInfo) desc phaseName;
            run (if r_Recorder r
                 then emit (Eventf (ModeInfo_Severity phaseInfo) phaseName
                              (fmt_Sprintf desc []))
                 else ret tt);
            ret res
          else run ready; ret res
      | None => run ready; ret res
      end
  end.

Definition Reconcile_finish (err : option error) (res : Result) : M (Result * option error) :=
  res <- Reconcile_react err res;
  err <- UpdateStatus;
  (* if the status update fails we requeue until the status is written *)
  let res := match err with
             | Some _ => set_RequeueAfter (3 * Second) res
             | None => res
             end in
  ret (res, None).

Definition Reconcile : M (Result * option error) :=
  let res := mkResult false 0 in
  run KubeCheck_NamespaceStore;
  r <- get_r;
  if UID (ns_Meta r) =s? EmptyString then ret (mkResult false 0, None)
  else
    let '(meta, ensured) := EnsureCommonMetaFields (ns_Meta r) nbv1.Finalizer in
    run modify_r (fun r => set_r_NamespaceStore (set_Meta meta (r_NamespaceStore r)) r);
    updated <- (if ensured then KubeUpdate else ret true);
    if negb updated then ret (set_RequeueAfter (3 * Second) res, None)
    else
      err <- Reconcile_run;
      Reconcile_finish err res.

End Engine.

(** ** A sample library and sample records

    Stand-ins for the libraries, good enough to run the reconciler on
    concrete records: a formatter that appends the arguments to the format,
    URLs split at the scheme separator, ASCII classes of characters. *)

Definition sample_Sprintf (format : string) (args : list string) : string :=
  fold_left (fun acc a => acc ++ " " ++ a) args format.

Definition sample_url_Parse (s : string) : URL + string :=
  match String.index 0 "://" s with
  | Some i => inl (mkURL (String.substring 0 i s)
                     (String.substring (i + 3) (String.length s - (i + 3)) s) EmptyString)
  | None => inl (mkURL EmptyString s EmptyString)
  end.

Definition sample_url_String (u : URL) : string :=
  URL_Scheme u ++ "://" ++ URL_Host u ++ URL_Rest u.

Definition sample_MatchString (pattern s : string) : bool + string :=
  match String.index 0 "://" s with
  | Some _ => inl true
  | None => inl false
  end.

Definition sample_runes (s : string) : list rune :=
  map (fun a => Z.of_nat (Ascii.nat_of_ascii a)) (list_ascii_of_string s).

Definition sample_Secret_of (o : NamespaceStore) : option SecretReference :=
  let sp := NamespaceStore_Spec o in
  if Spec_Type sp =s? nbv1.NSStoreTypeAWSS3 then option_map AWSS3_Secret (Spec_AWSS3 sp)
  else if Spec_Type sp =s? nbv1.NSStoreTypeS3Compatible
  then option_map S3Compatible_Secret (Spec_S3Compatible sp)
  else if Spec_Type sp =s? nbv1.NSStoreTypeIBMCos then option_map IBMCos_Secret (Spec_IBMCos sp)
  else if Spec_Type sp =s? nbv1.NSStoreTypeAzureBlob
  then option_map AzureBlob_Secret (Spec_AzureBlob sp)
  else None.

Definition sample_TargetBucket_of (o : NamespaceStore) : string :=
  let sp := NamespaceStore_Spec o in
  if Spec_Type sp =s? nbv1.NSStoreTypeAWSS3
  then default EmptyString (option_map AWSS3_TargetBucket (Spec_AWSS3 sp))
  else if Spec_Type sp =s? nbv1.NSStoreTypeS3Compatible
  then default EmptyString (option_map S3Compatible_TargetBucket (Spec_S3Compatible sp))
  else if Spec_Type sp =s? nbv1.NSStoreTypeIBMCos
  then default EmptyString (option_map IBMCos_TargetBucket (Spec_IBMCos sp))
  else if Spec_Type sp =s? nbv1.NSStoreTypeAzureBlob
  then default EmptyString (option_map AzureBlob_TargetBlobContainer (Spec_AzureBlob sp))
  else EmptyString.

Definition empty_Meta : ObjectMeta :=
  mkObjectMeta EmptyString EmptyString EmptyString None [] 0 None.

Definition empty_Spec : NamespaceStoreSpec :=
  mkNamespaceStoreSpec EmptyString None None None None None.

Definition empty_Status : NamespaceStoreStatus :=
  mkNamespaceStoreStatus EmptyString [] EmptyString.

#[local] Instance sample_lib : GoLib := {|
  fmt_Sprintf := sample_Sprintf;
  url_String := sample_url_String;
  url_Parse := sample_url_Parse;
  regexp_MatchString := sample_MatchString;
  utf8_runes := sample_runes;
  unicode_IsGraphic := fun c => (32 <? c) && (c <? 127);
  unicode_IsSpace := fun c => (c =? 32) || ((9 <=? c) && (c <=? 13));
  RPCError_Error := RPCError_Message;
  GetNamespaceStoreSecret := sample_Secret_of;
  GetNamespaceStoreTargetBucket := sample_TargetBucket_of;
  options_Namespace := "noobaa";
  options_SystemName := "noobaa";
  bundle_namespacestore_cr := mkNamespaceStore empty_Meta empty_Spec empty_Status;
  bundle_noobaa_cr := mkNooBaa empty_Meta;
  bundle_secret_empty := mkSecret empty_Meta ∅ ∅
|}.

(** A world in which every call succeeds: the cluster holds [record] for
    the namespace store and has the parent system and the secret it is asked
    for, the remote system is [systemInfo], and the connection check answers
    [status]. *)
Definition with_UID (uid : string) (m : ObjectMeta) : ObjectMeta :=
  mkObjectMeta (Name m) (Namespace m) uid (Labels m) (Finalizers m)
    (CreationTimestamp m) (DeletionTimestamp m).

Definition calm_world (now : Time) (record : NamespaceStore) (systemInfo : SystemInfo)
    (status : string) : World :=
  {| time_Now := now;
     klient_Get_NamespaceStore := fun _ _ => inl record;
     klient_Get_NooBaa := fun _ o => inl (mkNooBaa (with_UID "uid-system" (NooBaa_Meta o)));
     klient_Get_Secret := fun _ o =>
       inl (mkSecret (with_UID "uid-secret" (Secret_Meta o)) (Secret_StringData o)
              (<[ "AWS_ACCESS_KEY_ID" := "AKIAEXAMPLE" ]>
                 (<[ "AWS_SECRET_ACCESS_KEY" := "secret" ]> (Secret_Data o))));
     klient_Update := fun _ _ => None;
     Client_Status_Update := fun _ _ => None;
     system_Connect := fun _ _ => None;
     nb_ReadSystemAPI := fun _ _ => inl systemInfo;
     nb_UpdateAccountS3Access := fun _ _ => None;
     nb_DeleteNamespaceResourceAPI := fun _ _ => None;
     nb_DeleteExternalConnectionAPI := fun _ _ => None;
     nb_CheckExternalConnectionAPI := fun _ _ =>
       (mkCheckExternalConnectionReply status EmptyString EmptyString, None);
     nb_AddExternalConnectionAPI := fun _ _ => None;
     nb_CreateNamespaceResourceAPI := fun _ _ => None |}.

(** A record of the cluster: a store of type [type] named store-1, created
    at the instant 0, with the blocks [spec] and the status [status]. *)
Definition sample_Meta (finalizers : list string) (deletion : option Time) : ObjectMeta :=
  mkObjectMeta "store-1" "noobaa" "uid-store" (Some {[ "app" := "noobaa" ]}) finalizers 0
    deletion.

Definition aws_Spec : NamespaceStoreSpec :=
  mkNamespaceStoreSpec nbv1.NSStoreTypeAWSS3
    (Some (mkAWSS3Spec "bucket" EmptyString (mkSecretReference "creds" EmptyString) false))
    None None None None.

Definition nsfs_Spec : NamespaceStoreSpec :=
  mkNamespaceStoreSpec nbv1.NSStoreTypeNSFS None None None None
    (Some (mkNSFSSpec "GPFS" "/mnt/fs")).

Definition sample_record (spec : NamespaceStoreSpec) (status : NamespaceStoreStatus)
  : NamespaceStore :=
  mkNamespaceStore (sample_Meta [nbv1.Finalizer] None) spec status.

Definition empty_SystemInfo : SystemInfo := mkSystemInfo [] [] [].

(** The connections of the remote system in the order [ReadSystemInfo]
    scans them: account after account, and within an account in the order
    of its list. *)
Definition all_connections (systemInfo : SystemInfo) : list ExternalConnectionInfo :=
  concat (map AccountInfo_Connections (SystemInfo_Accounts systemInfo)).

(** A record is well formed when the block of its type is there: the
    invariant of the spec that the code relies on when it reads through the
    block of the declared type. *)
Definition present {A} (o : option A) : bool :=
  match o with Some _ => true | None => false end.

Definition blocks_present (spec : NamespaceStoreSpec) : bool :=
  if Spec_Type spec =s? nbv1.NSStoreTypeNSFS then present (Spec_NSFS spec)
  else if Spec_Type spec =s? nbv1.NSStoreTypeAWSS3 then present (Spec_AWSS3 spec)
  else if Spec_Type spec =s? nbv1.NSStoreTypeS3Compatible then present (Spec_S3Compatible spec)
  else if Spec_Type spec =s? nbv1.NSStoreTypeIBMCos then present (Spec_IBMCos spec)
  else true.

(** A cluster that answers with the errors the helpers of [util] know (so
    that [util.Panic] is not reached) and with well-formed records. *)
Definition polite (w : World) : Prop :=
  (forall h o e, klient_Get_NamespaceStore w h o = inr e -> kube_classified e = true) /\
  (forall h o o', klient_Get_NamespaceStore w h o = inl o' ->
                  blocks_present (NamespaceStore_Spec o') = true) /\
  (forall h o e, klient_Get_NooBaa w h o = inr e -> kube_classified e = true) /\
  (forall h o e, klient_Get_Secret w h o = inr e -> kube_classified e = true) /\
  (forall h o e, klient_Update w h o = Some e -> kube_classified e = true).

(** The state an outcome ends in. *)
Definition final {A} (o : Outcome A) : State :=
  match o with
  | Returned _ s => s
  | Panicked s => s
  end.

(** Kinds of calls in the log. *)
Definition is_KubeUpdate (a : Action) : bool :=
  match a with KubeUpdate_NamespaceStore _ _ => true | _ => false end.

Definition is_DeleteExternalConnectionAPI (a : Action) : bool :=
  match a with DeleteExternalConnectionAPI _ _ => true | _ => false end.

Definition is_connection_call (a : Action) : bool :=
  match a with
  | CheckExternalConnectionAPI _ _ | AddExternalConnectionAPI _ _ => true
  | _ => false
  end.

(** The delete call of the namespace resource refused with the code
    IN_USE, and the same call answered without error. *)
Definition resource_delete_in_use (a : Action) : bool :=
  match a with
  | DeleteNamespaceResourceAPI _ (Some (RPCErr rpcErr)) => RPCError_RPCCode rpcErr =s? "IN_USE"
  | _ => false
  end.

Definition resource_delete_ok (a : Action) : bool :=
  match a with DeleteNamespaceResourceAPI _ None => true | _ => false end.

(** The delete call of the external connection failed, the code IN_USE
    apart, which the deletion path lets pass with a warning. *)
Definition connection_delete_failed (a : Action) : bool :=
  match a with
  | DeleteExternalConnectionAPI _ (Some (RPCErr rpcErr)) =>
      negb (RPCError_RPCCode rpcErr =s? "IN_USE")
  | DeleteExternalConnectionAPI _ (Some _) => true
  | _ => false
  end.

(** The account update of the deletion path, answered without error. *)
Definition reset_call (internalPool : string) (account : AccountInfo) : Action :=
  UpdateAccountS3Access (reset_default_resource account internalPool) None.

(** The internal pool of a system, in words that do not go through
    [internalPoolName]: [pool] is the first pool of resource type INTERNAL in
    the list of the system. *)
Definition first_internal_pool (pools : list PoolInfo) (pool : PoolInfo) : Prop :=
  exists before after,
    pools = (before ++ pool :: after)%list /\
    PoolInfo_ResourceType pool = "INTERNAL" /\
    Forall (fun p => PoolInfo_ResourceType p <> "INTERNAL") before.

(** The system lists no pool of resource type INTERNAL. *)
Definition no_internal_pool (pools : list PoolInfo) : Prop :=
  Forall (fun p => PoolInfo_ResourceType p <> "INTERNAL") pools.

(** The call that resets the default resource of [account] to [target],
    field by field and without [reset_default_resource]: the email and the S3
    access of the account as they are, the default resource [target], the
    full-permission flag of the account as it is and its permission list, the
    empty list standing for a nil one. [answer] is the answer of the
    system. *)
Definition reset_to (target : string) (account : AccountInfo) (answer : option error) : Action :=
  UpdateAccountS3Access
    (mkUpdateAccountS3AccessParams
       (AccountInfo_Email account)
       (AccountInfo_HasS3Access account)
       (Some target)
       (Some (mkAccountAllowedBuckets
                (FullPermission (AccountInfo_AllowedBuckets account))
                (Some (default [] (PermissionList (AccountInfo_AllowedBuckets account)))))))
    answer.

(** The types of the events of a log, in the order they were sent. *)
Definition event_types (log : list Action) : list string :=
  flat_map (fun a => match a with Eventf t _ _ => [t] | _ => [] end) log.

(** ** Sample runs *)

(** A world as [calm_world] in which the parent system is not found and the
    status update fails. *)
Definition orphan_world (now : Time) (record : NamespaceStore) : World :=
  let calm := calm_world now record empty_SystemInfo nb.ExternalConnectionSuccess in
  {| time_Now := now;
     klient_Get_NamespaceStore := klient_Get_NamespaceStore calm;
     klient_Get_NooBaa := fun _ _ => inr KubeNotFound;
     klient_Get_Secret := klient_Get_Secret calm;
     klient_Update := klient_Update calm;
     Client_Status_Update := fun _ _ => Some (errorString "the object has been modified");
     system_Connect := system_Connect calm;
     nb_ReadSystemAPI := nb_ReadSystemAPI calm;
     nb_UpdateAccountS3Access := nb_UpdateAccountS3Access calm;
     nb_DeleteNamespaceResourceAPI := nb_DeleteNamespaceResourceAPI calm;
     nb_DeleteExternalConnectionAPI := nb_DeleteExternalConnectionAPI calm;
     nb_CheckExternalConnectionAPI := nb_CheckExternalConnectionAPI calm;
     nb_AddExternalConnectionAPI := nb_AddExternalConnectionAPI calm;
     nb_CreateNamespaceResourceAPI := nb_CreateNamespaceResourceAPI calm |}.

(** A world as [calm_world] in which the namespace resource still has
    buckets attached. *)
Definition in_use_world (now : Time) (record : NamespaceStore) (systemInfo : SystemInfo) : World :=
  let calm := calm_world now record systemInfo nb.ExternalConnectionSuccess in
  {| time_Now := now;
     klient_Get_NamespaceStore := klient_Get_NamespaceStore calm;
     klient_Get_NooBaa := klient_Get_NooBaa calm;
     klient_Get_Secret := klient_Get_Secret calm;
     klient_Update := klient_Update calm;
     Client_Status_Update := Client_Status_Update calm;
     system_Connect := system_Connect calm;
     nb_ReadSystemAPI := nb_ReadSystemAPI calm;
     nb_UpdateAccountS3Access := nb_UpdateAccountS3Access calm;
     nb_DeleteNamespaceResourceAPI := fun _ _ =>
       Some (RPCErr (mkRPCError "IN_USE" "namespace resource has buckets"));
     nb_DeleteExternalConnectionAPI := nb_DeleteExternalConnectionAPI calm;
     nb_CheckExternalConnectionAPI := nb_CheckExternalConnectionAPI calm;
     nb_AddExternalConnectionAPI := nb_AddExternalConnectionAPI calm;
     nb_CreateNamespaceResourceAPI := nb_CreateNamespaceResourceAPI calm |}.

(** The reconciler of store-1 as [NewReconciler] makes it, and the state a
    pass starts from. *)
Definition fresh (recorder : bool) : State :=
  mkState (NewReconciler "noobaa" "store-1" recorder) [].

(** The reconciler once [Reconcile] has loaded the record [record], the
    parent system when [system] is set, and a secret named creds that holds
    [stringData] and resolves when [resolved] is set. *)
Definition loaded (record : NamespaceStore) (system resolved : bool)
    (stringData : gmap string string) : Reconciler :=
  set_r_Secret
    (mkSecret (with_UID (if resolved then "uid-secret" else EmptyString)
                 (set_Name "creds" (set_Namespace "noobaa" empty_Meta)))
       stringData ∅)
    (set_r_NooBaa
       (mkNooBaa (with_UID (if system then "uid-system" else EmptyString)
                    (set_Name "noobaa" (set_Namespace "noobaa" empty_Meta))))
       (set_r_NamespaceStore record (NewReconciler "noobaa" "store-1" true))).

Definition aws_keys : gmap string string :=
  <[ "AWS_ACCESS_KEY_ID" := "AKIAEXAMPLE" ]> (<[ "AWS_SECRET_ACCESS_KEY" := "secret" ]> ∅).

(** The descriptor of store-1 for [aws_Spec] and [aws_keys]. *)
Definition aws_conn : AddExternalConnectionParams :=
  mkAddExternalConnectionParams "store-1" nb.EndpointTypeAws "https://s3.amazonaws.com"
    "AKIAEXAMPLE" "secret" EmptyString.

(** A remote system with two accounts: the connections conn-a and conn-b
    are to the endpoint and identity of [aws_conn], conn-c is to another
    identity. *)
Definition conn_a : ExternalConnectionInfo :=
  mkExternalConnectionInfo "conn-a" nb.EndpointTypeAws "https://s3.amazonaws.com" "AKIAEXAMPLE".

Definition conn_b : ExternalConnectionInfo :=
  mkExternalConnectionInfo "conn-b" nb.EndpointTypeAws "https://s3.amazonaws.com" "AKIAEXAMPLE".

Definition conn_c : ExternalConnectionInfo :=
  mkExternalConnectionInfo "conn-c" nb.EndpointTypeAws "https://s3.amazonaws.com" "AKIAOTHER".

Definition account (email defaultResource : string) (connections : list ExternalConnectionInfo)
  : AccountInfo :=
  mkAccountInfo email true defaultResource (mkAccountAllowedBuckets true None) connections.

Definition shared_SystemInfo : SystemInfo :=
  mkSystemInfo
    [account "admin@noobaa.io" "store-1" [conn_a];
     account "dev@noobaa.io" "pool-x" [conn_b; conn_c];
     account "ops@noobaa.io" "store-1" []]
    [mkPoolInfo "pool-x" "HOSTS"; mkPoolInfo "system-internal-pool" "INTERNAL"]
    [mkNamespaceResourceInfo "store-1" nb.EndpointTypeAws "https://s3.amazonaws.com"
       EmptyString].

(** store-1 marked for deletion at the instant 500. *)
Definition deleted_record : NamespaceStore :=
  mkNamespaceStore (sample_Meta [nbv1.Finalizer] (Some 500)) aws_Spec empty_Status.

(** The reconciler in the deletion path, after [ReadSystemInfo] found the
    namespace resource of store-1 in [shared_SystemInfo]. *)
Definition deleting : Reconciler :=
  set_r_NamespaceResourceinfo
    (Some (mkNamespaceResourceInfo "store-1" nb.EndpointTypeAws "https://s3.amazonaws.com"
             EmptyString))
    (set_r_SystemInfo (Some shared_SystemInfo)
       (set_r_NBClient true
          (loaded (sample_record aws_Spec empty_Status) true true aws_keys))).

(** The accounts and the namespace resource of [shared_SystemInfo] in a
    system that lists no pool of resource type INTERNAL. *)
Definition poolless_SystemInfo : SystemInfo :=
  mkSystemInfo
    [account "admin@noobaa.io" "store-1" [conn_a];
     account "dev@noobaa.io" "pool-x" [conn_b; conn_c];
     account "ops@noobaa.io" "store-1" []]
    [mkPoolInfo "pool-x" "HOSTS"]
    [mkNamespaceResourceInfo "store-1" nb.EndpointTypeAws "https://s3.amazonaws.com"
       EmptyString].

(** The reconciler in the deletion path of store-1 on [poolless_SystemInfo]. *)
Definition deleting_poolless : Reconciler :=
  set_r_SystemInfo (Some poolless_SystemInfo) deleting.

(** ** The vocabulary of the properties *)

Section Vocabulary.

Context `{L : GoLib}.

(** What is read back of a condition just set. *)
Definition carries (c : Condition) (type status reason message : string) : Prop :=
  Condition_Type c = type /\ Condition_Status c = status /\
  Condition_Reason c = reason /\ Condition_Message c = message.

(** What [ReconcileDeletion_resource] returns for each answer to the
    delete call. *)
Definition resource_delete_error (name : string) (answer : option error) : option error :=
  match answer with
  | Some (RPCErr rpcErr) =>
      if RPCError_RPCCode rpcErr =s? "IN_USE" then
        Some (fmt_Errorf
          "DeleteNamespaceResourceAPI cannot complete because namespace store %q has buckets attached"
          [name])
      else answer
  | _ => answer
  end.

(** What [ReconcileDeletion_connection] returns for each answer to the
    delete call. *)
Definition connection_delete_error (answer : option error) : option error :=
  match answer with
  | Some (RPCErr rpcErr) =>
      if negb (RPCError_RPCCode rpcErr =s? "IN_USE") then answer else None
  | _ => answer
  end.

(** [keeps f m]: whatever [m] does, the part [f] of the reconciler is the
    same afterwards. *)
Definition keeps {A B} (f : Reconciler -> B) (m : M A) : Prop :=
  forall s, f (st_r (final (m s))) = f (st_r s).

(** [wp m Q s]: from [s], [m] returns, with a result and a state that
    satisfy [Q]. *)
Definition wp {A} (m : M A) (Q : A -> State -> Prop) (s : State) : Prop :=
  match m s with
  | Returned a s' => Q a s'
  | Panicked _ => False
  end.

(** What [MakeExternalConnectionParams] leaves in place. *)
Definition settled (s s' : State) : Prop :=
  blocks_present (ns_Spec (st_r s')) = true /\
  r_NBClient (st_r s') = r_NBClient (st_r s) /\
  r_SystemInfo (st_r s') = r_SystemInfo (st_r s).

(** The reconciler after a successful [ReadSystemInfo]: a well-formed
    record, a client and the system information. *)
Definition connected (s : State) : Prop :=
  blocks_present (ns_Spec (st_r s)) = true /\
  r_NBClient (st_r s) = true /\
  r_SystemInfo (st_r s) <> None.

(** What the reading of the system leaves in place once it has set them:
    the client, the system information, and the metadata of the record. *)
Definition bearings (r : Reconciler) : bool * option SystemInfo * ObjectMeta :=
  (r_NBClient r, r_SystemInfo r, NamespaceStore_Meta (r_NamespaceStore r)).

(** What [Reconcile] hands back to the controller: no error, and no
    immediate requeue, so that a retry is asked through requeue-after
    alone. *)
Definition absorbed (result : Result * option error) : Prop :=
  snd result = None /\ Requeue (fst result) = false.

End Vocabulary.

(** ** More of package util, and package hac

    The vocabulary of the further properties of the reconciler, and the
    embedding of more of [util] (environment variables, the generic helpers
    of the cluster client, the vault utilities) and of the high availability
    controller of [pkg/hac/hac.go], which calls [util.KubeList]. *)

(** The object once [EnsureCommonMetaFields] has set its label. *)
Definition relabelled (object : ObjectMeta) : ObjectMeta :=
  set_Labels (Some (match Labels object with
                    | None => {[ "app" := "noobaa" ]}
                    | Some labels => <[ "app" := "noobaa" ]> labels
                    end)) object.


(** A list of conditions holds a condition of the type that reads the
    status, reason and message. *)
Definition reads (conditions : list Condition) (type status reason message : string) : Prop :=
  exists c, FindStatusCondition conditions type = Some c /\
            carries c type status reason message.

(** The three functions of [util] that write the conditions. *)
Definition condition_setters
  : list (Time -> list Condition -> string -> string -> list Condition) :=
  [SetAvailableCondition; SetProgressingCondition; SetErrorCondition].

(** The four types of condition they write. *)
Definition condition_types : list string :=
  [conditionsv1.ConditionAvailable; conditionsv1.ConditionProgressing;
   conditionsv1.ConditionDegraded; conditionsv1.ConditionUpgradeable].

(** The first string of a list that is not empty, empty when there is
    none. *)
Fixpoint first_nonempty (values : list string) : string :=
  match values with
  | [] => EmptyString
  | v :: rest => if v =s? EmptyString then first_nonempty rest else v
  end.

(** [ends m Q P s]: from [s], [m] returns with a result and a state that
    satisfy [Q], or it panics in a state that satisfies [P]. *)
Definition ends {A} (m : M A) (Q : A -> State -> Prop) (P : State -> Prop) (s : State) : Prop :=
  match m s with
  | Returned a s' => Q a s'
  | Panicked s' => P s'
  end.

(** The store types that have an external connection. *)
Definition connection_types : list string :=
  [nbv1.NSStoreTypeAWSS3; nbv1.NSStoreTypeS3Compatible; nbv1.NSStoreTypeIBMCos;
   nbv1.NSStoreTypeAzureBlob].

(** More kinds of calls in the log. *)
Definition is_AddExternalConnectionAPI (a : Action) : bool :=
  match a with AddExternalConnectionAPI _ _ => true | _ => false end.

(** The modes of a store that reject it. *)
Definition rejecting_modes : list string := ["IO_ERRORS"; "STORAGE_NOT_EXIST"; "AUTH_FAILED"].

(** ** Package util: the environment variables of a container *)

(** [corev1.EnvVar]; [ValueFrom], a pointer to the source of the value, is
    kept by its text. *)
Record EnvVar := mkEnvVar {
  EnvVar_Name : string;
  EnvVar_Value : string;
  EnvVar_ValueFrom : option string
}.

(** [GetEnvVariable] is looking for the variable called [name] in [env]
    and returns a pointer to it: the index of the variable in [env], nil
    being [None]. *)
Fixpoint GetEnvVariable (env : list EnvVar) (name : string) : option nat :=
  match env with
  | [] => None
  | e :: rest =>
      if EnvVar_Name e =s? name then Some 0%nat
      else option_map S (GetEnvVariable rest name)
  end.

(** The loop of [ReflectEnvVariable] that removes the first variable
    called [name]. *)
Fixpoint ReflectEnvVariable_remove (env : list EnvVar) (name : string) : list EnvVar :=
  match env with
  | [] => []
  | envVar :: rest =>
      if EnvVar_Name envVar =s? name then rest
      else envVar :: ReflectEnvVariable_remove rest name
  end.

(** [ReflectEnvVariable] will add, update or remove an env variable based
    on the existence and value of an env variable with the same name on the
    container running this function, which [os_LookupEnv] reads. *)
Definition ReflectEnvVariable (os_LookupEnv : string -> option string)
    (env : list EnvVar) (name : string) : list EnvVar :=
  match os_LookupEnv name with
  | Some val =>
      match GetEnvVariable env name with
      | Some i =>
          alter (fun envVar => mkEnvVar (EnvVar_Name envVar) val (EnvVar_ValueFrom envVar)) i env
      | None => (env ++ [mkEnvVar name val None])%list
      end
  | None => ReflectEnvVariable_remove env name
  end.

(** [MergeEnvArrays] takes two arrays of variables and merges them into
    the first. *)
Definition MergeEnvArrays (envA envB : list EnvVar) : list EnvVar :=
  let existingEnvs : gmap string bool :=
    fold_left (fun m item => <[ EnvVar_Name item := true ]> m) envA ∅ in
  fold_left (fun envA item =>
               if negb (default false (existingEnvs !! EnvVar_Name item))
               then (envA ++ [item])%list else envA) envB envA.

(** The variable [GetEnvVariable] points to. *)
Definition EnvVar_at (env : list EnvVar) (name : string) : option EnvVar :=
  match GetEnvVariable env name with
  | Some i => env !! i
  | None => None
  end.

(** ** Package util: the helpers of the cluster client, for any kind of object

    The helpers below are not methods of the reconciler: they run over the
    log of the calls made to the cluster alone. A run returns a result and
    the log, or it stops in [util.Panic]. *)

Inductive Ran (C A : Type) :=
| Gave (a : A) (log : list C)
| Stopped (log : list C).
Arguments Gave {C A} a log.
Arguments Stopped {C A} log.

Definition Run (C A : Type) : Type := list C -> Ran C A.

Definition give {C A} (a : A) : Run C A := fun log => Gave a log.

Definition andThen {C A B} (m : Run C A) (k : A -> Run C B) : Run C B :=
  fun log => match m log with
             | Gave a log' => k a log'
             | Stopped log' => Stopped log'
             end.

Definition stop {C A} : Run C A := fun log => Stopped log.

Definition ask {C Req Resp} (oracle : list C -> Req -> Resp) (act : Req -> Resp -> C)
    (req : Req) : Run C Resp :=
  fun log => let resp := oracle log req in Gave resp (log ++ [act req resp])%list.

Notation "x <~ m ; k" := (andThen m (fun x => k))
  (at level 20, m at level 100, k at level 200, only parsing).

(** The log a run leaves. *)
Definition log_of {C A} (o : Ran C A) : list C :=
  match o with
  | Gave _ log => log
  | Stopped log => log
  end.

(** The calls of the helpers to the client, for objects of type [Obj]. *)
Inductive KlientCall (Obj : Type) :=
| klient_Get_call (obj : Obj) (res : Obj + KubeError)
| klient_Update_call (obj : Obj) (res : option KubeError)
| klient_Create_call (obj : Obj) (res : option KubeError).
Arguments klient_Get_call {Obj} obj res.
Arguments klient_Update_call {Obj} obj res.
Arguments klient_Create_call {Obj} obj res.

Record Klient (Obj : Type) := mkKlient {
  Klient_Get : list (KlientCall Obj) -> Obj -> Obj + KubeError;
  Klient_Update : list (KlientCall Obj) -> Obj -> option KubeError;
  Klient_Create : list (KlientCall Obj) -> Obj -> option KubeError
}.
Arguments Klient_Get {Obj} k log obj.
Arguments Klient_Update {Obj} k log obj.
Arguments Klient_Create {Obj} k log obj.

(** The predicates on the errors of the cluster API. *)
Definition IsNoMatchError (e : KubeError) : bool :=
  match e with KubeNoMatch => true | _ => false end.

Definition IsNotRegisteredError (e : KubeError) : bool :=
  match e with KubeNotRegistered => true | _ => false end.

Definition IsNotFound (e : KubeError) : bool :=
  match e with KubeNotFound => true | _ => false end.

Definition IsConflict (e : KubeError) : bool :=
  match e with KubeConflict => true | _ => false end.

(** [KubeApply] will check if the object exists and will create/update
    accordingly and report the object status. The object is read into a
    clone, so the update and the create send [obj] as it was given. *)
Definition KubeApply {Obj} (klient : Klient Obj) (obj : Obj) : Run (KlientCall Obj) bool :=
  got <~ ask (Klient_Get klient) klient_Get_call obj;
  err <~ match got with
         | inl _ => ask (Klient_Update klient) klient_Update_call obj
         | inr e => give (Some e)
         end;
  match err with
  | None => give false
  | Some e =>
      if IsNoMatchError e || IsNotRegisteredError e then give false
      else
        err <~ (if IsNotFound e
                then ask (Klient_Create klient) klient_Create_call obj
                else give (Some e));
        match err with
        | None => give true
        | Some e => if IsConflict e then give false else stop
        end
  end.

(** Kinds of calls to the client: an object created, a create call, an
    update call, a call answered not-found, and the object a call is
    about. *)
Definition is_created {Obj} (a : KlientCall Obj) : bool :=
  match a with klient_Create_call _ None => true | _ => false end.

Definition is_Create_call {Obj} (a : KlientCall Obj) : bool :=
  match a with klient_Create_call _ _ => true | _ => false end.

Definition is_Update_call {Obj} (a : KlientCall Obj) : bool :=
  match a with klient_Update_call _ _ => true | _ => false end.

Definition is_Get_found {Obj} (a : KlientCall Obj) : bool :=
  match a with klient_Get_call _ (inl _) => true | _ => false end.

Definition answered_NotFound {Obj} (a : KlientCall Obj) : bool :=
  match a with
  | klient_Get_call _ (inr KubeNotFound)
  | klient_Update_call _ (Some KubeNotFound) => true
  | _ => false
  end.

Definition object_of {Obj} (a : KlientCall Obj) : Obj :=
  match a with
  | klient_Get_call obj _ | klient_Update_call obj _ | klient_Create_call obj _ => obj
  end.

(** ** Package hac: the high availability controller *)

(** A pod, by its metadata and the node it runs on; the options of a list
    call and the calls of the controller to the cluster: the list of the
    pods through [util.KubeList] and the delete of a pod with its grace
    period. *)
Record Pod := mkPod {
  Pod_Meta : ObjectMeta;
  Pod_NodeName : string
}.

Record ListOptions := mkListOptions {
  MatchingLabels : gmap string string;
  InNamespace : string;
  MatchingFields : gmap string string
}.

Inductive HacCall :=
| Client_List (options : ListOptions) (res : list Pod + KubeError)
| Client_Delete (pod : Pod) (GracePeriodSeconds : option Z) (res : option error).

Record Cluster := mkCluster {
  Cluster_List : list HacCall -> ListOptions -> list Pod + KubeError;
  Cluster_Delete : list HacCall -> Pod * option Z -> option error
}.

(** [KubeList] returns a list of objects: whether the list was read, and
    the list [objects] it was given to fill, left as it was when it was
    not. *)
Definition KubeList (c : Cluster) (objects : list Pod) (options : ListOptions)
  : Run HacCall (bool * list Pod) :=
  res <~ ask (Cluster_List c) Client_List options;
  match res with
  | inl items => give (true, items)
  | inr err =>
      if IsNoMatchError err || IsNotRegisteredError err then give (false, objects)
      else if IsNotFound err then give (false, objects)
      else if IsConflict err then give (false, objects)
      else stop
  end.

(** [HAC] is a high availability controller that watches the nodes
    Ready -> NotReady transitions and deletes noobaa pods on the node that
    became unavailable. *)
Record HAC := mkHAC {
  HAC_Request_Namespace : string;
  HAC_Request_Name : string;
  HAC_Node_Name : string
}.

(** [NewHAC] initializes a high availability controller reconciler. *)
Definition NewHAC (req_Namespace req_Name : string) : HAC :=
  mkHAC req_Namespace req_Name req_Name.

Section Hac.

Context `{L : GoLib} (c : Cluster).

(** [errors.Errorf]: an error known by its text. *)
Definition errors_Errorf (format : string) (args : list string) : error :=
  errorString (fmt_Sprintf format args).

(** The loop of [HAC.Reconcile] that deletes the found pods. *)
Fixpoint HAC_Reconcile_delete (res : Result) (gracePeriod : Z) (pods : list Pod)
  : Run HacCall (Result * option error) :=
  match pods with
  | [] => give (res, None)
  | pod :: rest =>
      err <~ ask (Cluster_Delete c) (fun req => Client_Delete (fst req) (snd req))
               (pod, Some gracePeriod);
      match err with
      | Some e => give (res, Some e)
      | None => HAC_Reconcile_delete res gracePeriod rest
      end
  end.

(** [HAC.Reconcile] is called when a node in the cluster transitions from
    Ready to NotReady state: it goes over the noobaa pods running on this
    node and forces their deletion. *)
Definition HAC_Reconcile (hac : HAC) : Run HacCall (Result * option error) :=
  let res := mkResult false 0 in
  let labelOption : gmap string string := {[ "app" := "noobaa" ]} in
  let namespaceOption := options_Namespace in
  let nodeOption : gmap string string := {[ "spec.nodeName" := HAC_Node_Name hac ]} in
  listed <~ KubeList c [] (mkListOptions labelOption namespaceOption nodeOption);
  if negb (fst listed) then
    give (res, Some (errors_Errorf "failed to list noobaa pods on the node %v in namespace %v"
                       [HAC_Node_Name hac; options_Namespace]))
  else
    let gracePeriod := 0 in
    HAC_Reconcile_delete res gracePeriod (snd listed).

End Hac.

(** The list call of [HAC.Reconcile] for the node of [hac], and the delete
    call of a pod answered without error. *)
Definition HAC_list_options `{L : GoLib} (hac : HAC) : ListOptions :=
  mkListOptions {[ "app" := "noobaa" ]} options_Namespace
    {[ "spec.nodeName" := HAC_Node_Name hac ]}.

Definition deleted_call (pod : Pod) : HacCall := Client_Delete pod (Some 0) None.

(** ** Package util: the vault utilities *)

Definition rootSecretPath : string := "NOOBAA_ROOT_SECRET_PATH".
Definition vaultBackendPath : string := "VAULT_BACKEND_PATH".
Definition defaultVaultBackendPath : string := "secret/".

(** [strings.HasSuffix]. *)
Definition strings_HasSuffix (s suffix : string) : bool :=
  (String.length suffix <=? String.length s)%nat
  && (String.substring (String.length s - String.length suffix) (String.length suffix) s
      =s? suffix).

(** A value of type [interface{}] in the data of a secret of the vault:
    nil, a string, a [map[string]interface{}], or a value of another
    type. *)
#[warnings="-register-all"] Inductive any :=
| any_nil
| any_string (s : string)
| any_map (m : gmap string any)
| any_other (text : string).

(** [vaultApi.MountOutput], [vaultApi.Secret] and
    [nbv1.KeyManagementServiceSpec], by the fields the utilities read. *)
Record MountOutput := mkMountOutput {
  MountOutput_Options : gmap string string
}.

Record VaultSecret := mkVaultSecret {
  VaultSecret_Data : gmap string any
}.

Record KeyManagementServiceSpec := mkKeyManagementServiceSpec {
  KMS_ConnectionDetails : gmap string string;
  KMS_TokenSecretName : string
}.

(** The calls of the utilities to the client of the vault. *)
Inductive VaultCall :=
| Sys_ListMounts (res : gmap string MountOutput + error)
| Logical_Write (path : string) (data : gmap string any) (res : option error)
| Logical_Read (path : string) (res : option VaultSecret + error)
| Logical_Delete (path : string) (res : option error).

Record VaultClient := mkVaultClient {
  Vault_ListMounts : list VaultCall -> unit -> gmap string MountOutput + error;
  Vault_Write : list VaultCall -> string * gmap string any -> option error;
  Vault_Read : list VaultCall -> string -> option VaultSecret + error;
  Vault_Delete : list VaultCall -> string -> option error
}.

Section Vault.

Context `{L : GoLib} (client : VaultClient).

(** [isKV2]: whether the backend is a key-value store of version 2. *)
Definition isKV2 (backend : string) : Run VaultCall (bool * option error) :=
  let backend := if backend =s? EmptyString then defaultVaultBackendPath else backend in
  let backend := if negb (strings_HasSuffix backend "/") then backend ++ "/" else backend in
  res <~ ask (Vault_ListMounts client) (fun _ => Sys_ListMounts) tt;
  match res with
  | inr err => give (false, Some err)
  | inl mounts =>
      match mounts !! backend with
      | None => give (false, Some (fmt_Errorf "can not find backend path %v in vault" [backend]))
      | Some kvBackend =>
          if (0 <? size (MountOutput_Options kvBackend))%nat
             && (default EmptyString (MountOutput_Options kvBackend !! "version") =s? "2")
          then give (true, None)
          else give (false, None)
      end
  end.

(** [BuildExternalSecretPath] builds a string that specifies the root key
    secret path. *)
Definition BuildExternalSecretPath (kms : KeyManagementServiceSpec) (uid : string)
  : Run VaultCall (string * option error) :=
  let secretPath := EmptyString in
  let backendPath := default EmptyString (KMS_ConnectionDetails kms !! vaultBackendPath) in
  let secretPath :=
    if negb (backendPath =s? EmptyString) then
      let secretPath := secretPath ++ backendPath in
      if negb (strings_HasSuffix backendPath "/") then secretPath ++ "/" else secretPath
    else secretPath ++ defaultVaultBackendPath in
  res <~ isKV2 backendPath;
  match snd res with
  | Some err => give (EmptyString, Some err)
  | None =>
      let secretPath := if fst res then secretPath ++ "data/" else secretPath in
      let secretPath := secretPath ++ rootSecretPath in
      let secretPath := secretPath ++ ("/rootkeyb64-" ++ uid) in
      give (secretPath, None)
  end.

(** [PutSecret] writes the secret to the secrets store. *)
Definition PutSecret (secretName secretValue secretPath backendPath : string)
  : Run VaultCall (option error) :=
  let data : gmap string any := ∅ in
  res <~ isKV2 backendPath;
  match snd res with
  | Some err => give (Some err)
  | None =>
      let data :=
        if fst res
        then <[ "data" := any_map {[ secretName := any_string secretValue ]} ]> data
        else <[ secretName := any_string secretValue ]> data in
      err <~ ask (Vault_Write client) (fun req => Logical_Write (fst req) (snd req))
               (secretPath, data);
      match err with
      | Some e => give (Some e)
      | None => give None
      end
  end.

(** [GetSecret] reads the secret from the secrets store. *)
Definition GetSecret (secretName secretPath backendPath : string)
  : Run VaultCall (string * option error) :=
  res <~ ask (Vault_Read client) Logical_Read secretPath;
  match res with
  | inr err => give (EmptyString, Some err)
  | inl None => give (EmptyString, None)
  | inl (Some secret) =>
      kv <~ isKV2 backendPath;
      match snd kv with
      | Some err => give (EmptyString, Some err)
      | None =>
          if fst kv then
            match VaultSecret_Data secret !! "data" with
            | Some (any_map rootKey) =>
                match rootKey !! secretName with
                | Some (any_string rootKeyStr) => give (rootKeyStr, None)
                | _ => give (EmptyString, None)
                end
            | _ => give (EmptyString, None)
            end
          else
            match VaultSecret_Data secret !! secretName with
            | Some (any_string rootKeyStr) => give (rootKeyStr, None)
            | _ => give (EmptyString, None)
            end
      end
  end.

(** [DeleteSecret] deletes the secret from the secrets store. *)
Definition DeleteSecret (secretPath : string) : Run VaultCall (option error) :=
  ask (Vault_Delete client) Logical_Delete secretPath.

End Vault.

(** [IsVaultKMS] returns true if kms provider is vault. *)
Definition IsVaultKMS (provider : string) : bool := provider =s? "vault".

(** The mount a backend path stands for: the default when the path is
    empty, and the path with one slash at its end otherwise. *)
Definition backend_mount (backend : string) : string :=
  let backend := if backend =s? EmptyString then defaultVaultBackendPath else backend in
  if strings_HasSuffix backend "/" then backend else backend ++ "/".

(** Whether a mount is a key-value store of version 2. *)
Definition mount_is_v2 (kvBackend : MountOutput) : bool :=
  default EmptyString (MountOutput_Options kvBackend !! "version") =s? "2".

(** ** More sample worlds *)

(** A world as [calm_world] in which the namespace store is not found. *)
Definition absent_world (now : Time) : World :=
  let calm := calm_world now (sample_record aws_Spec empty_Status) empty_SystemInfo
                nb.ExternalConnectionSuccess in
  {| time_Now := now;
     klient_Get_NamespaceStore := fun _ _ => inr KubeNotFound;
     klient_Get_NooBaa := klient_Get_NooBaa calm;
     klient_Get_Secret := klient_Get_Secret calm;
     klient_Update := klient_Update calm;
     Client_Status_Update := Client_Status_Update calm;
     system_Connect := system_Connect calm;
     nb_ReadSystemAPI := nb_ReadSystemAPI calm;
     nb_UpdateAccountS3Access := nb_UpdateAccountS3Access calm;
     nb_DeleteNamespaceResourceAPI := nb_DeleteNamespaceResourceAPI calm;
     nb_DeleteExternalConnectionAPI := nb_DeleteExternalConnectionAPI calm;
     nb_CheckExternalConnectionAPI := nb_CheckExternalConnectionAPI calm;
     nb_AddExternalConnectionAPI := nb_AddExternalConnectionAPI calm;
     nb_CreateNamespaceResourceAPI := nb_CreateNamespaceResourceAPI calm |}.

(** A world as [calm_world] that holds [record] and refuses every update
    of it with a conflict. *)
Definition conflict_world (now : Time) (record : NamespaceStore) : World :=
  let calm := calm_world now record empty_SystemInfo nb.ExternalConnectionSuccess in
  {| time_Now := now;
     klient_Get_NamespaceStore := klient_Get_NamespaceStore calm;
     klient_Get_NooBaa := klient_Get_NooBaa calm;
     klient_Get_Secret := klient_Get_Secret calm;
     klient_Update := fun _ _ => Some KubeConflict;
     Client_Status_Update := Client_Status_Update calm;
     system_Connect := system_Connect calm;
     nb_ReadSystemAPI := nb_ReadSystemAPI calm;
     nb_UpdateAccountS3Access := nb_UpdateAccountS3Access calm;
     nb_DeleteNamespaceResourceAPI := nb_DeleteNamespaceResourceAPI calm;
     nb_DeleteExternalConnectionAPI := nb_DeleteExternalConnectionAPI calm;
     nb_CheckExternalConnectionAPI := nb_CheckExternalConnectionAPI calm;
     nb_AddExternalConnectionAPI := nb_AddExternalConnectionAPI calm;
     nb_CreateNamespaceResourceAPI := nb_CreateNamespaceResourceAPI calm |}.

(** A world as [calm_world] in which no secret is found. *)
Definition no_secret_world (now : Time) (record : NamespaceStore) : World :=
  let calm := calm_world now record empty_SystemInfo nb.ExternalConnectionSuccess in
  {| time_Now := now;
     klient_Get_NamespaceStore := klient_Get_NamespaceStore calm;
     klient_Get_NooBaa := klient_Get_NooBaa calm;
     klient_Get_Secret := fun _ _ => inr KubeNotFound;
     klient_Update := klient_Update calm;
     Client_Status_Update := Client_Status_Update calm;
     system_Connect := system_Connect calm;
     nb_ReadSystemAPI := nb_ReadSystemAPI calm;
     nb_UpdateAccountS3Access := nb_UpdateAccountS3Access calm;
     nb_DeleteNamespaceResourceAPI := nb_DeleteNamespaceResourceAPI calm;
     nb_DeleteExternalConnectionAPI := nb_DeleteExternalConnectionAPI calm;
     nb_CheckExternalConnectionAPI := nb_CheckExternalConnectionAPI calm;
     nb_AddExternalConnectionAPI := nb_AddExternalConnectionAPI calm;
     nb_CreateNamespaceResourceAPI := nb_CreateNamespaceResourceAPI calm |}.

(** store-1 as the cluster holds it before the operator has seen it:
    without label and without finalizer. *)
Definition new_record : NamespaceStore :=
  mkNamespaceStore
    (mkObjectMeta "store-1" "noobaa" "uid-store" None [] 0 None) aws_Spec empty_Status.

(** store-1 marked for deletion and already in phase Deleting. *)
Definition deleting_record : NamespaceStore :=
  mkNamespaceStore (sample_Meta [nbv1.Finalizer; "other/finalizer"] (Some 500)) aws_Spec
    (mkNamespaceStoreStatus nbv1.NamespaceStorePhaseDeleting [] EmptyString).

(** A descriptor to an identity no connection of [shared_SystemInfo]
    has. *)
Definition new_conn : AddExternalConnectionParams :=
  mkAddExternalConnectionParams "store-1" nb.EndpointTypeAws "https://s3.amazonaws.com"
    "AKIANEW" "secret" EmptyString.

(** Two noobaa pods of a node, a cluster that lists them and deletes every
    pod but the second, and a cluster in which pods cannot be listed. *)
Definition pod_core : Pod :=
  mkPod (mkObjectMeta "noobaa-core-0" "noobaa" "uid-core" None [] 0 None) "node-1".

Definition pod_db : Pod :=
  mkPod (mkObjectMeta "noobaa-db-0" "noobaa" "uid-db" None [] 0 None) "node-1".

Definition pod_endpoint : Pod :=
  mkPod (mkObjectMeta "noobaa-endpoint-0" "noobaa" "uid-endpoint" None [] 0 None) "node-1".

Definition stuck_cluster : Cluster :=
  {| Cluster_List := fun _ _ => inl [pod_core; pod_db; pod_endpoint];
     Cluster_Delete := fun _ req =>
       if Name (Pod_Meta (fst req)) =s? "noobaa-db-0"
       then Some (errorString "pod is stuck") else None |}.

Definition blind_cluster : Cluster :=
  {| Cluster_List := fun _ _ => inr KubeNotFound;
     Cluster_Delete := fun _ _ => None |}.

(** A vault with one key-value mount of version 2 that keeps what is
    written: a read of a path answers with the data of the last write to
    it. *)
Fixpoint last_written (log : list VaultCall) (path : string) (found : option VaultSecret)
  : option VaultSecret :=
  match log with
  | [] => found
  | Logical_Write p data None :: rest =>
      last_written rest path (if p =s? path then Some (mkVaultSecret data) else found)
  | _ :: rest => last_written rest path found
  end.

Definition sample_vault : VaultClient :=
  {| Vault_ListMounts := fun _ _ =>
       inl {[ "secret/" := mkMountOutput {[ "version" := "2" ]} ]};
     Vault_Write := fun _ _ => None;
     Vault_Read := fun log path => inl (last_written log path None);
     Vault_Delete := fun _ _ => None |}.

(** The path of the root key of the system uid-1, and the log of the
    calls [PutSecret] makes to write the secret rootkey there. *)
Definition sample_path : string := "secret/data/NOOBAA_ROOT_SECRET_PATH/rootkeyb64-uid-1".

Definition sample_writes : list VaultCall :=
  [Sys_ListMounts (inl {[ "secret/" := mkMountOutput {[ "version" := "2" ]} ]});
   Logical_Write sample_path
     (<[ "data" := any_map {[ "rootkey" := any_string "c2VjcmV0" ]} ]> ∅) None].

(** * Properties *)

(** ** The errors of package util *)

Lemma CombineErrors_fold_persistent (errs : list (option error)) (acc : option error) :
  IsPersistentError acc = true ->
  IsPersistentError (fold_left CombineErrors_step errs acc) = true.
Proof.
  revert acc. induction errs as [|e errs IH]; intros acc Hacc; simpl; [exact Hacc|].
  apply IH. destruct e as [e|]; [|exact Hacc].
  destruct acc as [a|]; [|discriminate].
  unfold CombineErrors_step. rewrite Hacc, andb_false_r. exact Hacc.
Qed.

Lemma CombineErrors_fold_has_persistent (errs : list (option error)) (acc : option error) :
  has_persistent errs = true ->
  IsPersistentError (fold_left CombineErrors_step errs acc) = true.
Proof.
  revert acc. induction errs as [|e errs IH]; intros acc H; simpl in *; [discriminate|].
  apply orb_true_iff in H. destruct H as [He|H]; [|now apply IH].
  apply CombineErrors_fold_persistent.
  destruct e as [[pe| |]|]; try discriminate.
  destruct acc as [[pa| |]|]; reflexivity.
Qed.

Lemma CombineErrors_fold_no_persistent (errs : list (option error)) (a : error) :
  has_persistent errs = false ->
  fold_left CombineErrors_step errs (Some a) = Some a.
Proof.
  induction errs as [|e errs IH]; intros H; simpl in *; [reflexivity|].
  apply orb_false_iff in H. destruct H as [He H].
  destruct e as [e|]; [|now apply IH].
  unfold CombineErrors_step at 2. rewrite He. simpl. now apply IH.
Qed.

Lemma has_persistent_Permutation (errs errs' : list (option error)) :
  Permutation errs errs' -> has_persistent errs = has_persistent errs'.
Proof.
  unfold has_persistent. induction 1; simpl.
  - reflexivity.
  - now rewrite IHPermutation.
  - rewrite !orb_assoc. f_equal. apply orb_comm.
  - congruence.
Qed.

(** C8. When the errors passed to [CombineErrors] hold at least one
    persistent error and at least one error that is not persistent, the
    combined error is persistent, in whatever order the errors are passed;
    and when none of them is persistent, the combined error is the first
    non-nil error of the list. *)
Theorem CombineErrors_persistent_wins (errs : list (option error)) :
  (has_persistent errs = true -> has_transient errs = true ->
   forall errs', Permutation errs errs' ->
     IsPersistentError (CombineErrors errs') = true)
  /\ (has_persistent errs = false ->
      CombineErrors errs = first_non_nil errs).
Proof.
  split.
  - intros Hp _ errs' Hperm. unfold CombineErrors.
    apply CombineErrors_fold_has_persistent.
    now rewrite <- (has_persistent_Permutation _ _ Hperm).
  - unfold CombineErrors. induction errs as [|e errs IH]; intros H; [reflexivity|].
    simpl in H. apply orb_false_iff in H. destruct H as [He H].
    destruct e as [e|]; simpl.
    + now apply CombineErrors_fold_no_persistent.
    + now apply IH.
Qed.

Section Properties.

Context `{L : GoLib} (w : World).

(** ** The clock *)

Lemma time_Since_young (t : Time) :
  (time_Since w t <? 5 * Minute) = (time_Now w - t <? 5 * Minute).
Proof.
  unfold time_Since, Time_Sub, minDuration, maxDuration, Minute, Second, Nanosecond.
  destruct (time_Now w - t <? - 2 ^ 63) eqn:E1.
  - apply Z.ltb_lt in E1. symmetry. apply Z.ltb_lt. lia.
  - destruct (2 ^ 63 - 1 <? time_Now w - t) eqn:E2; [|reflexivity].
    apply Z.ltb_lt in E2. symmetry. apply Z.ltb_ge. lia.
Qed.

(** ** The Verifying phase *)

(** C4, as amended. In the Verifying phase, when the parent system is
    there (its UID is set) and a credential secret is declared but does
    not resolve (its name is set, its UID empty): a record younger than 5
    minutes gets an error that is not persistent, and a record of 5
    minutes or more gets the persistent error MissingSecret. *)
Theorem ReconcilePhaseVerifying_secret_grace (s : State) :
  UID (NooBaa_Meta (r_NooBaa (st_r s))) <> EmptyString ->
  Name (Secret_Meta (r_Secret (st_r s))) <> EmptyString ->
  UID (Secret_Meta (r_Secret (st_r s))) = EmptyString ->
  exists e s',
    ReconcilePhaseVerifying w s = Returned (Some e) s' /\
    (time_Now w - CreationTimestamp (ns_Meta (st_r s)) < 5 * Minute ->
     exists text, e = errorString text) /\
    (5 * Minute <= time_Now w - CreationTimestamp (ns_Meta (st_r s)) ->
     exists message, e = PersistentErr (NewPersistentError "MissingSecret" message)).
Proof.
  intros Hsys Hname Huid.
  unfold ReconcilePhaseVerifying, SetPhase, modify_Status, modify_r, bind, get_r, ret.
  cbn [st_r st_log r_NooBaa r_Secret set_r_NamespaceStore].
  apply String.eqb_neq in Hsys. apply String.eqb_neq in Hname.
  rewrite Hsys, Hname, Huid. cbn [negb andb String.eqb].
  unfold ns_Meta at 1. cbn [r_NamespaceStore set_r_NamespaceStore set_Status NamespaceStore_Meta].
  rewrite time_Since_young.
  destruct (time_Now w - CreationTimestamp (NamespaceStore_Meta (r_NamespaceStore (st_r s)))
            <? 5 * Minute) eqn:E.
  - eexists _, _. split; [reflexivity|]. split.
    + intros _. eexists. reflexivity.
    + intros H. apply Z.ltb_lt in E. unfold ns_Meta in H. lia.
  - eexists _, _. split; [reflexivity|]. split.
    + intros H. apply Z.ltb_ge in E. unfold ns_Meta in H. lia.
    + intros _. eexists. reflexivity.
Qed.

(** ** The connection check of the Creating phase *)

(** C5. When the Creating phase has a connection to register and the
    connection check call returns a reply without error: only the status
    success goes on to the registration of the connection, every other
    status returns an error after the check alone; invalid-credentials and
    invalid-endpoint give an error that is not persistent while the record
    is younger than 5 minutes and a persistent error from then on;
    time-skew and not-supported give a persistent error at any age;
    timeout and unknown-failure give an error that is not persistent. *)
Theorem ReconcileExternalConnection_check_status
    (s : State) (params : AddExternalConnectionParams) (res : CheckExternalConnectionReply) :
  r_ExternalConnectionInfo (st_r s) = None ->
  r_AddExternalConnectionParams (st_r s) = Some params ->
  r_NBClient (st_r s) = true ->
  nb_CheckExternalConnectionAPI w (st_log s) params = (res, None) ->
  let status := Reply_Status res in
  let age := time_Now w - CreationTimestamp (ns_Meta (st_r s)) in
  let checked := (st_log s ++ [CheckExternalConnectionAPI params (res, None)])%list in
  exists err s',
    ReconcileExternalConnection w s = Returned err s' /\
    st_r s' = st_r s /\
    (status = nb.ExternalConnectionSuccess ->
       err = nb_AddExternalConnectionAPI w checked params /\
       st_log s' = (checked ++ [AddExternalConnectionAPI params err])%list) /\
    (status <> nb.ExternalConnectionSuccess ->
       st_log s' = checked /\ exists e, err = Some e) /\
    (status = nb.ExternalConnectionInvalidCredentials \/
     status = nb.ExternalConnectionInvalidEndpoint ->
       (age < 5 * Minute -> exists text, err = Some (errorString text)) /\
       (5 * Minute <= age ->
        exists message, err = Some (PersistentErr (NewPersistentError status message)))) /\
    (status = nb.ExternalConnectionTimeSkew \/ status = nb.ExternalConnectionNotSupported ->
       exists message, err = Some (PersistentErr (NewPersistentError status message))) /\
    (status = nb.ExternalConnectionTimeout \/ status = nb.ExternalConnectionUnknownFailure ->
       exists text, err = Some (errorString text)).
Proof.
  intros Hinfo Hparams Hclient Hcheck status age checked.
  unfold ReconcileExternalConnection, NBClient_call, bind, get_r, call, ret.
  rewrite Hinfo, Hparams, Hclient, Hcheck. cbn [st_r st_log].
  unfold case_InvalidCredentials, case_InvalidEndpoint, case_TimeSkew, case_NotSupported,
    case_default, fmt_Errorf.
  rewrite time_Since_young. fold age. fold status.
  destruct (String.eqb_spec status nb.ExternalConnectionSuccess) as [E1|E1].
  { cbn [st_r st_log]. rewrite Hclient. cbn beta iota.
    eexists _, _. split; [reflexivity|]. cbn [st_r st_log]. fold checked.
    split; [reflexivity|]. refine (conj _ (conj _ (conj _ (conj _ _)))).
    - intros _. split; reflexivity.
    - intros HH. contradiction.
    - intros [HH|HH]; rewrite HH in E1; discriminate E1.
    - intros [HH|HH]; rewrite HH in E1; discriminate E1.
    - intros [HH|HH]; rewrite HH in E1; discriminate E1. }
  destruct (String.eqb_spec status nb.ExternalConnectionInvalidCredentials) as [E2|E2];
    [|destruct (String.eqb_spec status nb.ExternalConnectionInvalidEndpoint) as [E3|E3];
      [|destruct (String.eqb_spec status nb.ExternalConnectionTimeSkew) as [E4|E4];
        [|destruct (String.eqb_spec status nb.ExternalConnectionNotSupported) as [E5|E5]]]].
  all: destruct (age <? 5 * Minute) eqn:Eage;
    [apply Z.ltb_lt in Eage | apply Z.ltb_ge in Eage].
  all: cbn beta iota; eexists _, _; split; [reflexivity|]; cbn [st_r st_log]; fold checked.
  all: split; [reflexivity|]; refine (conj _ (conj _ (conj _ (conj _ _)))).
  all: try (intros HH; congruence).
  all: try (intros _; split; [reflexivity | eexists; reflexivity]).
  all: try (intros [HH|HH]; try congruence; try (rewrite HH in *; discriminate);
            try (eexists; reflexivity);
            split; intros; try lia; eexists; reflexivity).
Qed.

(** ** Conditions *)

Lemma find_append {A} (f : A -> bool) (l1 l2 : list A) :
  find f (l1 ++ l2) = match find f l1 with Some x => Some x | None => find f l2 end.
Proof.
  induction l1 as [|x l1 IH]; simpl; [reflexivity|]. destruct (f x); [reflexivity | exact IH].
Qed.

Lemma FindStatusCondition_refresh_first (now : Time) (c : Condition) (cs : list Condition) :
  FindStatusCondition cs (Condition_Type c) <> None ->
  exists old,
    FindStatusCondition (refresh_first now c cs) (Condition_Type c)
    = Some (refresh_condition now c old) /\ Condition_Type old = Condition_Type c.
Proof.
  unfold FindStatusCondition. induction cs as [|x cs IH]; simpl; [congruence|].
  destruct (String.eqb_spec (Condition_Type x) (Condition_Type c)) as [E|E]; intros H; simpl.
  - rewrite E, String.eqb_refl. exists x. split; [reflexivity | exact E].
  - apply String.eqb_neq in E. rewrite E. now apply IH.
Qed.

Lemma FindStatusCondition_refresh_other (now : Time) (c : Condition) (cs : list Condition)
    (t : string) :
  t <> Condition_Type c ->
  FindStatusCondition (refresh_first now c cs) t = FindStatusCondition cs t.
Proof.
  intros Ht. unfold FindStatusCondition. induction cs as [|x cs IH]; simpl; [reflexivity|].
  destruct (String.eqb_spec (Condition_Type x) (Condition_Type c)) as [E|E]; simpl.
  - rewrite E. assert (Hne : (Condition_Type c =s? t) = false)
      by (apply String.eqb_neq; congruence).
    now rewrite Hne.
  - destruct (Condition_Type x =s? t); [reflexivity | exact IH].
Qed.

Lemma FindStatusCondition_set_same (now : Time) (cs : list Condition) (c : Condition) :
  exists c',
    FindStatusCondition (SetStatusCondition now cs c) (Condition_Type c) = Some c' /\
    carries c' (Condition_Type c) (Condition_Status c) (Condition_Reason c)
      (Condition_Message c).
Proof.
  unfold SetStatusCondition.
  destruct (FindStatusCondition cs (Condition_Type c)) as [old|] eqn:E.
  - destruct (FindStatusCondition_refresh_first now c cs) as [o [Ho Ht]]; [congruence|].
    eexists. split; [exact Ho|]. unfold carries. simpl. auto.
  - unfold FindStatusCondition in *. rewrite find_append, E. simpl.
    rewrite String.eqb_refl. eexists. split; [reflexivity|]. unfold carries. simpl. auto.
Qed.

Lemma FindStatusCondition_set_other (now : Time) (cs : list Condition) (c : Condition)
    (t : string) :
  t <> Condition_Type c ->
  FindStatusCondition (SetStatusCondition now cs c) t = FindStatusCondition cs t.
Proof.
  intros Ht. unfold SetStatusCondition.
  destruct (FindStatusCondition cs (Condition_Type c)) as [old|] eqn:E.
  - now apply FindStatusCondition_refresh_other.
  - unfold FindStatusCondition. rewrite find_append.
    destruct (find (fun c0 => Condition_Type c0 =s? t) cs); [reflexivity|]. simpl.
    assert (Hne : (Condition_Type c =s? t) = false) by (apply String.eqb_neq; congruence).
    now rewrite Hne.
Qed.

Lemma set_four_Progressing (now : Time) (cs : list Condition)
    (available progressing degraded upgradeable reason message : string) :
  exists c,
    FindStatusCondition
      (set_four now cs available progressing degraded upgradeable reason message)
      conditionsv1.ConditionProgressing = Some c /\
    carries c conditionsv1.ConditionProgressing progressing reason message.
Proof.
  unfold set_four.
  rewrite FindStatusCondition_set_other by (simpl; discriminate).
  rewrite FindStatusCondition_set_other by (simpl; discriminate).
  apply (FindStatusCondition_set_same now _
           (mkCondition conditionsv1.ConditionProgressing progressing reason message now now)).
Qed.

(** ** The reaction of Reconcile to an error *)

(** C3, as amended. Whatever error the phases or the deletion path
    returned, [Reconcile] goes on to the status update and returns no
    error. For a persistent error the phase becomes Rejected under the
    reason and message of the error, a warning event of that reason is sent
    when the reconciler has an event recorder (none is sent without one),
    and requeue-after stays unset unless the status update that follows
    fails, which sets it to 3 seconds. For any other error the phase is
    left as it is, the Progressing condition is set to true with the text
    of the error, no event is sent, and requeue-after is 3 seconds. *)
Theorem Reconcile_finish_on_error (s : State) (e : error) :
  let now := time_Now w in
  let conditions := Status_Conditions (ns_Status (st_r s)) in
  exists res s' updated,
    Reconcile_finish w (Some e) (mkResult false 0) s = Returned (res, None) s' /\
    match e with
    | PersistentErr perr =>
        let reason := PersistentError_Reason perr in
        let message := PersistentError_Message perr in
        let events :=
          if r_Recorder (st_r s)
          then [Eventf corev1.EventTypeWarning reason (fmt_Sprintf message [])]
          else [] in
        Status_Phase (ns_Status (st_r s')) = nbv1.NamespaceStorePhaseRejected /\
        Status_Conditions (ns_Status (st_r s'))
        = SetErrorCondition now conditions reason message /\
        st_log s' = (st_log s ++ events
                     ++ [Status_Update (r_NamespaceStore (st_r s')) updated])%list /\
        RequeueAfter res = match updated with Some _ => 3 * Second | None => 0 end
    | _ =>
        Status_Phase (ns_Status (st_r s')) = Status_Phase (ns_Status (st_r s)) /\
        Status_Conditions (ns_Status (st_r s'))
        = SetProgressingCondition now conditions "TemporaryError" (error_Error e) /\
        (exists c,
           FindStatusCondition (Status_Conditions (ns_Status (st_r s')))
             conditionsv1.ConditionProgressing = Some c /\
           carries c conditionsv1.ConditionProgressing corev1.ConditionTrue
             "TemporaryError" (error_Error e)) /\
        st_log s' = (st_log s ++ [Status_Update (r_NamespaceStore (st_r s')) updated])%list /\
        RequeueAfter res = 3 * Second
    end.
Proof.
  intros now conditions.
  destruct e as [perr|rpc|text].
  - unfold Reconcile_finish, Reconcile_react, UpdateStatus, SetPhase, modify_Status, modify_r,
      bind, get_r, call, emit, ret.
    cbn [st_r st_log r_Recorder set_r_NamespaceStore].
    destruct (r_Recorder (st_r s)); cbn [st_r st_log].
    + eexists _, _, _. split; [reflexivity|].
      cbn [st_r st_log]. rewrite <- app_assoc.
      repeat split; try reflexivity.
      destruct (Client_Status_Update w _ _); reflexivity.
    + eexists _, _, _. split; [reflexivity|].
      cbn [st_r st_log].
      repeat split; try reflexivity.
      destruct (Client_Status_Update w _ _); reflexivity.
  - unfold Reconcile_finish, Reconcile_react, UpdateStatus, SetPhase, modify_Status, modify_r,
      bind, get_r, call, emit, ret.
    cbn [st_r st_log].
    eexists _, _, _. split; [reflexivity|].
    cbn [st_r st_log]. repeat split; try reflexivity.
    + apply set_four_Progressing.
    + destruct (Client_Status_Update w _ _); reflexivity.
  - unfold Reconcile_finish, Reconcile_react, UpdateStatus, SetPhase, modify_Status, modify_r,
      bind, get_r, call, emit, ret.
    cbn [st_r st_log].
    eexists _, _, _. split; [reflexivity|].
    cbn [st_r st_log]. repeat split; try reflexivity.
    + apply set_four_Progressing.
    + destruct (Client_Status_Update w _ _); reflexivity.
Qed.

(** ** The reuse of an existing connection *)

Lemma reuse_connections_scan (conn : AddExternalConnectionParams) (accounts : list AccountInfo)
    (acc : option ExternalConnectionInfo * string) :
  reuse_connections conn accounts acc
  = fold_left (reuse_step conn) (concat (map AccountInfo_Connections accounts)) acc.
Proof.
  unfold reuse_connections. revert acc.
  induction accounts as [|a accounts IH]; intros acc; simpl; [reflexivity|].
  rewrite fold_left_app. apply IH.
Qed.

Lemma reuse_step_no_match (conn : AddExternalConnectionParams)
    (after : list ExternalConnectionInfo) (acc : option ExternalConnectionInfo * string) :
  forallb (fun c' => negb (same_connection conn c')) after = true ->
  fold_left (reuse_step conn) after acc = acc.
Proof.
  revert acc. induction after as [|c' after IH]; intros acc H; simpl in *; [reflexivity|].
  apply andb_true_iff in H. destruct H as [Hc H].
  unfold reuse_step at 2. apply negb_true_iff in Hc. rewrite Hc. now apply IH.
Qed.

Lemma reuse_connections_last (conn : AddExternalConnectionParams) (systemInfo : SystemInfo)
    (before after : list ExternalConnectionInfo) (c : ExternalConnectionInfo)
    (acc : option ExternalConnectionInfo * string) :
  all_connections systemInfo = (before ++ c :: after)%list ->
  same_connection conn c = true ->
  forallb (fun c' => negb (same_connection conn c')) after = true ->
  reuse_connections conn (SystemInfo_Accounts systemInfo) acc
  = (Some c, ExternalConnectionInfo_Name c).
Proof.
  intros Hscan Hc Hafter. rewrite reuse_connections_scan.
  unfold all_connections in Hscan. rewrite Hscan, fold_left_app. simpl.
  unfold reuse_step at 2. rewrite Hc. now apply reuse_step_no_match.
Qed.

(** C1, as amended. Whatever connections the remote system lists, when
    one or more of them have the endpoint type, endpoint and identity of
    the desired descriptor, [ReadSystemInfo] adopts the last of them in
    scan order: it becomes the reused external connection, its name
    becomes the name of the descriptor and of the connection of the
    namespace resource to create; and [ReconcileExternalConnection] then
    returns without a call, so no connection is registered. *)
Theorem ReadSystemInfo_reuse_last_match (systemInfo : SystemInfo)
    (conn : AddExternalConnectionParams) (s : State)
    (before after : list ExternalConnectionInfo) (c : ExternalConnectionInfo) :
  all_connections systemInfo = (before ++ c :: after)%list ->
  same_connection conn c = true ->
  forallb (fun c' => negb (same_connection conn c')) after = true ->
  exists s',
    ReadSystemInfo_reuse systemInfo conn s = Returned None s' /\
    r_ExternalConnectionInfo (st_r s') = Some c /\
    r_AddExternalConnectionParams (st_r s')
    = Some (set_Conn_Name (ExternalConnectionInfo_Name c) conn) /\
    option_map Create_Connection (r_CreateNamespaceResourceParams (st_r s'))
    = Some (ExternalConnectionInfo_Name c) /\
    st_log s' = st_log s /\
    ReconcileExternalConnection w s' = Returned None s'.
Proof.
  intros Hscan Hc Hafter.
  unfold ReadSystemInfo_reuse, bind, get_r.
  rewrite (reuse_connections_last conn systemInfo before after c _ Hscan Hc Hafter).
  unfold modify_r, ret. cbn [st_r st_log].
  eexists. split; [reflexivity|]. cbn [st_r st_log].
  repeat split; reflexivity.
Qed.

(** ** The namespace fs resource *)

(** C10. For a record of type NSFS (with its NSFS block), whatever the
    secret holds and whatever the libraries compute, [ReadSystemInfo]
    returns without building a connection descriptor: it leaves the
    add-connection parameters, the reused connection, the secret and the
    record as they were, and its only errors are those of the connection to
    the system and of the read of the system, none of the validations of the
    descriptor; once the system is read it returns nil with the create
    parameters built from the NSFS configuration. With the add-connection
    parameters nil, [ReconcileExternalConnection] then returns nil without a
    call: no connection check and no registration. *)
Theorem ReadSystemInfo_nsfs_skips_connection (s : State) (nsfs : NSFSSpec) :
  Spec_Type (ns_Spec (st_r s)) = nbv1.NSStoreTypeNSFS ->
  Spec_NSFS (ns_Spec (st_r s)) = Some nsfs ->
  exists err s',
    ReadSystemInfo w s = Returned err s' /\
    r_AddExternalConnectionParams (st_r s') = r_AddExternalConnectionParams (st_r s) /\
    r_ExternalConnectionInfo (st_r s') = r_ExternalConnectionInfo (st_r s) /\
    r_Secret (st_r s') = r_Secret (st_r s) /\
    r_NamespaceStore (st_r s') = r_NamespaceStore (st_r s) /\
    match system_Connect w (st_log s) tt,
          nb_ReadSystemAPI w (st_log s ++ [Connect None])%list tt with
    | Some e, _ => err = Some e
    | None, inr e => err = Some e
    | None, inl systemInfo =>
        err = None /\
        r_CreateNamespaceResourceParams (st_r s')
        = Some (mkCreateNamespaceResourceParams (Name (ns_Meta (st_r s))) EmptyString EmptyString
                  (Some (mkNSFSConfig (NSFS_FsBackend nsfs) (NSFS_FsRootPath nsfs)))
                  (Some (mkNamespaceStoreInfo (Name (ns_Meta (st_r s))) options_Namespace))) /\
        st_log s' = (st_log s ++ [Connect None; ReadSystemAPI (inl systemInfo)])%list
    end /\
    (r_AddExternalConnectionParams (st_r s) = None ->
     ReconcileExternalConnection w s' = Returned None s').
Proof.
  intros Htype Hnsfs.
  assert (Hnocall : forall s', r_AddExternalConnectionParams (st_r s') = None ->
            ReconcileExternalConnection w s' = Returned None s').
  { intros s' Hnil. unfold ReconcileExternalConnection, bind, get_r, ret. rewrite Hnil.
    destruct (r_ExternalConnectionInfo (st_r s')); reflexivity. }
  unfold ReadSystemInfo, ReadSystemInfo_nsfs, orReturn, NBClient_call, bind, call, get_r,
    modify_r, ret.
  destruct (system_Connect w (st_log s) tt) as [e|].
  { eexists _, _. split; [reflexivity|]. cbn [st_r st_log].
    repeat split; try reflexivity. intros Hnil. now apply Hnocall. }
  cbn [st_r st_log r_NBClient set_r_NBClient].
  destruct (nb_ReadSystemAPI w (st_log s ++ [Connect None]) tt) as [systemInfo|e].
  2: { eexists _, _. split; [reflexivity|]. cbn [st_r st_log].
       repeat split; try reflexivity. intros Hnil. now apply Hnocall. }
  cbn [st_r st_log].
  set (loaded := match find _ _ with Some nsr => _ | None => _ end).
  assert (Hloaded : r_NamespaceStore loaded = r_NamespaceStore (st_r s) /\
                    r_Secret loaded = r_Secret (st_r s) /\
                    r_AddExternalConnectionParams loaded = r_AddExternalConnectionParams (st_r s) /\
                    r_ExternalConnectionInfo loaded = r_ExternalConnectionInfo (st_r s)).
  { subst loaded. destruct (find _ _); repeat split; reflexivity. }
  destruct Hloaded as (Hns & Hsec & Hadd & Hinfo).
  unfold ns_Spec, ns_Meta in *. rewrite Hns, Htype, String.eqb_refl.
  cbn beta iota. cbn [st_r st_log]. rewrite Hns, Hnsfs. cbn beta iota. cbn [st_r st_log].
  eexists _, _. split; [reflexivity|]. cbn [st_r st_log r_CreateNamespaceResourceParams
    r_AddExternalConnectionParams r_ExternalConnectionInfo r_Secret r_NamespaceStore
    set_r_CreateNamespaceResourceParams].
  rewrite Hns, Hsec, Hadd, Hinfo, <- app_assoc.
  repeat split; try reflexivity.
  intros Hnil. apply Hnocall. cbn [st_r r_AddExternalConnectionParams
    set_r_CreateNamespaceResourceParams]. now rewrite Hadd.
Qed.

(** ** Deletion: the accounts are reset before the resource is deleted *)

Lemma ReconcileDeletion_accounts_calls (accounts : list AccountInfo)
    (resourceName internalPool : string) (s : State) :
  r_NBClient (st_r s) = true ->
  let targets :=
    List.filter (fun a => AccountInfo_DefaultResource a =s? resourceName) accounts in
  exists err s' new,
    ReconcileDeletion_accounts w accounts resourceName internalPool s = Returned err s' /\
    st_r s' = st_r s /\
    st_log s' = (st_log s ++ new)%list /\
    ((err = None /\ new = map (reset_call internalPool) targets)
     \/ (exists done a rest e,
           targets = (done ++ a :: rest)%list /\
           new = (map (reset_call internalPool) done
                  ++ [UpdateAccountS3Access (reset_default_resource a internalPool) (Some e)])%list /\
           err = Some e)).
Proof.
  revert s. induction accounts as [|a accounts IH]; intros s Hclient targets.
  - exists None, s, []. simpl. rewrite app_nil_r. repeat split. left. split; reflexivity.
  - subst targets. cbn [ReconcileDeletion_accounts List.filter].
    destruct (AccountInfo_DefaultResource a =s? resourceName).
    + unfold orReturn, NBClient_call, bind, get_r, call. rewrite Hclient. cbn [st_r st_log].
      destruct (nb_UpdateAccountS3Access w (st_log s) (reset_default_resource a internalPool))
        as [e|] eqn:Eanswer.
      * eexists _, _, _. split; [reflexivity|]. cbn [st_r st_log].
        split; [reflexivity|]. split; [reflexivity|].
        right. exists [], a, (List.filter (fun a => AccountInfo_DefaultResource a =s? resourceName) accounts), e.
        repeat split; reflexivity.
      * destruct (IH (mkState (st_r s)
                    (st_log s ++ [UpdateAccountS3Access (reset_default_resource a internalPool) None]))
                    Hclient) as (err & s' & new & Hrun & Hr & Hlog & Hshape).
        exists err, s', (reset_call internalPool a :: new).
        split; [exact Hrun|]. split; [exact Hr|].
        split; [cbn [st_log] in Hlog; rewrite Hlog, <- app_assoc; reflexivity|].
        destruct Hshape as [[He Hnew]|(done & a' & rest & e & Ht & Hnew & He)].
        -- left. split; [exact He|]. simpl. now rewrite Hnew.
        -- right. exists (a :: done), a', rest, e. repeat split.
           ++ simpl. now rewrite Ht.
           ++ simpl. now rewrite Hnew.
           ++ exact He.
    + apply IH. exact Hclient.
Qed.

Lemma ReconcileDeletion_resource_calls (s : State) (nsr : NamespaceResourceInfo)
    (systemInfo : SystemInfo) :
  r_NamespaceResourceinfo (st_r s) = Some nsr ->
  r_SystemInfo (st_r s) = Some systemInfo ->
  r_NBClient (st_r s) = true ->
  let name := NamespaceResourceInfo_Name nsr in
  let internalPool := internalPoolName (SystemInfo_Pools systemInfo) in
  let targets :=
    List.filter (fun a => AccountInfo_DefaultResource a =s? name) (SystemInfo_Accounts systemInfo) in
  exists err s' new,
    ReconcileDeletion_resource w s = Returned err s' /\
    st_r s' = st_r s /\
    st_log s' = (st_log s ++ new)%list /\
    ((exists answer,
        new = (map (reset_call internalPool) targets
               ++ [DeleteNamespaceResourceAPI name answer])%list /\
        err = resource_delete_error name answer)
     \/ (exists done a rest e,
           targets = (done ++ a :: rest)%list /\
           new = (map (reset_call internalPool) done
                  ++ [UpdateAccountS3Access (reset_default_resource a internalPool) (Some e)])%list /\
           err = Some e)).
Proof.
  intros Hnsr Hsys Hclient name internalPool targets.
  destruct (ReconcileDeletion_accounts_calls (SystemInfo_Accounts systemInfo) name internalPool
              s Hclient) as (err & s1 & new & Hrun & Hr & Hlog & Hshape).
  assert (Hres : ReconcileDeletion_resource w s
                 = orReturn
                     (ReconcileDeletion_accounts w (SystemInfo_Accounts systemInfo) name internalPool)
                     (err <- NBClient_call (nb_DeleteNamespaceResourceAPI w)
                               DeleteNamespaceResourceAPI name;
                      ret (resource_delete_error name err)) s).
  { unfold ReconcileDeletion_resource, bind at 1, get_r. rewrite Hnsr, Hsys.
    unfold orReturn, bind. destruct (ReconcileDeletion_accounts w _ _ _ s) as [[e|] s0|s0];
      try reflexivity.
    destruct (NBClient_call _ _ _ s0) as [[[p|rpc|text]|] s2|s2]; try reflexivity.
    unfold resource_delete_error. destruct (RPCError_RPCCode rpc =s? "IN_USE"); reflexivity. }
  destruct Hshape as [[He Hnew]|(done & a & rest & e & Ht & Hnew & He)].
  - subst err. rewrite Hres. unfold orReturn, bind at 1. rewrite Hrun.
    unfold NBClient_call, bind, get_r, call, ret. rewrite Hr, Hclient.
    set (answer := nb_DeleteNamespaceResourceAPI w (st_log s1) name).
    exists (resource_delete_error name answer),
      (mkState (st_r s1) (st_log s1 ++ [DeleteNamespaceResourceAPI name answer])),
      (new ++ [DeleteNamespaceResourceAPI name answer])%list.
    split; [reflexivity|]. cbn [st_r st_log].
    split; [exact Hr|]. split; [rewrite Hlog, <- app_assoc; reflexivity|].
    left. exists answer. rewrite Hnew. split; reflexivity.
  - subst err. exists (Some e), s1, new.
    split; [rewrite Hres; unfold orReturn, bind at 1; now rewrite Hrun|].
    split; [exact Hr|]. split; [exact Hlog|].
    right. exists done, a, rest, e. repeat split; assumption.
Qed.

(** The name [internalPoolName] finds is the name of the first pool of
    resource type INTERNAL, and the empty name when there is none. *)
Lemma internalPoolName_first (pools : list PoolInfo) :
  (exists pool, first_internal_pool pools pool /\ internalPoolName pools = PoolInfo_Name pool)
  \/ (no_internal_pool pools /\ internalPoolName pools = EmptyString).
Proof.
  unfold internalPoolName, first_internal_pool, no_internal_pool.
  induction pools as [|p pools IH]; cbn [find].
  - right. split; [constructor | reflexivity].
  - destruct (String.eqb_spec (PoolInfo_ResourceType p) "INTERNAL") as [E|E].
    + left. exists p. split; [|reflexivity].
      exists [], pools. split; [reflexivity|]. split; [exact E | constructor].
    + destruct IH as [(pool & (before & after & Hp & Ht & Hb) & Hname)|[Hnone Hname]].
      * left. exists pool. split; [|exact Hname].
        exists (p :: before), after. split; [rewrite Hp; reflexivity|].
        split; [exact Ht | constructor; assumption].
      * right. split; [constructor; assumption | exact Hname].
Qed.

(** The parameters [reset_default_resource] builds, field by field. *)
Lemma reset_default_resource_fields (account : AccountInfo) (internalPool : string)
    (answer : option error) :
  UpdateAccountS3Access (reset_default_resource account internalPool) answer
  = reset_to internalPool account answer.
Proof.
  unfold reset_to, reset_default_resource.
  destruct (AccountInfo_AllowedBuckets account) as [full [permissions|]]; reflexivity.
Qed.

(** C9, as amended. In the deletion path with a remote resource handle, the
    accounts whose default resource is the resource are reset one after the
    other, in the order the system lists them. Each update carries the email
    and the S3 access of its account, the allowed buckets of the account (an
    empty permission list for a nil one) and, as the new default resource,
    the name of the first pool of resource type INTERNAL the system lists;
    when the system lists no such pool, the new default resource is the empty
    name. Either all the updates succeed and the delete call of the resource
    comes after the last of them, or an update fails and the attempt returns
    its error at once, without the delete call of the resource and without
    the rest of the cleanup. *)
Theorem ReconcileDeletion_resets_accounts_first (s : State) (nsr : NamespaceResourceInfo)
    (systemInfo : SystemInfo) :
  r_NamespaceResourceinfo (st_r s) = Some nsr ->
  r_SystemInfo (st_r s) = Some systemInfo ->
  r_NBClient (st_r s) = true ->
  let name := NamespaceResourceInfo_Name nsr in
  let pools := SystemInfo_Pools systemInfo in
  let targets :=
    List.filter (fun a => AccountInfo_DefaultResource a =s? name) (SystemInfo_Accounts systemInfo) in
  exists target err s' new,
    ((exists pool, first_internal_pool pools pool /\ target = PoolInfo_Name pool)
     \/ (no_internal_pool pools /\ target = EmptyString)) /\
    ReconcileDeletion_resource w s = Returned err s' /\
    st_r s' = st_r s /\
    st_log s' = (st_log s ++ new)%list /\
    ((exists answer,
        new = (map (fun a => reset_to target a None) targets
               ++ [DeleteNamespaceResourceAPI name answer])%list)
     \/ (exists done a rest e,
           targets = (done ++ a :: rest)%list /\
           new = (map (fun a => reset_to target a None) done
                  ++ [reset_to target a (Some e)])%list /\
           err = Some e /\
           ReconcileDeletion_cleanup w s = Returned (Some e) s')).
Proof.
  intros Hnsr Hsys Hclient name pools targets.
  destruct (ReconcileDeletion_resource_calls s nsr systemInfo Hnsr Hsys Hclient)
    as (err & s' & new & Hrun & Hr & Hlog & Hshape).
  fold name pools targets in Hshape.
  exists (internalPoolName pools), err, s', new.
  split.
  { destruct (internalPoolName_first pools) as [(pool & Hfirst & Hname)|[Hnone Hname]].
    - left. exists pool. split; [exact Hfirst | exact Hname].
    - right. split; [exact Hnone | exact Hname]. }
  split; [exact Hrun|]. split; [exact Hr|]. split; [exact Hlog|].
  assert (Hmap : forall l, map (reset_call (internalPoolName pools)) l
                           = map (fun a => reset_to (internalPoolName pools) a None) l).
  { intros l. apply map_ext. intros a. unfold reset_call.
    apply reset_default_resource_fields. }
  destruct Hshape as [(answer & Hnew & _)|(done & a & rest & e & Ht & Hnew & He)].
  - left. exists answer. rewrite <- Hmap. exact Hnew.
  - right. exists done, a, rest, e.
    rewrite <- Hmap, <- reset_default_resource_fields.
    repeat split; try assumption.
    unfold ReconcileDeletion_cleanup, orReturn, bind at 1. rewrite Hrun, He. reflexivity.
Qed.

(** ** Deletion: the finalizer is released last *)

Lemma ReconcileDeletion_connection_calls (s : State) :
  r_NBClient (st_r s) = true ->
  exists err s',
    ReconcileDeletion_connection w s = Returned err s' /\
    st_r s' = st_r s /\
    match r_ExternalConnectionInfo (st_r s) with
    | Some info =>
        exists answer,
          st_log s' = (st_log s
                       ++ [DeleteExternalConnectionAPI (ExternalConnectionInfo_Name info) answer])%list /\
          err = connection_delete_error answer
    | None => st_log s' = st_log s /\ err = None
    end.
Proof.
  intros Hclient. unfold ReconcileDeletion_connection, bind at 1, get_r.
  destruct (r_ExternalConnectionInfo (st_r s)) as [info|].
  - unfold NBClient_call, bind, get_r, call, ret. rewrite Hclient.
    set (answer := nb_DeleteExternalConnectionAPI w (st_log s) (ExternalConnectionInfo_Name info)).
    exists (connection_delete_error answer),
      (mkState (st_r s)
         (st_log s ++ [DeleteExternalConnectionAPI (ExternalConnectionInfo_Name info) answer])).
    split.
    + unfold connection_delete_error. destruct answer as [[p|rpc|text]|]; try reflexivity.
      destruct (negb (RPCError_RPCCode rpc =s? "IN_USE")); reflexivity.
    + split; [reflexivity|]. exists answer. split; reflexivity.
  - exists None, s. repeat split; reflexivity.
Qed.

Lemma FinalizeDeletion_calls (s : State) :
  exists obj answer,
    st_log (final (FinalizeDeletion w s))
    = (st_log s ++ [KubeUpdate_NamespaceStore obj answer])%list.
Proof.
  unfold FinalizeDeletion, KubeUpdate, modify_r, bind, get_r, call, ret, panic.
  cbn [st_r st_log].
  match goal with
  | |- context [klient_Update w ?l ?o] => exists o, (klient_Update w l o)
  end.
  destruct (klient_Update w _ _) as [e|]; [destruct (kube_classified e)|]; reflexivity.
Qed.

Lemma existsb_reset_calls (f : Action -> bool) (internalPool : string)
    (accounts : list AccountInfo) :
  (forall p answer, f (UpdateAccountS3Access p answer) = false) ->
  existsb f (map (reset_call internalPool) accounts) = false.
Proof.
  intros Hf. induction accounts as [|a accounts IH]; simpl; [reflexivity|].
  unfold reset_call at 1. now rewrite Hf.
Qed.

(** C6. In the deletion path with a remote resource handle: when the
    delete call of the resource is refused with the code IN_USE, the
    attempt returns an error, the record in memory keeps its finalizers and
    no update of the record is sent, so [FinalizeDeletion] is not reached;
    the reconciler is left untouched as long as no update of the record is
    sent; and an update of the record is sent only after the delete call of
    the resource was answered without error and the delete call of the
    connection, made whenever a connection is known, did not fail (an
    IN_USE answer to it is let pass with a warning). *)
Theorem ReconcileDeletion_cleanup_finalizer_gate (s : State) (nsr : NamespaceResourceInfo)
    (systemInfo : SystemInfo) :
  r_NamespaceResourceinfo (st_r s) = Some nsr ->
  r_SystemInfo (st_r s) = Some systemInfo ->
  r_NBClient (st_r s) = true ->
  let out := ReconcileDeletion_cleanup w s in
  exists new,
    st_log (final out) = (st_log s ++ new)%list /\
    (existsb resource_delete_in_use new = true ->
       (exists text, out = Returned (Some (errorString text)) (final out)) /\
       st_r (final out) = st_r s /\
       existsb is_KubeUpdate new = false) /\
    (existsb is_KubeUpdate new = false -> st_r (final out) = st_r s) /\
    (existsb is_KubeUpdate new = true ->
       existsb resource_delete_ok new = true /\
       existsb connection_delete_failed new = false /\
       (r_ExternalConnectionInfo (st_r s) <> None ->
        existsb is_DeleteExternalConnectionAPI new = true)).
Proof.
  intros Hnsr Hsys Hclient out.
  destruct (ReconcileDeletion_resource_calls s nsr systemInfo Hnsr Hsys Hclient)
    as (err & s1 & new1 & Hrun & Hr1 & Hlog1 & Hshape).
  assert (Hupd : forall f, (forall p answer, f (UpdateAccountS3Access p answer) = false) ->
            forall l, existsb f (map (reset_call (internalPoolName (SystemInfo_Pools systemInfo))) l)
                      = false)
    by (intros f Hf l; now apply existsb_reset_calls).
  destruct Hshape as [(answer & Hnew & Herr)|(done & a & rest & e & Ht & Hnew & Herr)].
  2: { (* an account update failed *)
    assert (Hout : out = Returned (Some e) s1)
      by (subst out; unfold ReconcileDeletion_cleanup, orReturn, bind at 1;
          rewrite Hrun, Herr; reflexivity).
    exists new1. rewrite Hout. cbn [final]. split; [exact Hlog1|].
    assert (Hno : forall f, (forall p answer, f (UpdateAccountS3Access p answer) = false) ->
              existsb f new1 = false).
    { intros f Hf. rewrite Hnew, existsb_app, Hupd by exact Hf. simpl. now rewrite Hf. }
    split; [|split].
    - rewrite Hno by reflexivity. discriminate.
    - intros _. exact Hr1.
    - rewrite Hno by reflexivity. discriminate. }
  destruct answer as [failure|].
  { (* the delete call of the resource failed *)
    assert (Herr' : exists e, err = Some e).
    { rewrite Herr. unfold resource_delete_error. destruct failure as [p|rpc|text];
        try (eexists; reflexivity).
      destruct (RPCError_RPCCode rpc =s? "IN_USE"); eexists; reflexivity. }
    destruct Herr' as [e He].
    assert (Hout : out = Returned (Some e) s1)
      by (subst out; unfold ReconcileDeletion_cleanup, orReturn, bind at 1;
          rewrite Hrun, He; reflexivity).
    exists new1. rewrite Hout. cbn [final]. split; [exact Hlog1|].
    assert (Hkube : existsb is_KubeUpdate new1 = false)
      by (rewrite Hnew, existsb_app, Hupd by reflexivity; reflexivity).
    split; [|split].
    - intros Hin. split; [|split; [exact Hr1 | exact Hkube]].
      rewrite Hnew, existsb_app, Hupd in Hin by reflexivity. simpl in Hin.
      rewrite orb_false_r in Hin. destruct failure as [p|rpc|text]; try discriminate.
      rewrite He in Herr. unfold resource_delete_error in Herr. rewrite Hin in Herr.
      injection Herr as Herr. subst e. eexists. reflexivity.
    - intros _. exact Hr1.
    - rewrite Hkube. discriminate. }
  (* the resource is deleted: on to the connection *)
  rewrite Herr in Hrun. cbn [resource_delete_error] in Hrun. clear Herr err.
  assert (Hclient1 : r_NBClient (st_r s1) = true) by (now rewrite Hr1).
  destruct (ReconcileDeletion_connection_calls s1 Hclient1) as (err2 & s2 & Hrun2 & Hr2 & Hshape2).
  assert (Hout : out = orReturn (ReconcileDeletion_connection w) (FinalizeDeletion w) s1)
    by (subst out; unfold ReconcileDeletion_cleanup, orReturn at 1, bind at 1;
        rewrite Hrun; reflexivity).
  unfold orReturn, bind at 1 in Hout. rewrite Hrun2 in Hout.
  rewrite Hr1 in Hshape2.
  destruct (r_ExternalConnectionInfo (st_r s)) as [info|] eqn:Hinfo.
  - destruct Hshape2 as (answer2 & Hlog2 & Herr2).
    destruct err2 as [e2|].
    + (* the delete call of the connection failed *)
      exists (new1 ++ [DeleteExternalConnectionAPI (ExternalConnectionInfo_Name info) answer2])%list.
      rewrite Hout. unfold ret. cbn [final].
      split; [rewrite Hlog2, Hlog1, <- app_assoc; reflexivity|].
      split; [|split].
      * rewrite Hnew, !existsb_app, Hupd by reflexivity. simpl. discriminate.
      * intros _. now rewrite Hr2.
      * rewrite Hnew, !existsb_app, Hupd by reflexivity. simpl. discriminate.
    + (* the connection is deleted or in use: the finalizer is released *)
      destruct (FinalizeDeletion_calls s2) as (obj & answer3 & Hlog3).
      exists (new1 ++ [DeleteExternalConnectionAPI (ExternalConnectionInfo_Name info) answer2]
              ++ [KubeUpdate_NamespaceStore obj answer3])%list.
      rewrite Hout.
      split; [rewrite Hlog3, Hlog2, Hlog1, <- !app_assoc; reflexivity|].
      split; [|split].
      * rewrite Hnew, !existsb_app, Hupd by reflexivity. simpl. discriminate.
      * rewrite Hnew, !existsb_app, Hupd by reflexivity. simpl. discriminate.
      * intros _. rewrite Hnew, !existsb_app, !Hupd by reflexivity. simpl.
        split; [reflexivity|]. split; [|intros _; reflexivity].
        rewrite orb_false_r. unfold connection_delete_error in Herr2.
        destruct answer2 as [[p|rpc|text]|]; try discriminate; try reflexivity.
        destruct (negb (RPCError_RPCCode rpc =s? "IN_USE")); [discriminate | reflexivity].
  - destruct Hshape2 as [Hlog2 Herr2]. subst err2.
    destruct (FinalizeDeletion_calls s2) as (obj & answer3 & Hlog3).
    exists (new1 ++ [KubeUpdate_NamespaceStore obj answer3])%list.
    rewrite Hout.
    split; [rewrite Hlog3, Hlog2, Hlog1, <- !app_assoc; reflexivity|].
    split; [|split].
    * rewrite Hnew, !existsb_app, Hupd by reflexivity. simpl. discriminate.
    * rewrite Hnew, !existsb_app, Hupd by reflexivity. simpl. discriminate.
    * intros _. rewrite Hnew, !existsb_app, !Hupd by reflexivity. simpl.
      split; [reflexivity|]. split; [reflexivity|]. intros H. now contradiction H.
Qed.

(** ** What a method leaves as it is *)

Lemma keeps_ret {A B} (f : Reconciler -> B) (a : A) : keeps f (ret a).
Proof. intros s. reflexivity. Qed.

Lemma keeps_panic {A B} (f : Reconciler -> B) : keeps f (@panic A).
Proof. intros s. reflexivity. Qed.

Lemma keeps_get_r {B} (f : Reconciler -> B) : keeps f get_r.
Proof. intros s. reflexivity. Qed.

Lemma keeps_call {Req Resp B} (f : Reconciler -> B) (oracle : list Action -> Req -> Resp)
    (act : Req -> Resp -> Action) (req : Req) : keeps f (call oracle act req).
Proof. intros s. reflexivity. Qed.

Lemma keeps_bind {A C B} (f : Reconciler -> B) (m : M A) (k : A -> M C) :
  keeps f m -> (forall a, keeps f (k a)) -> keeps f (bind m k).
Proof.
  intros Hm Hk s. unfold bind. specialize (Hm s).
  destruct (m s) as [a s1|s1]; cbn [final] in *.
  - now rewrite Hk.
  - exact Hm.
Qed.

Lemma keeps_orReturn {B} (f : Reconciler -> B) (m k : M (option error)) :
  keeps f m -> keeps f k -> keeps f (orReturn m k).
Proof.
  intros Hm Hk. unfold orReturn. apply keeps_bind; [exact Hm|].
  intros [e|]; [apply keeps_ret | exact Hk].
Qed.

Lemma keeps_NBClient_call {Req Resp B} (f : Reconciler -> B)
    (oracle : list Action -> Req -> Resp) (act : Req -> Resp -> Action) (req : Req) :
  keeps f (NBClient_call oracle act req).
Proof.
  unfold NBClient_call. apply keeps_bind; [apply keeps_get_r|].
  intros r. destruct (r_NBClient r); [apply keeps_call | apply keeps_panic].
Qed.

Lemma keeps_modify_r {B} (f : Reconciler -> B) (g : Reconciler -> Reconciler) :
  (forall r, f (g r) = f r) -> keeps f (modify_r g).
Proof. intros H s. apply H. Qed.

Ltac keeps_step :=
  match goal with
  | |- keeps _ (ret _) => apply keeps_ret
  | |- keeps _ panic => apply keeps_panic
  | |- keeps _ get_r => apply keeps_get_r
  | |- keeps _ (modify_r _) => apply keeps_modify_r; intros; reflexivity
  | |- keeps _ (bind _ _) => apply keeps_bind; [|intros]
  | |- keeps _ (orReturn _ _) => apply keeps_orReturn
  | |- keeps _ (call _ _ _) => apply keeps_call
  | |- keeps _ (NBClient_call _ _ _) => apply keeps_NBClient_call
  | |- keeps _ (match ?x with _ => _ end) => destruct x
  end.

Lemma MakeExternalConnectionParams_keeps : keeps bearings MakeExternalConnectionParams.
Proof.
  unfold MakeExternalConnectionParams, fixAlternateKeysNames, modify_Spec.
  repeat keeps_step.
Qed.

Lemma ReadSystemInfo_reuse_keeps (systemInfo : SystemInfo) (conn : AddExternalConnectionParams) :
  keeps bearings (ReadSystemInfo_reuse systemInfo conn).
Proof. unfold ReadSystemInfo_reuse. repeat keeps_step. Qed.

Lemma ReadSystemInfo_nsfs_keeps : keeps bearings ReadSystemInfo_nsfs.
Proof. unfold ReadSystemInfo_nsfs. repeat keeps_step. Qed.

(** After a successful [ReadSystemInfo] the reconciler has a client and the
    system information, and the metadata of the record, its finalizers
    among them, are as before. *)
Lemma ReadSystemInfo_bearings (s s' : State) :
  ReadSystemInfo w s = Returned None s' ->
  r_NBClient (st_r s') = true /\
  r_SystemInfo (st_r s') <> None /\
  ns_Meta (st_r s') = ns_Meta (st_r s).
Proof.
  unfold ReadSystemInfo, orReturn, bind at 1, call.
  destruct (system_Connect w (st_log s) tt); [discriminate|].
  unfold bind at 1, modify_r at 1, bind at 1, NBClient_call, bind at 1, get_r at 1, call.
  cbn [st_r st_log r_NBClient set_r_NBClient].
  destruct (nb_ReadSystemAPI w _ tt) as [systemInfo|e]; [|discriminate].
  unfold bind at 1, modify_r at 1, bind at 1, modify_r at 1, bind at 1, get_r at 1.
  cbn [st_r st_log].
  set (loaded := match find _ _ with Some nsr => _ | None => _ end).
  assert (Hloaded : bearings loaded = (true, Some systemInfo, ns_Meta (st_r s)))
    by (subst loaded; destruct (find _ _); reflexivity).
  intros Hrun.
  assert (Hkeep : bearings (st_r s') = bearings loaded).
  { destruct (Spec_Type (ns_Spec loaded) =s? nbv1.NSStoreTypeNSFS).
    - match type of Hrun with
      | _ ?s0 = _ => pose proof (ReadSystemInfo_nsfs_keeps s0) as H
      end.
      rewrite Hrun in H. exact H.
    - match type of Hrun with
      | bind ?m ?k ?s0 = _ =>
          assert (Hk : keeps bearings (bind m k))
            by (apply keeps_bind; [apply MakeExternalConnectionParams_keeps|];
                intros [conn|e]; [apply ReadSystemInfo_reuse_keeps | apply keeps_ret]);
          specialize (Hk s0); rewrite Hrun in Hk; exact Hk
      end. }
  rewrite Hloaded in Hkeep. unfold bearings in Hkeep. injection Hkeep as H1 H2 H3.
  split; [exact H1|]. split; [rewrite H2; discriminate | exact H3].
Qed.

Lemma ReconcileDeletion_announce_keeps :
  keeps (fun r => (r_NooBaa r, bearings r)) (ReconcileDeletion_announce w).
Proof.
  unfold ReconcileDeletion_announce, SetPhase, modify_Status, UpdateStatus.
  repeat keeps_step.
Qed.

(** How [ReconcileDeletion] gets to the cleanup: once the deletion is
    announced, with the parent system there and the system read, it is the
    cleanup from the state [ReadSystemInfo] left, in which the reconciler has
    a client and the system information, and the record its finalizers. *)
Lemma ReconcileDeletion_reaches_cleanup (s s1 s2 : State) :
  ReconcileDeletion_announce w s = Returned None s1 ->
  UID (NooBaa_Meta (r_NooBaa (st_r s1))) <> EmptyString ->
  ReadSystemInfo w s1 = Returned None s2 ->
  ReconcileDeletion w s = ReconcileDeletion_cleanup w s2 /\
  r_NBClient (st_r s2) = true /\
  r_SystemInfo (st_r s2) <> None /\
  Finalizers (ns_Meta (st_r s2)) = Finalizers (ns_Meta (st_r s)).
Proof.
  intros Hannounce Hsystem Hread.
  destruct (ReadSystemInfo_bearings _ _ Hread) as (Hclient & Hinfo & Hmeta).
  pose proof (ReconcileDeletion_announce_keeps s) as Hkeep.
  rewrite Hannounce in Hkeep. cbn [final] in Hkeep. unfold bearings in Hkeep.
  injection Hkeep as _ _ _ Hmeta1.
  split; [|split; [exact Hclient|split; [exact Hinfo|]]].
  - unfold ReconcileDeletion, orReturn at 1, bind at 1. rewrite Hannounce.
    unfold bind at 1, get_r. apply String.eqb_neq in Hsystem. rewrite Hsystem.
    unfold orReturn, bind. now rewrite Hread.
  - rewrite Hmeta. unfold ns_Meta. now rewrite Hmeta1.
Qed.

Lemma ReconcileExternalConnection_keeps_r : keeps (fun r => r) (ReconcileExternalConnection w).
Proof.
  unfold ReconcileExternalConnection. apply keeps_bind; [apply keeps_get_r|]. intros r.
  destruct (r_ExternalConnectionInfo r); [apply keeps_ret|].
  destruct (r_AddExternalConnectionParams r) as [params|]; [|apply keeps_ret].
  apply keeps_bind; [apply keeps_NBClient_call|]. intros [res [e|]].
  - destruct e as [p|rpc|text]; try apply keeps_ret.
    destruct (RPCError_RPCCode rpc =s? "INVALID_SCHEMA_PARAMS"); apply keeps_ret.
  - repeat match goal with
           | |- keeps _ (if ?b then _ else _) => destruct b
           end; try apply keeps_ret. apply keeps_NBClient_call.
Qed.

Lemma ReconcileNamespaceStore_keeps_r : keeps (fun r => r) (ReconcileNamespaceStore w).
Proof.
  unfold ReconcileNamespaceStore. apply keeps_bind; [apply keeps_get_r|]. intros r.
  destruct (r_NamespaceResourceinfo r); [apply keeps_ret|].
  destruct (r_CreateNamespaceResourceParams r); [apply keeps_NBClient_call | apply keeps_ret].
Qed.

Lemma orReturn_None (m k : M (option error)) (s s' : State) :
  orReturn m k s = Returned None s' ->
  exists s1, m s = Returned None s1 /\ k s1 = Returned None s'.
Proof.
  unfold orReturn, bind. destruct (m s) as [[e|] s1|s1]; try discriminate.
  intros H. exists s1. split; [reflexivity | exact H].
Qed.

(** ** The mode of the store, once the phases are through *)

Lemma ReconcilePhaseCreating_phase (s s' : State) :
  ReconcilePhaseCreating w s = Returned None s' ->
  Status_Phase (ns_Status (st_r s')) = nbv1.NamespaceStorePhaseCreating.
Proof.
  unfold ReconcilePhaseCreating, SetPhase, modify_Status, modify_r, bind at 1.
  intros H.
  pose proof (keeps_orReturn (fun r => r) _ _ ReconcileExternalConnection_keeps_r
                ReconcileNamespaceStore_keeps_r) as Hkeep.
  match type of H with
  | orReturn _ _ ?s1 = _ => specialize (Hkeep s1); rewrite H in Hkeep
  end.
  cbn [final st_r] in Hkeep. rewrite Hkeep. reflexivity.
Qed.

Lemma ReconcilePhases_phase (s s' : State) :
  ReconcilePhases w s = Returned None s' ->
  Status_Phase (ns_Status (st_r s')) = nbv1.NamespaceStorePhaseCreating.
Proof.
  unfold ReconcilePhases. intros H.
  apply orReturn_None in H. destruct H as (s1 & _ & H).
  apply orReturn_None in H. destruct H as (s2 & _ & H).
  now apply ReconcilePhaseCreating_phase in H.
Qed.

Lemma nsrModeInfoMap_phases (mode : string) (info : ModeInfo) :
  nsrModeInfoMap !! mode = Some info ->
  ModeInfo_Phase info = nbv1.NamespaceStorePhaseReady \/
  ModeInfo_Phase info = nbv1.NamespaceStorePhaseRejected.
Proof.
  unfold nsrModeInfoMap, modeInfoMap. intros H.
  apply elem_of_list_to_map_2 in H.
  repeat (apply elem_of_cons in H; destruct H as [H|H];
          [injection H as _ H; subst info; simpl; auto|]).
  now apply elem_of_nil in H.
Qed.

(** The mode of the store is reported at every pass. When the phases went
    through without error, the phase in memory is Creating, so the test that
    compares the phase of the mode with the phase of the record always finds
    them different: the phase of the mode is set again and, with a recorder,
    its event is sent again, whatever phase the record had when the pass
    began. *)
Lemma Reconcile_react_reports_mode (s s1 : State) (info : ModeInfo) (res : Result) :
  ReconcilePhases w s = Returned None s1 ->
  nsrModeInfoMap !! Status_ModeCode (ns_Status (st_r s1)) = Some info ->
  r_Recorder (st_r s1) = true ->
  exists s2,
    Reconcile_react w None res s1 = Returned res s2 /\
    Status_Phase (ns_Status (st_r s2)) = ModeInfo_Phase info /\
    st_log s2
    = (st_log s1
       ++ [Eventf (ModeInfo_Severity info)
             (fmt_Sprintf "NamespaceStorePhase%s" [ModeInfo_Phase info])
             (fmt_Sprintf
                (fmt_Sprintf "Namespace store mode: %s" [Status_ModeCode (ns_Status (st_r s1))])
                [])])%list.
Proof.
  intros Hphases Hmode Hrecorder.
  apply ReconcilePhases_phase in Hphases.
  unfold Reconcile_react, bind at 1, get_r. rewrite Hmode, Hphases.
  assert (Hne : (ModeInfo_Phase info =s? nbv1.NamespaceStorePhaseCreating) = false)
    by (destruct (nsrModeInfoMap_phases _ _ Hmode) as [E|E]; rewrite E; reflexivity).
  rewrite Hne. cbn [negb].
  unfold SetPhase, modify_Status, modify_r, bind, emit, ret. cbn [st_r st_log].
  rewrite Hrecorder. eexists. split; [reflexivity|]. cbn [st_r st_log]. split; [|reflexivity].
  unfold ns_Status. cbn [r_NamespaceStore set_r_NamespaceStore set_Status NamespaceStore_Status].
  unfold SetPhase_status.
  destruct (nsrModeInfoMap_phases _ _ Hmode) as [E|E]; rewrite E; reflexivity.
Qed.

(** ** Reconcile returns, and returns no error *)

Lemma wp_ret {A} (a : A) (Q : A -> State -> Prop) (s : State) : Q a s -> wp (ret a) Q s.
Proof. intros H. exact H. Qed.

Lemma wp_bind {A B} (m : M A) (k : A -> M B) (Q : B -> State -> Prop) (s : State) :
  wp m (fun a s1 => wp (k a) Q s1) s -> wp (bind m k) Q s.
Proof. unfold wp, bind. destruct (m s) as [a s1|s1]; intros H; exact H. Qed.

Lemma wp_get_r (Q : Reconciler -> State -> Prop) (s : State) : Q (st_r s) s -> wp get_r Q s.
Proof. intros H. exact H. Qed.

Lemma wp_modify_r (g : Reconciler -> Reconciler) (Q : unit -> State -> Prop) (s : State) :
  Q tt (mkState (g (st_r s)) (st_log s)) -> wp (modify_r g) Q s.
Proof. intros H. exact H. Qed.

Lemma wp_call {Req Resp} (oracle : list Action -> Req -> Resp) (act : Req -> Resp -> Action)
    (req : Req) (Q : Resp -> State -> Prop) (s : State) :
  Q (oracle (st_log s) req)
    (mkState (st_r s) (st_log s ++ [act req (oracle (st_log s) req)])) ->
  wp (call oracle act req) Q s.
Proof. intros H. exact H. Qed.

Lemma wp_emit (a : Action) (Q : unit -> State -> Prop) (s : State) :
  Q tt (mkState (st_r s) (st_log s ++ [a])) -> wp (emit a) Q s.
Proof. intros H. exact H. Qed.

Lemma wp_conseq {A} (m : M A) (Q Q' : A -> State -> Prop) (s : State) :
  wp m Q s -> (forall a s', Q a s' -> Q' a s') -> wp m Q' s.
Proof. unfold wp. destruct (m s); [|tauto]. intros H HQ. now apply HQ. Qed.

Lemma wp_orReturn (m k : M (option error)) (Q : option error -> State -> Prop) (s : State) :
  wp m (fun e s1 => match e with Some _ => Q e s1 | None => wp k Q s1 end) s ->
  wp (orReturn m k) Q s.
Proof.
  intros H. unfold orReturn. apply wp_bind. eapply wp_conseq; [exact H|].
  intros [e|] s1 H1; [apply wp_ret|]; exact H1.
Qed.

Lemma wp_NBClient_call {Req Resp} (oracle : list Action -> Req -> Resp)
    (act : Req -> Resp -> Action) (req : Req) (Q : Resp -> State -> Prop) (s : State) :
  r_NBClient (st_r s) = true ->
  Q (oracle (st_log s) req)
    (mkState (st_r s) (st_log s ++ [act req (oracle (st_log s) req)])) ->
  wp (NBClient_call oracle act req) Q s.
Proof.
  intros Hclient H. unfold NBClient_call. apply wp_bind, wp_get_r. rewrite Hclient.
  now apply wp_call.
Qed.

Lemma wp_Returned {A} (m : M A) (Q : A -> State -> Prop) (s : State) :
  wp m Q s -> exists a s', m s = Returned a s' /\ Q a s'.
Proof. unfold wp. destruct (m s) as [a s'|s']; [|tauto]. intros H. now exists a, s'. Qed.

Section Polite.

Hypothesis Hpolite : polite w.

Lemma KubeCheck_NamespaceStore_total (s : State) :
  blocks_present (ns_Spec (st_r s)) = true ->
  wp (KubeCheck_NamespaceStore w) (fun _ s' => blocks_present (ns_Spec (st_r s')) = true) s.
Proof.
  intros Hinv. destruct Hpolite as (Herr & Hrec & _).
  unfold KubeCheck_NamespaceStore. apply wp_bind, wp_get_r, wp_bind, wp_call.
  destruct (klient_Get_NamespaceStore w (st_log s) (r_NamespaceStore (st_r s)))
    as [obj|e] eqn:E.
  - apply wp_bind, wp_modify_r, wp_ret. cbn [st_r]. unfold ns_Spec.
    cbn [r_NamespaceStore set_r_NamespaceStore]. exact (Hrec _ _ _ E).
  - rewrite (Herr _ _ _ E). apply wp_ret. exact Hinv.
Qed.

Lemma KubeCheck_NooBaa_total (s : State) :
  wp (KubeCheck_NooBaa w)
    (fun _ s' => r_NamespaceStore (st_r s') = r_NamespaceStore (st_r s)) s.
Proof.
  destruct Hpolite as (_ & _ & Herr & _).
  unfold KubeCheck_NooBaa. apply wp_bind, wp_get_r, wp_bind, wp_call.
  destruct (klient_Get_NooBaa w (st_log s) (r_NooBaa (st_r s))) as [obj|e] eqn:E.
  - apply wp_bind, wp_modify_r, wp_ret. reflexivity.
  - rewrite (Herr _ _ _ E). apply wp_ret. reflexivity.
Qed.

Lemma KubeCheck_Secret_total (s : State) :
  wp (KubeCheck_Secret w)
    (fun _ s' => r_NamespaceStore (st_r s') = r_NamespaceStore (st_r s)) s.
Proof.
  destruct Hpolite as (_ & _ & _ & Herr & _).
  unfold KubeCheck_Secret. apply wp_bind, wp_get_r, wp_bind, wp_call.
  destruct (klient_Get_Secret w (st_log s) (r_Secret (st_r s))) as [obj|e] eqn:E.
  - apply wp_bind, wp_modify_r, wp_ret. reflexivity.
  - rewrite (Herr _ _ _ E). apply wp_ret. reflexivity.
Qed.

Lemma KubeUpdate_total (s : State) :
  wp (KubeUpdate w) (fun _ s' => st_r s' = st_r s) s.
Proof.
  destruct Hpolite as (_ & _ & _ & _ & Herr).
  unfold KubeUpdate. apply wp_bind, wp_get_r, wp_bind, wp_call.
  destruct (klient_Update w (st_log s) (r_NamespaceStore (st_r s))) as [e|] eqn:E.
  - rewrite (Herr _ _ _ E). apply wp_ret. reflexivity.
  - apply wp_ret. reflexivity.
Qed.

Lemma blocks_present_S3Compatible (spec : NamespaceStoreSpec) (block : S3CompatibleSpec) :
  blocks_present spec = true ->
  blocks_present (set_S3Compatible (Some block) spec) = true.
Proof.
  unfold blocks_present, set_S3Compatible. cbn [Spec_Type Spec_NSFS Spec_AWSS3 Spec_S3Compatible
    Spec_IBMCos present].
  repeat match goal with |- context [if ?b then _ else _] => destruct b end; auto.
Qed.

Lemma blocks_present_IBMCos (spec : NamespaceStoreSpec) (block : IBMCosSpec) :
  blocks_present spec = true ->
  blocks_present (set_IBMCos (Some block) spec) = true.
Proof.
  unfold blocks_present, set_IBMCos. cbn [Spec_Type Spec_NSFS Spec_AWSS3 Spec_S3Compatible
    Spec_IBMCos present].
  repeat match goal with |- context [if ?b then _ else _] => destruct b end; auto.
Qed.

Lemma MakeExternalConnectionParams_total (s : State) :
  Spec_Type (ns_Spec (st_r s)) <> nbv1.NSStoreTypeNSFS ->
  blocks_present (ns_Spec (st_r s)) = true ->
  wp MakeExternalConnectionParams (fun _ s' => settled s s') s.
Proof.
  intros Hnsfs Hinv. unfold MakeExternalConnectionParams.
  apply wp_bind. unfold fixAlternateKeysNames. apply wp_modify_r, wp_bind, wp_get_r.
  cbn [st_r st_log]. unfold ns_Spec in *.
  cbn [r_NamespaceStore set_r_Secret].
  apply String.eqb_neq in Hnsfs. unfold blocks_present in Hinv. rewrite Hnsfs in Hinv.
  assert (Hdone : forall (res : AddExternalConnectionParams + error) (s1 : State),
            settled s s1 ->
            wp (match res with
                | inr e => ret (inr e)
                | inl conn =>
                    if negb (IsStringGraphicOrSpacesCharsOnly (Conn_Identity conn))
                       || negb (IsStringGraphicOrSpacesCharsOnly (Conn_Secret conn))
                    then
                      s <- get_r;
                      ret (inr (PersistentErr (NewPersistentError "InvalidSecret"
                        (fmt_Sprintf
                           "Invalid secret containing non graphic characters (perhaps not base64 encoded?) %q"
                           [Name (Secret_Meta (r_Secret s))]))))
                    else ret (inl conn)
                end) (fun _ s' => settled s s') s1).
  { intros [conn|e] s1 Hs1; [|now apply wp_ret].
    destruct (_ || _); [apply wp_bind, wp_get_r|]; now apply wp_ret. }
  assert (Hhere : settled s (mkState
            (set_r_Secret
               (mkSecret (Secret_Meta (r_Secret (st_r s)))
                  (fix_key "AWS_SECRET_ACCESS_KEY" ["aws_secret_access_key"; "SecretKey"]
                     (fix_key "AWS_ACCESS_KEY_ID" ["aws_access_key_id"; "AccessKey"]
                        (Secret_StringData (r_Secret (st_r s)))))
                  (Secret_Data (r_Secret (st_r s)))) (st_r s)) (st_log s))).
  { unfold settled, ns_Spec, blocks_present. cbn [st_r r_NamespaceStore set_r_Secret r_NBClient
      r_SystemInfo]. rewrite Hnsfs. auto. }
  assert (Hfinish : forall (res : AddExternalConnectionParams + error) (s1 : State),
            settled s s1 ->
            wp (ret res)
              (fun built s2 =>
                 wp (match built with
                     | inr e => ret (inr e)
                     | inl conn =>
                         if negb (IsStringGraphicOrSpacesCharsOnly (Conn_Identity conn))
                            || negb (IsStringGraphicOrSpacesCharsOnly (Conn_Secret conn))
                         then
                           s <- get_r;
                           ret (inr (PersistentErr (NewPersistentError "InvalidSecret"
                             (fmt_Sprintf
                                "Invalid secret containing non graphic characters (perhaps not base64 encoded?) %q"
                                [Name (Secret_Meta (r_Secret s))]))))
                         else ret (inl conn)
                     end) (fun _ s' => settled s s') s2) s1)
    by (intros res s1 Hs1; apply wp_ret; now apply Hdone).
  apply wp_bind.
  destruct (Spec_Type (NamespaceStore_Spec (r_NamespaceStore (st_r s))) =s? nbv1.NSStoreTypeAWSS3)
    eqn:Eaws.
  { destruct (Spec_AWSS3 _); [|discriminate]. now apply Hfinish. }
  destruct (Spec_Type (NamespaceStore_Spec (r_NamespaceStore (st_r s)))
            =s? nbv1.NSStoreTypeS3Compatible) eqn:Ecompat.
  { destruct (Spec_S3Compatible _) as [block|] eqn:Eblock; [|discriminate].
    destruct (auth_method _ _); [|now apply Hfinish].
    destruct (endpoint_url _) as [endpoint' res]. unfold modify_Spec.
    apply wp_bind, wp_modify_r.
    match goal with |- wp _ _ ?s1 => assert (Hs1 : settled s s1) end.
    { unfold settled, ns_Spec. cbn [st_r r_NamespaceStore set_r_NamespaceStore set_r_Secret
        r_NBClient r_SystemInfo set_Spec NamespaceStore_Spec].
      split; [|auto]. apply blocks_present_S3Compatible. unfold blocks_present.
      rewrite Hnsfs, Eaws, Ecompat, Eblock. reflexivity. }
    destruct res; now apply Hfinish. }
  destruct (Spec_Type (NamespaceStore_Spec (r_NamespaceStore (st_r s)))
            =s? nbv1.NSStoreTypeIBMCos) eqn:Eibm.
  { destruct (Spec_IBMCos _) as [block|] eqn:Eblock; [|discriminate].
    destruct (auth_method _ _); [|now apply Hfinish].
    destruct (endpoint_url _) as [endpoint' res]. unfold modify_Spec.
    apply wp_bind, wp_modify_r.
    match goal with |- wp _ _ ?s1 => assert (Hs1 : settled s s1) end.
    { unfold settled, ns_Spec. cbn [st_r r_NamespaceStore set_r_NamespaceStore set_r_Secret
        r_NBClient r_SystemInfo set_Spec NamespaceStore_Spec].
      split; [|auto]. apply blocks_present_IBMCos. unfold blocks_present.
      rewrite Hnsfs, Eaws, Ecompat, Eibm, Eblock. reflexivity. }
    destruct res; now apply Hfinish. }
  destruct (_ =s? nbv1.NSStoreTypeAzureBlob); now apply Hfinish.
Qed.

Lemma ReadSystemInfo_reuse_total (systemInfo : SystemInfo) (conn : AddExternalConnectionParams)
    (s : State) :
  connected s ->
  wp (ReadSystemInfo_reuse systemInfo conn) (fun e s' => e = None /\ connected s') s.
Proof.
  intros Hs. unfold ReadSystemInfo_reuse. apply wp_bind, wp_get_r.
  destruct (reuse_connections _ _ _) as [info connName].
  apply wp_bind, wp_modify_r, wp_bind, wp_modify_r, wp_bind, wp_get_r, wp_bind, wp_modify_r,
    wp_ret.
  split; [reflexivity | exact Hs].
Qed.

Lemma ReadSystemInfo_total (s : State) :
  blocks_present (ns_Spec (st_r s)) = true ->
  wp (ReadSystemInfo w)
    (fun e s' => blocks_present (ns_Spec (st_r s')) = true /\ (e = None -> connected s')) s.
Proof.
  intros Hinv. unfold ReadSystemInfo. apply wp_orReturn, wp_call.
  destruct (system_Connect w (st_log s) tt) as [e|]; [split; [exact Hinv | discriminate]|].
  apply wp_bind, wp_modify_r, wp_bind, wp_NBClient_call; [reflexivity|].
  cbn [st_r st_log].
  destruct (nb_ReadSystemAPI w _ tt) as [systemInfo|e];
    [|apply wp_ret; split; [exact Hinv | discriminate]].
  apply wp_bind, wp_modify_r, wp_bind, wp_modify_r, wp_bind, wp_get_r. cbn [st_r st_log].
  set (loaded := match find _ _ with Some nsr => _ | None => _ end).
  assert (Hloaded : connected (mkState loaded
            (st_log s ++ [Connect None] ++ [ReadSystemAPI (inl systemInfo)]))).
  { unfold connected, ns_Spec. cbn [st_r]. subst loaded.
    destruct (find _ _); cbn; repeat split; try exact Hinv; discriminate. }
  rewrite <- app_assoc.
  destruct (Spec_Type (ns_Spec loaded) =s? nbv1.NSStoreTypeNSFS) eqn:Ensfs.
  - unfold ReadSystemInfo_nsfs. apply wp_bind, wp_get_r. cbn [st_r].
    destruct Hloaded as (Hblocks & Hclient & Hsys). cbn [st_r] in *.
    unfold blocks_present in Hblocks. rewrite Ensfs in Hblocks.
    destruct (Spec_NSFS (ns_Spec loaded)) as [nsfs|] eqn:Eblock; [|discriminate].
    apply wp_bind, wp_modify_r, wp_ret.
    assert (Hgoal : connected (mkState
              (set_r_CreateNamespaceResourceParams
                 (Some (mkCreateNamespaceResourceParams (Name (ns_Meta loaded)) EmptyString EmptyString
                          (Some (mkNSFSConfig (NSFS_FsBackend nsfs) (NSFS_FsRootPath nsfs)))
                          (Some (mkNamespaceStoreInfo (Name (ns_Meta loaded)) options_Namespace))))
                 loaded)
              (st_log s ++ [Connect None] ++ [ReadSystemAPI (inl systemInfo)]))).
    { unfold connected, ns_Spec, blocks_present in *. cbn [st_r r_NamespaceStore r_NBClient r_SystemInfo
        set_r_CreateNamespaceResourceParams]. unfold ns_Spec in Ensfs, Eblock.
      rewrite Ensfs, Eblock. auto. }
    split; [apply Hgoal | intros _; exact Hgoal].
  - apply wp_bind.
    eapply wp_conseq;
      [apply MakeExternalConnectionParams_total;
       [cbn [st_r]; now apply String.eqb_neq | apply Hloaded]|].
    intros made s1 (Hblocks1 & Hclient1 & Hsys1). cbn [st_r] in *.
    assert (Hs1 : connected s1).
    { destruct Hloaded as (_ & Hclient & Hsys). cbn [st_r] in *.
      unfold connected. rewrite Hclient1, Hsys1. auto. }
    destruct made as [conn|e]; [|apply wp_ret; split; [exact Hblocks1 | discriminate]].
    eapply wp_conseq; [now apply ReadSystemInfo_reuse_total|].
    intros e s2 [_ Hs2]. split; [apply Hs2 | intros _; exact Hs2].
Qed.

Lemma SetPhase_total (phase reason message : string) (Q : unit -> State -> Prop) (s : State) :
  Q tt (mkState
          (set_r_NamespaceStore
             (set_Status (SetPhase_status (time_Now w) phase reason message (ns_Status (st_r s)))
                (r_NamespaceStore (st_r s))) (st_r s))
          (st_log s)) ->
  wp (SetPhase w phase reason message) Q s.
Proof. intros H. exact H. Qed.

Lemma ReconcileExternalConnection_total (s : State) :
  r_NBClient (st_r s) = true ->
  wp (ReconcileExternalConnection w) (fun _ s' => st_r s' = st_r s) s.
Proof.
  intros Hclient. unfold ReconcileExternalConnection. apply wp_bind, wp_get_r.
  destruct (r_ExternalConnectionInfo (st_r s)); [now apply wp_ret|].
  destruct (r_AddExternalConnectionParams (st_r s)) as [params|]; [|now apply wp_ret].
  apply wp_bind, wp_NBClient_call; [exact Hclient|].
  destruct (nb_CheckExternalConnectionAPI w (st_log s) params) as [res [e|]].
  - destruct e as [p|rpc|text]; try now apply wp_ret.
    destruct (RPCError_RPCCode rpc =s? "INVALID_SCHEMA_PARAMS"); now apply wp_ret.
  - repeat match goal with
           | |- wp (if ?b then _ else _) _ _ => destruct b
           end; try now apply wp_ret.
    apply wp_NBClient_call; [exact Hclient | reflexivity].
Qed.

Lemma ReconcileNamespaceStore_total (s : State) :
  r_NBClient (st_r s) = true ->
  wp (ReconcileNamespaceStore w) (fun _ _ => True) s.
Proof.
  intros Hclient. unfold ReconcileNamespaceStore. apply wp_bind, wp_get_r.
  destruct (r_NamespaceResourceinfo (st_r s)); [now apply wp_ret|].
  destruct (r_CreateNamespaceResourceParams (st_r s)); [|now apply wp_ret].
  now apply wp_NBClient_call.
Qed.

Lemma ReconcilePhases_total (s : State) :
  blocks_present (ns_Spec (st_r s)) = true ->
  wp (ReconcilePhases w) (fun _ _ => True) s.
Proof.
  intros Hinv. unfold ReconcilePhases. apply wp_orReturn.
  unfold ReconcilePhaseVerifying. apply wp_bind, SetPhase_total, wp_bind, wp_get_r.
  cbn [st_r st_log].
  assert (Hrest : forall s1, blocks_present (ns_Spec (st_r s1)) = true ->
            wp (orReturn (ReconcilePhaseConnecting w) (ReconcilePhaseCreating w))
              (fun _ _ => True) s1).
  { intros s1 H1. apply wp_orReturn. unfold ReconcilePhaseConnecting.
    apply wp_bind, SetPhase_total.
    eapply wp_conseq; [apply ReadSystemInfo_total; exact H1|].
    intros [e|] s2 [_ H2]; [exact I|]. destruct (H2 eq_refl) as (_ & Hclient & _).
    unfold ReconcilePhaseCreating. apply wp_bind, SetPhase_total, wp_orReturn.
    eapply wp_conseq; [apply ReconcileExternalConnection_total; exact Hclient|].
    intros [e|] s3 H3; [exact I|]. cbn [st_r] in H3.
    apply ReconcileNamespaceStore_total. rewrite H3. exact Hclient. }
  repeat match goal with
         | |- wp (if ?b then _ else _) _ _ => destruct b
         end; apply wp_ret; try exact I.
  now apply Hrest.
Qed.

Lemma FinalizeDeletion_total (s : State) : wp (FinalizeDeletion w) (fun _ _ => True) s.
Proof.
  unfold FinalizeDeletion. apply wp_bind, wp_modify_r, wp_bind.
  eapply wp_conseq; [apply KubeUpdate_total|].
  intros updated s1 _. destruct updated; cbn [negb]; [now apply wp_ret|].
  now apply wp_bind, wp_get_r, wp_ret.
Qed.

Lemma ReconcileDeletion_cleanup_total (s : State) :
  connected s -> wp (ReconcileDeletion_cleanup w) (fun _ _ => True) s.
Proof.
  intros (_ & Hclient & Hsys). unfold ReconcileDeletion_cleanup. apply wp_orReturn.
  assert (Hrest : forall s1, st_r s1 = st_r s ->
            wp (orReturn (ReconcileDeletion_connection w) (FinalizeDeletion w))
              (fun _ _ => True) s1).
  { intros s1 H1. apply wp_orReturn.
    destruct (ReconcileDeletion_connection_calls s1) as (err & s2 & Hrun & _);
      [now rewrite H1|].
    unfold wp. rewrite Hrun. destruct err; [exact I | apply FinalizeDeletion_total]. }
  destruct (r_NamespaceResourceinfo (st_r s)) as [nsr|] eqn:Hnsr.
  - destruct (r_SystemInfo (st_r s)) as [systemInfo|] eqn:Hsystem; [|congruence].
    destruct (ReconcileDeletion_resource_calls s nsr systemInfo Hnsr Hsystem Hclient)
      as (err & s1 & new & Hrun & Hr & _).
    unfold wp at 1. rewrite Hrun. destruct err; [exact I | now apply Hrest].
  - unfold ReconcileDeletion_resource. apply wp_bind, wp_get_r. rewrite Hnsr.
    apply wp_ret. now apply Hrest.
Qed.

Lemma ReconcileDeletion_total (s : State) :
  blocks_present (ns_Spec (st_r s)) = true ->
  wp (ReconcileDeletion w) (fun _ _ => True) s.
Proof.
  intros Hinv. unfold ReconcileDeletion, ReconcileDeletion_announce.
  apply wp_orReturn, wp_bind, wp_get_r.
  assert (Hrest : forall s1, blocks_present (ns_Spec (st_r s1)) = true ->
            wp (r <- get_r;
                if UID (NooBaa_Meta (r_NooBaa r)) =s? EmptyString then FinalizeDeletion w
                else orReturn (ReadSystemInfo w) (ReconcileDeletion_cleanup w))
              (fun _ _ => True) s1).
  { intros s1 H1. apply wp_bind, wp_get_r.
    destruct (_ =s? EmptyString); [apply FinalizeDeletion_total|].
    apply wp_orReturn. eapply wp_conseq; [apply ReadSystemInfo_total; exact H1|].
    intros [e|] s2 [_ H2]; [exact I|]. apply ReconcileDeletion_cleanup_total. now apply H2. }
  destruct (negb _).
  - apply wp_bind, SetPhase_total. unfold UpdateStatus. apply wp_bind, wp_get_r, wp_call.
    destruct (Client_Status_Update w _ _); [exact I|]. now apply Hrest.
  - apply wp_ret. now apply Hrest.
Qed.

Lemma Reconcile_run_total (s : State) :
  blocks_present (ns_Spec (st_r s)) = true ->
  wp (Reconcile_run w) (fun _ _ => True) s.
Proof.
  intros Hinv. unfold Reconcile_run, CheckSystem. apply wp_bind.
  eapply wp_conseq; [apply KubeCheck_NooBaa_total|]. intros ? s1 H1.
  assert (Hinv1 : blocks_present (ns_Spec (st_r s1)) = true)
    by (unfold ns_Spec; now rewrite H1).
  assert (Hrest : forall s2, blocks_present (ns_Spec (st_r s2)) = true ->
            wp (r <- get_r;
                match DeletionTimestamp (ns_Meta r) with
                | Some _ => ReconcileDeletion w
                | None => ReconcilePhases w
                end) (fun _ _ => True) s2).
  { intros s2 H2. apply wp_bind, wp_get_r.
    destruct (DeletionTimestamp _); [now apply ReconcileDeletion_total
                                     | now apply ReconcilePhases_total]. }
  apply wp_orReturn. unfold LoadNamespaceStoreSecret. apply wp_bind, wp_get_r.
  destruct (GetNamespaceStoreSecret _) as [secretRef|].
  - apply wp_bind, wp_modify_r, wp_bind.
    eapply wp_conseq; [apply KubeCheck_Secret_total|]. intros ? s2 H2. cbn [st_r] in H2.
    apply wp_ret. apply Hrest. unfold ns_Spec. rewrite H2. exact Hinv1.
  - apply wp_ret. now apply Hrest.
Qed.

End Polite.

Lemma Reconcile_react_total (err : option error) (res : Result) (s : State) :
  wp (Reconcile_react w err res) (fun res' _ => Requeue res' = Requeue res) s.
Proof.
  unfold Reconcile_react.
  destruct err as [[perr|rpc|text]|].
  - apply wp_bind, SetPhase_total, wp_bind, wp_get_r, wp_bind. cbn [st_r].
    destruct (r_Recorder _); [apply wp_emit | apply wp_ret]; now apply wp_ret.
  - now apply wp_bind, SetPhase_total, wp_ret.
  - now apply wp_bind, SetPhase_total, wp_ret.
  - apply wp_bind, wp_get_r.
    destruct (nsrModeInfoMap !! _) as [info|];
      [destruct (negb _)|].
    + apply wp_bind, SetPhase_total, wp_bind.
      destruct (r_Recorder _); [apply wp_emit | apply wp_ret]; now apply wp_ret.
    + now apply wp_bind, SetPhase_total, wp_ret.
    + now apply wp_bind, SetPhase_total, wp_ret.
Qed.

Lemma Reconcile_finish_total (err : option error) (s : State) :
  wp (Reconcile_finish w err (mkResult false 0)) (fun result _ => absorbed result) s.
Proof.
  unfold Reconcile_finish. apply wp_bind.
  eapply wp_conseq; [apply Reconcile_react_total|]. intros res1 s1 Hres1.
  unfold UpdateStatus. apply wp_bind, wp_bind, wp_get_r, wp_call, wp_ret.
  split; [reflexivity|]. cbn [fst]. destruct (Client_Status_Update w _ _); exact Hres1.
Qed.

Lemma Reconcile_total (s : State) :
  polite w ->
  blocks_present (ns_Spec (st_r s)) = true ->
  wp (Reconcile w) (fun result _ => absorbed result) s.
Proof.
  intros Hpolite Hinv. unfold Reconcile. apply wp_bind.
  eapply wp_conseq; [now apply KubeCheck_NamespaceStore_total|]. intros ? s1 H1.
  apply wp_bind, wp_get_r.
  destruct (_ =s? EmptyString); [apply wp_ret; split; reflexivity|].
  destruct (EnsureCommonMetaFields _ _) as [meta ensured].
  apply wp_bind, wp_modify_r, wp_bind.
  assert (Hrest : forall s2, blocks_present (ns_Spec (st_r s2)) = true ->
            wp (err <- Reconcile_run w; Reconcile_finish w err (mkResult false 0))
              (fun result _ => absorbed result) s2).
  { intros s2 H2. apply wp_bind.
    eapply wp_conseq; [now apply Reconcile_run_total|]. intros err s3 _.
    apply Reconcile_finish_total. }
  destruct ensured.
  - eapply wp_conseq; [now apply KubeUpdate_total|]. intros updated s2 H2. cbn [st_r] in H2.
    destruct updated; cbn [negb]; [|apply wp_ret; split; reflexivity].
    apply Hrest. rewrite H2. exact H1.
  - apply wp_ret. cbn [negb]. apply Hrest. exact H1.
Qed.

Lemma Reconcile_finish_absorbed (err : option error) (s : State)
    (result : Result * option error) (s' : State) :
  Reconcile_finish w err (mkResult false 0) s = Returned result s' -> absorbed result.
Proof.
  pose proof (Reconcile_finish_total err s) as H. unfold wp in H.
  intros E. rewrite E in H. exact H.
Qed.

(** C2. Every pair [Reconcile] returns has a nil error (and asks for no
    immediate requeue: a retry is asked through requeue-after alone); and
    [Reconcile] does return, for a well-formed record and a cluster that
    answers with the errors the helpers of [util] know and with well-formed
    records (any other cluster error goes to [util.Panic], which returns
    nothing): the failures of the run are left in the status and in the
    requeue-after of the result. *)
Theorem Reconcile_error_is_nil (s : State) :
  (forall res err s',
     Reconcile w s = Returned (res, err) s' -> err = None /\ Requeue res = false) /\
  (polite w -> blocks_present (ns_Spec (st_r s)) = true ->
   exists res s', Reconcile w s = Returned (res, None) s').
Proof.
  split.
  - intros res err s'. unfold Reconcile, bind.
    destruct (KubeCheck_NamespaceStore w s) as [found s1|s1]; [|discriminate].
    unfold get_r at 1.
    destruct (_ =s? EmptyString); [intros H; injection H as <- <- _; split; reflexivity|].
    destruct (EnsureCommonMetaFields _ _) as [meta ensured]. unfold modify_r.
    destruct ((if ensured then KubeUpdate w else ret true) _) as [updated s2|s2];
      [|discriminate].
    destruct updated; cbn [negb];
      [|intros H; injection H as <- <- _; split; reflexivity].
    destruct (Reconcile_run w s2) as [e s3|s3]; [|discriminate].
    intros H. exact (Reconcile_finish_absorbed _ _ _ _ H).
  - intros Hpolite Hinv. destruct (wp_Returned _ _ _ (Reconcile_total s Hpolite Hinv))
      as ([res err] & s' & Hrun & Herr & _). cbn [snd] in Herr. subst err.
    now exists res, s'.
Qed.

End Properties.

(** * The properties on sample runs *)

(** C8 on two lists: a persistent error after others wins in any order;
    without one, the first error stands. *)
Lemma CombineErrors_persistent_wins_witness :
  let late := [Some (errorString "timeout"); None;
               Some (PersistentErr (NewPersistentError "InvalidType" "bad type"))] in
  let plain := [None; Some (errorString "timeout"); Some (errorString "again")] in
  IsPersistentError (CombineErrors late) = true /\
  IsPersistentError (CombineErrors (rev late)) = true /\
  CombineErrors plain = Some (errorString "timeout").
Proof.
  intros late plain.
  pose proof (CombineErrors_persistent_wins late) as [Hwins _].
  pose proof (CombineErrors_persistent_wins plain) as [_ Hfirst].
  split; [|split].
  - apply (Hwins eq_refl eq_refl late). apply Permutation_refl.
  - apply (Hwins eq_refl eq_refl (rev late)). apply Permutation_rev.
  - exact (Hfirst eq_refl).
Defined.

(** C4 on a record created at the instant 0 whose secret creds does not
    resolve, the parent system being there: at second 1 the error is not
    persistent, at minute 6 it is MissingSecret. *)
Lemma ReconcilePhaseVerifying_secret_grace_witness :
  let s := mkState (loaded (sample_record aws_Spec empty_Status) true false ∅) [] in
  let young := calm_world (1 * Second) (sample_record aws_Spec empty_Status) empty_SystemInfo
                 nb.ExternalConnectionSuccess in
  let old := calm_world (6 * Minute) (sample_record aws_Spec empty_Status) empty_SystemInfo
               nb.ExternalConnectionSuccess in
  (exists text s', ReconcilePhaseVerifying young s = Returned (Some (errorString text)) s') /\
  (exists message s',
     ReconcilePhaseVerifying old s
     = Returned (Some (PersistentErr (NewPersistentError "MissingSecret" message))) s').
Proof.
  intros s young old.
  assert (Hsys : UID (NooBaa_Meta (r_NooBaa (st_r s))) <> EmptyString)
    by (vm_compute; discriminate).
  assert (Hname : Name (Secret_Meta (r_Secret (st_r s))) <> EmptyString)
    by (vm_compute; discriminate).
  assert (Huid : UID (Secret_Meta (r_Secret (st_r s))) = EmptyString) by reflexivity.
  split.
  - destruct (ReconcilePhaseVerifying_secret_grace young s Hsys Hname Huid)
      as (e & s' & Hrun & Hyoung & _).
    destruct Hyoung as [text ->]; [vm_compute; reflexivity|]. now exists text, s'.
  - destruct (ReconcilePhaseVerifying_secret_grace old s Hsys Hname Huid)
      as (e & s' & Hrun & _ & Hold).
    destruct Hold as [message ->]; [vm_compute; discriminate|]. now exists message, s'.
Defined.

(** C4 as stated fails when the parent system is missing: the same young
    record with an unresolved secret is rejected at once, with the persistent
    error MissingSystem. *)
Lemma ReconcilePhaseVerifying_missing_system_counterexample :
  let r := loaded (sample_record aws_Spec empty_Status) false false ∅ in
  let w := calm_world (1 * Second) (sample_record aws_Spec empty_Status) empty_SystemInfo
             nb.ExternalConnectionSuccess in
  Name (Secret_Meta (r_Secret r)) = "creds" /\
  UID (Secret_Meta (r_Secret r)) = EmptyString /\
  time_Now w - CreationTimestamp (ns_Meta r) < 5 * Minute /\
  exists message s',
    ReconcilePhaseVerifying w (mkState r [])
    = Returned (Some (PersistentErr (NewPersistentError "MissingSystem" message))) s'.
Proof.
  intros r w. split; [reflexivity|]. split; [reflexivity|]. split; [reflexivity|].
  eexists _, _. vm_compute. reflexivity.
Qed.

(** C5 on store-1 with a descriptor to register: invalid credentials at
    second 1 give an error that is not persistent and no registration, at
    minute 6 a persistent error; success registers the connection. *)
Lemma ReconcileExternalConnection_check_status_witness :
  let record := sample_record aws_Spec empty_Status in
  let s := mkState (set_r_AddExternalConnectionParams (Some aws_conn)
                      (set_r_NBClient true (loaded record true true aws_keys))) [] in
  let young := calm_world (1 * Second) record empty_SystemInfo
                 nb.ExternalConnectionInvalidCredentials in
  let old := calm_world (6 * Minute) record empty_SystemInfo
               nb.ExternalConnectionInvalidCredentials in
  let fine := calm_world (6 * Minute) record empty_SystemInfo nb.ExternalConnectionSuccess in
  (exists text s', ReconcileExternalConnection young s = Returned (Some (errorString text)) s'
                   /\ existsb is_connection_call (tl (st_log s')) = false) /\
  (exists message s',
     ReconcileExternalConnection old s
     = Returned (Some (PersistentErr
                   (NewPersistentError nb.ExternalConnectionInvalidCredentials message))) s') /\
  (exists s', ReconcileExternalConnection fine s = Returned None s' /\
              map is_connection_call (st_log s') = [true; true]).
Proof.
  intros record s young old fine.
  split; [|split].
  - destruct (ReconcileExternalConnection_check_status young s aws_conn
                (mkCheckExternalConnectionReply nb.ExternalConnectionInvalidCredentials
                   EmptyString EmptyString) eq_refl eq_refl eq_refl eq_refl)
      as (err & s' & Hrun & _ & _ & Hother & Hcreds & _).
    destruct Hother as [Hlog _]; [vm_compute; discriminate|].
    destruct Hcreds as [Hyoung _]; [left; reflexivity|].
    destruct Hyoung as [text ->]; [vm_compute; reflexivity|].
    exists text, s'. split; [exact Hrun|]. rewrite Hlog. reflexivity.
  - destruct (ReconcileExternalConnection_check_status old s aws_conn
                (mkCheckExternalConnectionReply nb.ExternalConnectionInvalidCredentials
                   EmptyString EmptyString) eq_refl eq_refl eq_refl eq_refl)
      as (err & s' & Hrun & _ & _ & _ & Hcreds & _).
    destruct Hcreds as [_ Hold]; [left; reflexivity|].
    destruct Hold as [message ->]; [vm_compute; discriminate|].
    now exists message, s'.
  - destruct (ReconcileExternalConnection_check_status fine s aws_conn
                (mkCheckExternalConnectionReply nb.ExternalConnectionSuccess
                   EmptyString EmptyString) eq_refl eq_refl eq_refl eq_refl)
      as (err & s' & Hrun & _ & Hsuccess & _).
    destruct Hsuccess as [-> Hlog]; [reflexivity|].
    exists s'. split; [exact Hrun|]. rewrite Hlog. reflexivity.
Defined.

(** C1 on [shared_SystemInfo]: conn-a and conn-b are both the connection of
    the descriptor, conn-b is the last of the scan, and conn-b is adopted. *)
Lemma ReadSystemInfo_reuse_last_match_witness :
  let w := calm_world 0 (sample_record aws_Spec empty_Status) shared_SystemInfo
             nb.ExternalConnectionSuccess in
  let s := mkState (set_r_NBClient true
                      (loaded (sample_record aws_Spec empty_Status) true true aws_keys)) [] in
  exists s',
    ReadSystemInfo_reuse shared_SystemInfo aws_conn s = Returned None s' /\
    r_ExternalConnectionInfo (st_r s') = Some conn_b /\
    option_map Conn_Name (r_AddExternalConnectionParams (st_r s')) = Some "conn-b" /\
    ReconcileExternalConnection w s' = Returned None s'.
Proof.
  intros w s.
  destruct (ReadSystemInfo_reuse_last_match w shared_SystemInfo aws_conn s
              [conn_a] [conn_c] conn_b eq_refl eq_refl eq_refl)
    as (s' & Hrun & Hinfo & Hparams & _ & _ & Hnocall).
  exists s'. split; [exact Hrun|]. split; [exact Hinfo|]. split; [|exact Hnocall].
  rewrite Hparams. reflexivity.
Defined.

(** C1 as stated fails when more than one connection matches: of conn-a and
    conn-b, found in this order, [ReadSystemInfo] adopts conn-b, the last,
    not the first. *)
Lemma ReadSystemInfo_first_match_counterexample :
  let w := calm_world 0 (sample_record aws_Spec empty_Status) shared_SystemInfo
             nb.ExternalConnectionSuccess in
  let s := mkState (loaded (sample_record aws_Spec empty_Status) true true aws_keys) [] in
  exists s' conn,
    ReadSystemInfo w s = Returned None s' /\
    r_AddExternalConnectionParams (st_r s') = Some conn /\
    List.filter (same_connection conn) (all_connections shared_SystemInfo) = [conn_a; conn_b] /\
    r_ExternalConnectionInfo (st_r s') = Some conn_b /\
    Conn_Name conn = "conn-b".
Proof.
  intros w s. eexists _, _. split; [vm_compute; reflexivity|].
  split; [reflexivity|]. repeat split; reflexivity.
Qed.

(** C3 as stated fails on two counts. The parent system of store-1 is
    missing, a persistent error of the Verifying phase, and the phase becomes
    Rejected under the reason MissingSystem; but the reconciler has no event
    recorder, so no event is sent, and the status update fails, so
    requeue-after is 3 seconds. *)
Lemma Reconcile_persistent_error_counterexample :
  let w := orphan_world (10 * Minute) (sample_record nsfs_Spec empty_Status) in
  exists res s',
    Reconcile w (fresh false) = Returned (res, None) s' /\
    Status_Phase (ns_Status (st_r s')) = nbv1.NamespaceStorePhaseRejected /\
    option_map Condition_Reason
      (FindStatusCondition (Status_Conditions (ns_Status (st_r s')))
         conditionsv1.ConditionDegraded) = Some "MissingSystem" /\
    event_types (st_log s') = [] /\
    RequeueAfter res = 3 * Second.
Proof.
  intros w. eexists _, _. split; [vm_compute; reflexivity|].
  repeat split; reflexivity.
Qed.

(** C2 on a full pass over store-1 in a calm world. *)
Lemma calm_world_polite (now : Time) (record : NamespaceStore) (systemInfo : SystemInfo)
    (status : string) :
  blocks_present (NamespaceStore_Spec record) = true ->
  polite (calm_world now record systemInfo status).
Proof.
  intros Hrecord. unfold polite, calm_world; cbn.
  repeat split; intros; try discriminate.
  match goal with H : inl _ = inl _ |- _ => injection H as <- end. exact Hrecord.
Defined.

Lemma Reconcile_error_is_nil_witness :
  let w := calm_world (10 * Minute) (sample_record aws_Spec empty_Status) empty_SystemInfo
             nb.ExternalConnectionSuccess in
  (forall res err s',
     Reconcile w (fresh true) = Returned (res, err) s' -> err = None /\ Requeue res = false) /\
  exists res s', Reconcile w (fresh true) = Returned (res, None) s'.
Proof.
  intros w. destruct (Reconcile_error_is_nil w (fresh true)) as [Hnil Hreturns].
  split; [exact Hnil|].
  apply Hreturns; [apply calm_world_polite|]; reflexivity.
Defined.

(** C6 on store-1 in deletion while the namespace resource has buckets
    attached: the attempt returns an error, the finalizer stays, no update of
    the record is sent; and so it is for the whole pass of [Reconcile] over
    the record marked for deletion, which asks to be called again in 3
    seconds. *)
Lemma ReconcileDeletion_cleanup_finalizer_gate_witness :
  let w := in_use_world (10 * Minute) deleted_record shared_SystemInfo in
  let s := mkState deleting [] in
  (exists text s',
     ReconcileDeletion_cleanup w s = Returned (Some (errorString text)) s' /\
     Finalizers (ns_Meta (st_r s')) = [nbv1.Finalizer] /\
     existsb is_KubeUpdate (st_log s') = false) /\
  (exists res s',
     Reconcile w (fresh true) = Returned (res, None) s' /\
     existsb resource_delete_in_use (st_log s') = true /\
     Finalizers (ns_Meta (st_r s')) = [nbv1.Finalizer] /\
     existsb is_KubeUpdate (st_log s') = false /\
     RequeueAfter res = 3 * Second).
Proof.
  intros w s. split.
  - destruct (ReconcileDeletion_cleanup_finalizer_gate w s
                (mkNamespaceResourceInfo "store-1" nb.EndpointTypeAws "https://s3.amazonaws.com"
                   EmptyString) shared_SystemInfo eq_refl eq_refl eq_refl)
      as (new & Hlog & Hinuse & _).
    cbn [st_log s app] in Hlog. rewrite <- Hlog in Hinuse.
    destruct Hinuse as ([text Hout] & Hr & Hkube); [vm_compute; reflexivity|].
    exists text, (final (ReconcileDeletion_cleanup w s)).
    split; [exact Hout|]. split; [rewrite Hr; reflexivity | exact Hkube].
  - eexists _, _. split; [vm_compute; reflexivity|]. repeat split; reflexivity.
Defined.

(** C9 on store-1 in deletion: the two accounts whose default resource is
    store-1 are reset to system-internal-pool, the first pool of resource
    type INTERNAL, in their order, before the resource is deleted. *)
Lemma ReconcileDeletion_resets_accounts_first_witness :
  let w := calm_world (10 * Minute) (sample_record aws_Spec empty_Status) shared_SystemInfo
             nb.ExternalConnectionSuccess in
  let s := mkState deleting [] in
  first_internal_pool (SystemInfo_Pools shared_SystemInfo)
    (mkPoolInfo "system-internal-pool" "INTERNAL") /\
  exists s',
    ReconcileDeletion_resource w s = Returned None s' /\
    st_log s'
    = [UpdateAccountS3Access
         (mkUpdateAccountS3AccessParams "admin@noobaa.io" true (Some "system-internal-pool")
            (Some (mkAccountAllowedBuckets true (Some [])))) None;
       UpdateAccountS3Access
         (mkUpdateAccountS3AccessParams "ops@noobaa.io" true (Some "system-internal-pool")
            (Some (mkAccountAllowedBuckets true (Some [])))) None;
       DeleteNamespaceResourceAPI "store-1" None].
Proof.
  intros w s.
  assert (Hfirst : first_internal_pool (SystemInfo_Pools shared_SystemInfo)
                     (mkPoolInfo "system-internal-pool" "INTERNAL")).
  { exists [mkPoolInfo "pool-x" "HOSTS"], []. split; [reflexivity|]. split; [reflexivity|].
    constructor; [discriminate | constructor]. }
  split; [exact Hfirst|].
  destruct (ReconcileDeletion_resets_accounts_first w s
              (mkNamespaceResourceInfo "store-1" nb.EndpointTypeAws "https://s3.amazonaws.com"
                 EmptyString) shared_SystemInfo eq_refl eq_refl eq_refl)
    as (target & err & s' & new & _ & Hrun & _ & Hlog & _).
  assert (Herr : err = None).
  { assert (H : ReconcileDeletion_resource w s
                = Returned None (final (ReconcileDeletion_resource w s)))
      by (vm_compute; reflexivity).
    rewrite Hrun in H. now injection H. }
  subst err. exists s'. split; [exact Hrun|].
  assert (H : st_log (final (ReconcileDeletion_resource w s)) = _) by (vm_compute; reflexivity).
  rewrite Hrun in H. exact H.
Defined.

(** C9 as stated fails on a system that lists no pool of resource type
    INTERNAL: the two accounts whose default resource is store-1 are not
    reset to an internal pool, as there is none, but to the empty name, and
    the resource is deleted after that. *)
Lemma ReconcileDeletion_no_internal_pool_counterexample :
  let w := calm_world (10 * Minute) (sample_record aws_Spec empty_Status) poolless_SystemInfo
             nb.ExternalConnectionSuccess in
  let s := mkState deleting_poolless [] in
  r_SystemInfo (st_r s) = Some poolless_SystemInfo /\
  no_internal_pool (SystemInfo_Pools poolless_SystemInfo) /\
  exists s',
    ReconcileDeletion_resource w s = Returned None s' /\
    st_log s'
    = [UpdateAccountS3Access
         (mkUpdateAccountS3AccessParams "admin@noobaa.io" true (Some EmptyString)
            (Some (mkAccountAllowedBuckets true (Some [])))) None;
       UpdateAccountS3Access
         (mkUpdateAccountS3AccessParams "ops@noobaa.io" true (Some EmptyString)
            (Some (mkAccountAllowedBuckets true (Some [])))) None;
       DeleteNamespaceResourceAPI "store-1" None].
Proof.
  intros w s. split; [reflexivity|]. split.
  - constructor; [discriminate | constructor].
  - exists (final (ReconcileDeletion_resource w s)). split; vm_compute; reflexivity.
Qed.

(** C10 on an NSFS record whose secret holds a control character: the
    Connecting phase passes and nothing is asked of the connection API, while
    the same secret has the descriptor of an AWS record rejected. *)
Lemma ReadSystemInfo_nsfs_skips_connection_witness :
  let bell := String (Ascii.ascii_of_nat 7) EmptyString in
  let keys := <[ "AWS_ACCESS_KEY_ID" := bell ]> aws_keys in
  let w := calm_world 0 (sample_record nsfs_Spec empty_Status) empty_SystemInfo
             nb.ExternalConnectionSuccess in
  let s := mkState (loaded (sample_record nsfs_Spec empty_Status) true true keys) [] in
  let s_aws := mkState (loaded (sample_record aws_Spec empty_Status) true true keys) [] in
  (exists s',
     ReadSystemInfo w s = Returned None s' /\
     r_AddExternalConnectionParams (st_r s') = None /\
     ReconcileExternalConnection w s' = Returned None s') /\
  (exists message s',
     ReadSystemInfo w s_aws
     = Returned (Some (PersistentErr (NewPersistentError "InvalidSecret" message))) s').
Proof.
  intros bell keys w s s_aws. split.
  - destruct (ReadSystemInfo_nsfs_skips_connection w s (mkNSFSSpec "GPFS" "/mnt/fs")
                eq_refl eq_refl)
      as (err & s' & Hrun & Hparams & _ & _ & _ & Hread & Hnocall).
    cbn in Hread. destruct Hread as (-> & _ & _).
    exists s'. split; [exact Hrun|]. split; [rewrite Hparams; reflexivity|].
    apply Hnocall. reflexivity.
  - eexists _, _. vm_compute. reflexivity.
Defined.

(** C7 on two passes over store-1, whose mode is AUTH_FAILED all along. The
    first pass sets the phase Rejected and sends a warning event. The second
    pass starts from the record the first one published, phase Rejected:
    the phases set the phase in memory to Creating before the mode is looked
    at, so the phase of the mode differs again from the phase of the record,
    and the same warning event is sent a second time. *)
Theorem Reconcile_mode_event_repeats :
  let record := sample_record aws_Spec (mkNamespaceStoreStatus EmptyString [] "AUTH_FAILED") in
  let first := Reconcile (calm_world (10 * Minute) record empty_SystemInfo
                            nb.ExternalConnectionSuccess) (fresh true) in
  let published := r_NamespaceStore (st_r (final first)) in
  let second := Reconcile (calm_world (11 * Minute) published shared_SystemInfo
                             nb.ExternalConnectionSuccess) (fresh true) in
  Status_ModeCode (NamespaceStore_Status published) = "AUTH_FAILED" /\
  Status_Phase (NamespaceStore_Status published) = nbv1.NamespaceStorePhaseRejected /\
  event_types (st_log (final first)) = [corev1.EventTypeWarning] /\
  Status_Phase (ns_Status (st_r (final second))) = nbv1.NamespaceStorePhaseRejected /\
  event_types (st_log (final second)) = [corev1.EventTypeWarning].
Proof.
  intros record first published second. vm_compute. repeat split; reflexivity.
Qed.

(** * Further properties *)

(** ** Finalizers and the mandatory metadata *)

Lemma Contains_app (s : string) (l1 l2 : list string) :
  Contains s (l1 ++ l2) = Contains s l1 || Contains s l2.
Proof.
  induction l1 as [|b l1 IH]; simpl; [reflexivity|].
  destruct (b =s? s); [reflexivity|exact IH].
Qed.

Lemma RemoveFinalizer_loop_filter (finalizers : list string) (finalizer : string) :
  RemoveFinalizer_loop finalizers finalizer
  = (List.filter (fun f => negb (f =s? finalizer)) finalizers, Contains finalizer finalizers).
Proof.
  induction finalizers as [|f fs IH]; simpl; [reflexivity|].
  rewrite IH. destruct (f =s? finalizer); reflexivity.
Qed.

Lemma Contains_filter_out (finalizer : string) (finalizers : list string) :
  Contains finalizer (List.filter (fun f => negb (f =s? finalizer)) finalizers) = false.
Proof.
  induction finalizers as [|f fs IH]; simpl; [reflexivity|].
  destruct (f =s? finalizer) eqn:E; simpl; [exact IH|].
  rewrite E. exact IH.
Qed.

Lemma Contains_filter_other (finalizer other : string) (finalizers : list string) :
  other <> finalizer ->
  Contains other (List.filter (fun f => negb (f =s? finalizer)) finalizers)
  = Contains other finalizers.
Proof.
  intros Hne. induction finalizers as [|f fs IH]; simpl; [reflexivity|].
  destruct (f =s? finalizer) eqn:E; simpl.
  - apply String.eqb_eq in E. subst f.
    destruct (finalizer =s? other) eqn:E'; [|exact IH].
    apply String.eqb_eq in E'. congruence.
  - rewrite IH. reflexivity.
Qed.

Lemma filter_absent (finalizer : string) (finalizers : list string) :
  Contains finalizer finalizers = false ->
  List.filter (fun f => negb (f =s? finalizer)) finalizers = finalizers.
Proof.
  induction finalizers as [|f fs IH]; simpl; [reflexivity|].
  destruct (f =s? finalizer); [discriminate|]. intros H. simpl. now rewrite IH.
Qed.

Lemma set_Finalizers_same (obj : ObjectMeta) : set_Finalizers (Finalizers obj) obj = obj.
Proof. destruct obj; reflexivity. Qed.

(** X1. [RemoveFinalizer] removes every occurrence of the finalizer and
    nothing else: it reports whether the finalizer was among the finalizers
    of the object; the finalizers left are the other ones, in their order,
    and the finalizer is not among them; whether any other finalizer is there
    is unchanged; and an object that did not have the finalizer is left as it
    was. *)
Theorem RemoveFinalizer_removes_every_occurrence (obj : ObjectMeta) (finalizer : string) :
  let '(obj', found) := RemoveFinalizer obj finalizer in
  found = Contains finalizer (Finalizers obj) /\
  Contains finalizer (Finalizers obj') = false /\
  Finalizers obj' = List.filter (fun f => negb (f =s? finalizer)) (Finalizers obj) /\
  (forall other, other <> finalizer ->
     Contains other (Finalizers obj') = Contains other (Finalizers obj)) /\
  (found = false -> obj' = obj).
Proof.
  unfold RemoveFinalizer. rewrite RemoveFinalizer_loop_filter. simpl.
  repeat split.
  - apply Contains_filter_out.
  - intros other Hne. now apply Contains_filter_other.
  - intros Habsent. rewrite (filter_absent _ _ Habsent). apply set_Finalizers_same.
Qed.

(** X2. Adding a finalizer the object does not have appends it to the
    finalizers and reports a change, and removing it again gives back the
    object as it was. *)
Theorem AddFinalizer_RemoveFinalizer_round_trip (obj : ObjectMeta) (finalizer : string) :
  Contains finalizer (Finalizers obj) = false ->
  AddFinalizer obj finalizer = (set_Finalizers (Finalizers obj ++ [finalizer]) obj, true) /\
  RemoveFinalizer (fst (AddFinalizer obj finalizer)) finalizer = (obj, true).
Proof.
  intros Habsent. unfold AddFinalizer. rewrite Habsent. simpl. split; [reflexivity|].
  unfold RemoveFinalizer. rewrite RemoveFinalizer_loop_filter. simpl.
  rewrite List.filter_app, (filter_absent _ _ Habsent). simpl.
  rewrite String.eqb_refl. simpl. rewrite app_nil_r, Contains_app. simpl.
  rewrite String.eqb_refl, orb_true_r.
  destruct obj; reflexivity.
Qed.

Lemma AddFinalizer_Contains (obj : ObjectMeta) (finalizer : string) :
  Contains finalizer (Finalizers (fst (AddFinalizer obj finalizer))) = true.
Proof.
  unfold AddFinalizer. destruct (Contains finalizer (Finalizers obj)) eqn:E; simpl.
  - exact E.
  - rewrite Contains_app. simpl. rewrite String.eqb_refl. apply orb_true_r.
Qed.

Lemma AddFinalizer_Labels (obj : ObjectMeta) (finalizer : string) :
  Labels (fst (AddFinalizer obj finalizer)) = Labels obj.
Proof. unfold AddFinalizer. destruct (negb _); reflexivity. Qed.

Lemma AddFinalizer_again (obj : ObjectMeta) (finalizer : string) :
  AddFinalizer (fst (AddFinalizer obj finalizer)) finalizer
  = (fst (AddFinalizer obj finalizer), false).
Proof.
  unfold AddFinalizer at 1. now rewrite AddFinalizer_Contains.
Qed.

(** The labels [EnsureCommonMetaFields] leaves on the object. *)
Lemma EnsureCommonMetaFields_Labels (object : ObjectMeta) (finalizer : string) :
  Labels (fst (EnsureCommonMetaFields object finalizer))
  = Some (match Labels object with
          | None => {[ "app" := "noobaa" ]}
          | Some labels => <[ "app" := "noobaa" ]> labels
          end).
Proof.
  unfold EnsureCommonMetaFields.
  destruct (Labels object) as [labels|] eqn:El.
  - destruct (negb _) eqn:E.
    + destruct (AddFinalizer _ finalizer) as [o2 added] eqn:Ea. simpl.
      change o2 with (fst (o2, added)). rewrite <- Ea, AddFinalizer_Labels. reflexivity.
    + destruct (AddFinalizer _ finalizer) as [o2 added] eqn:Ea. simpl.
      change o2 with (fst (o2, added)). rewrite <- Ea, AddFinalizer_Labels, El.
      f_equal. apply negb_false_iff, String.eqb_eq in E.
      destruct (labels !! "app") as [v|] eqn:Ev; simpl in E.
      * subst v. symmetry. now apply insert_id.
      * discriminate.
  - destruct (AddFinalizer _ finalizer) as [o2 added] eqn:Ea. simpl.
    change o2 with (fst (o2, added)). rewrite <- Ea, AddFinalizer_Labels. reflexivity.
Qed.

Lemma EnsureCommonMetaFields_fst (object : ObjectMeta) (finalizer : string) :
  fst (EnsureCommonMetaFields object finalizer) = fst (AddFinalizer (relabelled object) finalizer).
Proof.
  unfold EnsureCommonMetaFields, relabelled.
  destruct (Labels object) as [labels|] eqn:El.
  - destruct (negb _) eqn:E.
    + destruct (AddFinalizer _ finalizer) as [o2 added]. reflexivity.
    + apply negb_false_iff, String.eqb_eq in E.
      destruct (labels !! "app") as [v|] eqn:Ev; simpl in E; [subst v|discriminate].
      rewrite (insert_id labels "app" "noobaa" Ev), <- El.
      replace (set_Labels (Labels object) object) with object by (destruct object; reflexivity).
      destruct (AddFinalizer object finalizer) as [o2 added]. reflexivity.
  - destruct (AddFinalizer _ finalizer) as [o2 added]. reflexivity.
Qed.

(** X3. [EnsureCommonMetaFields] is idempotent: on the object it leaves, a
    second call changes nothing and reports no update. After the first call
    the object has the finalizer and the label app=noobaa, its other labels
    are as before, and the finalizers it had are still there. *)
Theorem EnsureCommonMetaFields_idempotent (object : ObjectMeta) (finalizer : string) :
  let object' := fst (EnsureCommonMetaFields object finalizer) in
  EnsureCommonMetaFields object' finalizer = (object', false) /\
  Contains finalizer (Finalizers object') = true /\
  (exists labels, Labels object' = Some labels /\ labels !! "app" = Some "noobaa" /\
     forall key, key <> "app" ->
       labels !! key = match Labels object with Some l => l !! key | None => None end) /\
  (forall other, Contains other (Finalizers object) = true ->
     Contains other (Finalizers object') = true).
Proof.
  cbv zeta. rewrite EnsureCommonMetaFields_fst.
  assert (Hl : exists labels,
             Labels (fst (AddFinalizer (relabelled object) finalizer)) = Some labels /\
             labels !! "app" = Some "noobaa" /\
             forall key, key <> "app" ->
               labels !! key = match Labels object with Some l => l !! key | None => None end).
  { rewrite AddFinalizer_Labels. unfold relabelled. simpl.
    eexists. split; [reflexivity|].
    destruct (Labels object) as [labels|].
    - split; [apply lookup_insert_eq|].
      intros key Hkey. apply lookup_insert_ne. congruence.
    - split; [apply lookup_singleton_eq|].
      intros key Hkey. apply lookup_singleton_ne. congruence. }
  repeat split.
  - destruct Hl as (labels & Hlabels & Happ & _).
    unfold EnsureCommonMetaFields. rewrite Hlabels, Happ. simpl.
    rewrite AddFinalizer_again. reflexivity.
  - apply AddFinalizer_Contains.
  - exact Hl.
  - intros other Hother. unfold AddFinalizer.
    destruct (negb _); simpl; [|exact Hother].
    rewrite Contains_app. change (Finalizers (relabelled object)) with (Finalizers object).
    now rewrite Hother.
Qed.

(** ** The conditions the functions of util write *)

Lemma set_four_reads (now : Time) (cs : list Condition)
    (available progressing degraded upgradeable reason message : string) :
  let cs' := set_four now cs available progressing degraded upgradeable reason message in
  reads cs' conditionsv1.ConditionAvailable available reason message /\
  reads cs' conditionsv1.ConditionProgressing progressing reason message /\
  reads cs' conditionsv1.ConditionDegraded degraded reason message /\
  reads cs' conditionsv1.ConditionUpgradeable upgradeable reason message /\
  (forall type, ~ In type condition_types ->
     FindStatusCondition cs' type = FindStatusCondition cs type).
Proof.
  cbv zeta. unfold set_four, reads. repeat split.
  - rewrite !FindStatusCondition_set_other by (simpl; discriminate).
    apply (FindStatusCondition_set_same now _
             (mkCondition conditionsv1.ConditionAvailable available reason message now now)).
  - rewrite !FindStatusCondition_set_other by (simpl; discriminate).
    apply (FindStatusCondition_set_same now _
             (mkCondition conditionsv1.ConditionProgressing progressing reason message now now)).
  - rewrite !FindStatusCondition_set_other by (simpl; discriminate).
    apply (FindStatusCondition_set_same now _
             (mkCondition conditionsv1.ConditionDegraded degraded reason message now now)).
  - apply (FindStatusCondition_set_same now _
             (mkCondition conditionsv1.ConditionUpgradeable upgradeable reason message now now)).
  - intros type Hother.
    rewrite !FindStatusCondition_set_other; [reflexivity| | | |];
      simpl; intros ->; apply Hother; simpl; auto.
Qed.

(** X4. What the three functions that write the conditions leave behind:
    each of the four types of condition is found with the status the function
    gives it (available: True, False, False, True for Available, Progressing,
    Degraded, Upgradeable; progressing: False, True, False, False; error:
    Unknown, False, True, Unknown) and with the reason and the message
    passed; a condition of any other type is found as before. *)
Theorem condition_setters_read_back (now : Time) (cs : list Condition) (reason message : string) :
  (let cs' := SetAvailableCondition now cs reason message in
   reads cs' conditionsv1.ConditionAvailable corev1.ConditionTrue reason message /\
   reads cs' conditionsv1.ConditionProgressing corev1.ConditionFalse reason message /\
   reads cs' conditionsv1.ConditionDegraded corev1.ConditionFalse reason message /\
   reads cs' conditionsv1.ConditionUpgradeable corev1.ConditionTrue reason message) /\
  (let cs' := SetProgressingCondition now cs reason message in
   reads cs' conditionsv1.ConditionAvailable corev1.ConditionFalse reason message /\
   reads cs' conditionsv1.ConditionProgressing corev1.ConditionTrue reason message /\
   reads cs' conditionsv1.ConditionDegraded corev1.ConditionFalse reason message /\
   reads cs' conditionsv1.ConditionUpgradeable corev1.ConditionFalse reason message) /\
  (let cs' := SetErrorCondition now cs reason message in
   reads cs' conditionsv1.ConditionAvailable corev1.ConditionUnknown reason message /\
   reads cs' conditionsv1.ConditionProgressing corev1.ConditionFalse reason message /\
   reads cs' conditionsv1.ConditionDegraded corev1.ConditionTrue reason message /\
   reads cs' conditionsv1.ConditionUpgradeable corev1.ConditionUnknown reason message) /\
  (forall set type, In set condition_setters -> ~ In type condition_types ->
     FindStatusCondition (set now cs reason message) type = FindStatusCondition cs type).
Proof.
  unfold SetAvailableCondition, SetProgressingCondition, SetErrorCondition.
  repeat split; try apply set_four_reads.
  intros set type Hset Hother. simpl in Hset.
  destruct Hset as [<-|[<-|[<-|[]]]]; now apply set_four_reads.
Qed.

Lemma refresh_first_types (now : Time) (c : Condition) (cs : list Condition) :
  map Condition_Type (refresh_first now c cs) = map Condition_Type cs.
Proof.
  induction cs as [|x cs IH]; simpl; [reflexivity|].
  destruct (Condition_Type x =s? Condition_Type c); simpl; [reflexivity|now rewrite IH].
Qed.

Lemma SetStatusCondition_types_present (now : Time) (cs : list Condition) (c : Condition) :
  FindStatusCondition cs (Condition_Type c) <> None ->
  map Condition_Type (SetStatusCondition now cs c) = map Condition_Type cs.
Proof.
  unfold SetStatusCondition. destruct (FindStatusCondition cs (Condition_Type c)); [|congruence].
  intros _. apply refresh_first_types.
Qed.

Lemma SetStatusCondition_still_found (now : Time) (cs : list Condition) (c : Condition)
    (type : string) :
  FindStatusCondition cs type <> None ->
  FindStatusCondition (SetStatusCondition now cs c) type <> None.
Proof.
  intros H. destruct (String.eqb_spec type (Condition_Type c)) as [->|Hne].
  - destruct (FindStatusCondition_set_same now cs c) as (c' & -> & _). discriminate.
  - now rewrite FindStatusCondition_set_other.
Qed.

Lemma set_four_types_present (now : Time) (cs : list Condition)
    (available progressing degraded upgradeable reason message : string) :
  (forall type, In type condition_types -> FindStatusCondition cs type <> None) ->
  map Condition_Type (set_four now cs available progressing degraded upgradeable reason message)
  = map Condition_Type cs.
Proof.
  intros Hall. unfold set_four.
  rewrite !SetStatusCondition_types_present; try reflexivity;
    repeat apply SetStatusCondition_still_found; apply Hall; simpl; auto.
Qed.

(** X5. Once one of the three functions has written the conditions, a
    further call of any of them adds no condition: the list keeps the same
    types of condition in the same order. *)
Theorem condition_setters_add_no_duplicate
    (first next : Time -> list Condition -> string -> string -> list Condition)
    (now now' : Time) (cs : list Condition) (reason message reason' message' : string) :
  In first condition_setters -> In next condition_setters ->
  map Condition_Type (next now' (first now cs reason message) reason' message')
  = map Condition_Type (first now cs reason message).
Proof.
  intros Hfirst Hnext.
  assert (Hall : forall type, In type condition_types ->
                   FindStatusCondition (first now cs reason message) type <> None).
  { intros type Htype.
    assert (Hfour : forall a p d u,
               FindStatusCondition (set_four now cs a p d u reason message) type <> None).
    { intros a p d u.
      destruct (set_four_reads now cs a p d u reason message)
        as ((c1 & H1 & _) & (c2 & H2 & _) & (c3 & H3 & _) & (c4 & H4 & _) & _).
      simpl in Htype. destruct Htype as [<-|[<-|[<-|[<-|[]]]]]; congruence. }
    simpl in Hfirst. destruct Hfirst as [<-|[<-|[<-|[]]]]; apply Hfour. }
  simpl in Hnext. destruct Hnext as [<-|[<-|[<-|[]]]];
    now apply set_four_types_present.
Qed.

(** ** The keys of the secret *)

Lemma first_alternate_first_nonempty (sd : gmap string string) (keys : list string) :
  first_nonempty (map (StringData_get sd) keys)
  = default EmptyString (first_alternate sd keys) /\
  (first_alternate sd keys = None <-> first_nonempty (map (StringData_get sd) keys) = EmptyString).
Proof.
  induction keys as [|key rest [IH1 IH2]]; simpl; [tauto|].
  destruct (StringData_get sd key =s? EmptyString) eqn:E; simpl.
  - split; [exact IH1 | exact IH2].
  - split; [reflexivity|]. apply String.eqb_neq in E. split; [discriminate | congruence].
Qed.

Lemma fix_key_get (canonical : string) (alternates : list string) (sd : gmap string string) :
  StringData_get (fix_key canonical alternates sd) canonical
  = first_nonempty (map (StringData_get sd) (canonical :: alternates)).
Proof.
  unfold fix_key. simpl.
  destruct (StringData_get sd canonical =s? EmptyString) eqn:E; [|reflexivity].
  destruct (first_alternate_first_nonempty sd alternates) as [H1 H2]. rewrite H1.
  destruct (first_alternate sd alternates) as [v|]; simpl.
  - unfold StringData_get. now rewrite lookup_insert_eq.
  - now apply String.eqb_eq in E.
Qed.

Lemma fix_key_other (canonical : string) (alternates : list string) (sd : gmap string string)
    (key : string) :
  key <> canonical -> fix_key canonical alternates sd !! key = sd !! key.
Proof.
  intros Hne. unfold fix_key.
  destruct (StringData_get sd canonical =s? EmptyString); [|reflexivity].
  destruct (first_alternate sd alternates); [|reflexivity].
  apply lookup_insert_ne. congruence.
Qed.

Lemma fix_key_fixed (canonical : string) (alternates : list string) (sd : gmap string string) :
  first_nonempty (map (StringData_get sd) (canonical :: alternates)) = StringData_get sd canonical ->
  fix_key canonical alternates sd = sd.
Proof.
  unfold fix_key. simpl.
  destruct (StringData_get sd canonical =s? EmptyString) eqn:E; [|reflexivity].
  apply String.eqb_eq in E. rewrite E. intros H.
  apply (first_alternate_first_nonempty sd alternates) in H. now rewrite H.
Qed.

Lemma first_nonempty_absorb (v : string) (values : list string) :
  first_nonempty (first_nonempty (v :: values) :: values) = first_nonempty (v :: values).
Proof.
  simpl. destruct (v =s? EmptyString) eqn:E.
  - destruct (first_nonempty values =s? EmptyString) eqn:E'; [|reflexivity].
    now apply String.eqb_eq in E'.
  - now rewrite E.
Qed.

(** X6. After [fixAlternateKeysNames] the access key AWS_ACCESS_KEY_ID of
    the secret is the first value that is not empty among those of
    AWS_ACCESS_KEY_ID, aws_access_key_id and AccessKey, in this order, and
    the secret key AWS_SECRET_ACCESS_KEY the first among those of
    AWS_SECRET_ACCESS_KEY, aws_secret_access_key and SecretKey; no other key
    of the secret changes; and a second call changes nothing. *)
Theorem fixAlternateKeysNames_precedence (s : State) :
  let sd := StringData_get (Secret_StringData (r_Secret (st_r s))) in
  exists s',
    fixAlternateKeysNames s = Returned tt s' /\
    (let sd' := StringData_get (Secret_StringData (r_Secret (st_r s'))) in
     sd' "AWS_ACCESS_KEY_ID"
     = first_nonempty [sd "AWS_ACCESS_KEY_ID"; sd "aws_access_key_id"; sd "AccessKey"] /\
     sd' "AWS_SECRET_ACCESS_KEY"
     = first_nonempty [sd "AWS_SECRET_ACCESS_KEY"; sd "aws_secret_access_key"; sd "SecretKey"]) /\
    (forall key, key <> "AWS_ACCESS_KEY_ID" -> key <> "AWS_SECRET_ACCESS_KEY" ->
       Secret_StringData (r_Secret (st_r s')) !! key
       = Secret_StringData (r_Secret (st_r s)) !! key) /\
    fixAlternateKeysNames s' = Returned tt s'.
Proof.
  cbv zeta. unfold fixAlternateKeysNames, modify_r. eexists. split; [reflexivity|].
  cbn [st_r st_log r_Secret set_r_Secret Secret_StringData Secret_Meta Secret_Data].
  set (sd := Secret_StringData (r_Secret (st_r s))).
  set (access := ["aws_access_key_id"; "AccessKey"]).
  set (secret := ["aws_secret_access_key"; "SecretKey"]).
  set (sd1 := fix_key "AWS_ACCESS_KEY_ID" access sd).
  set (sd2 := fix_key "AWS_SECRET_ACCESS_KEY" secret sd1).
  assert (Hget1 : forall key, key <> "AWS_ACCESS_KEY_ID" ->
                    StringData_get sd1 key = StringData_get sd key).
  { intros key Hkey. unfold StringData_get, sd1. now rewrite fix_key_other. }
  assert (Hget2 : forall key, key <> "AWS_SECRET_ACCESS_KEY" ->
                    StringData_get sd2 key = StringData_get sd1 key).
  { intros key Hkey. unfold StringData_get, sd2. now rewrite fix_key_other. }
  assert (Haccess : StringData_get sd2 "AWS_ACCESS_KEY_ID"
                    = first_nonempty (map (StringData_get sd) ("AWS_ACCESS_KEY_ID" :: access))).
  { rewrite Hget2 by discriminate. apply fix_key_get. }
  assert (Hsecret : StringData_get sd2 "AWS_SECRET_ACCESS_KEY"
                    = first_nonempty (map (StringData_get sd) ("AWS_SECRET_ACCESS_KEY" :: secret))).
  { unfold sd2. rewrite fix_key_get. simpl. now rewrite !Hget1 by discriminate. }
  split; [split; [exact Haccess | exact Hsecret]|].
  split.
  - intros key H1 H2. unfold sd2, sd1. now rewrite !fix_key_other.
  - assert (Hfix1 : fix_key "AWS_ACCESS_KEY_ID" access sd2 = sd2).
    { apply fix_key_fixed. simpl map. rewrite Haccess. simpl map.
      rewrite (Hget2 "aws_access_key_id"), (Hget2 "AccessKey") by discriminate.
      rewrite (Hget1 "aws_access_key_id"), (Hget1 "AccessKey") by discriminate.
      apply (first_nonempty_absorb (StringData_get sd "AWS_ACCESS_KEY_ID")
               [StringData_get sd "aws_access_key_id"; StringData_get sd "AccessKey"]). }
    assert (Hfix2 : fix_key "AWS_SECRET_ACCESS_KEY" secret sd2 = sd2).
    { apply fix_key_fixed. simpl map. rewrite Hsecret. simpl map.
      rewrite (Hget2 "aws_secret_access_key"), (Hget2 "SecretKey") by discriminate.
      rewrite (Hget1 "aws_secret_access_key"), (Hget1 "SecretKey") by discriminate.
      apply (first_nonempty_absorb (StringData_get sd "AWS_SECRET_ACCESS_KEY")
               [StringData_get sd "aws_secret_access_key"; StringData_get sd "SecretKey"]). }
    rewrite Hfix1, Hfix2. reflexivity.
Qed.

(** ** How a run ends *)

Lemma ends_ret {A} (a : A) (Q : A -> State -> Prop) (P : State -> Prop) (s : State) :
  Q a s -> ends (ret a) Q P s.
Proof. intros H. exact H. Qed.

Lemma ends_panic {A} (Q : A -> State -> Prop) (P : State -> Prop) (s : State) :
  P s -> ends (@panic A) Q P s.
Proof. intros H. exact H. Qed.

Lemma ends_bind {A B} (m : M A) (k : A -> M B) (Q : B -> State -> Prop) (P : State -> Prop)
    (s : State) :
  ends m (fun a s1 => ends (k a) Q P s1) P s -> ends (bind m k) Q P s.
Proof. unfold ends, bind. destruct (m s) as [a s1|s1]; intros H; exact H. Qed.

Lemma ends_get_r (Q : Reconciler -> State -> Prop) (P : State -> Prop) (s : State) :
  Q (st_r s) s -> ends get_r Q P s.
Proof. intros H. exact H. Qed.

Lemma ends_modify_r (g : Reconciler -> Reconciler) (Q : unit -> State -> Prop)
    (P : State -> Prop) (s : State) :
  Q tt (mkState (g (st_r s)) (st_log s)) -> ends (modify_r g) Q P s.
Proof. intros H. exact H. Qed.

Lemma ends_call {Req Resp} (oracle : list Action -> Req -> Resp) (act : Req -> Resp -> Action)
    (req : Req) (Q : Resp -> State -> Prop) (P : State -> Prop) (s : State) :
  Q (oracle (st_log s) req)
    (mkState (st_r s) (st_log s ++ [act req (oracle (st_log s) req)])) ->
  ends (call oracle act req) Q P s.
Proof. intros H. exact H. Qed.

Lemma ends_conseq {A} (m : M A) (Q Q' : A -> State -> Prop) (P P' : State -> Prop) (s : State) :
  ends m Q P s -> (forall a s', Q a s' -> Q' a s') -> (forall s', P s' -> P' s') ->
  ends m Q' P' s.
Proof. unfold ends. destruct (m s); intros H HQ HP; [now apply HQ | now apply HP]. Qed.

Lemma ends_Returned {A} (m : M A) (Q : A -> State -> Prop) (P : State -> Prop) (s s' : State)
    (a : A) :
  m s = Returned a s' -> ends m Q P s -> Q a s'.
Proof. unfold ends. now intros ->. Qed.

Section Descriptor.

Context `{L : GoLib}.

(** ** The connection descriptor *)

Lemma auth_method_persistent (signatureVersion nsName : string) (e : error) :
  auth_method signatureVersion nsName = inr e -> IsPersistentError (Some e) = true.
Proof.
  unfold auth_method.
  repeat match goal with |- context [if ?b then _ else _] => destruct b end;
    try discriminate.
  intros H. injection H as <-. reflexivity.
Qed.

Lemma endpoint_url_persistent (endpoint : string) (e : error) :
  snd (endpoint_url endpoint) = inr e -> IsPersistentError (Some e) = true.
Proof.
  unfold endpoint_url.
  destruct (endpoint =s? EmptyString); simpl; [discriminate|].
  destruct (regexp_MatchString _ endpoint) as [matched|err]; simpl.
  - destruct (url_Parse _) as [u|err]; simpl; [discriminate|].
    intros H. injection H as <-. reflexivity.
  - intros H. injection H as <-. reflexivity.
Qed.

Lemma MakeExternalConnectionParams_ends (s : State) :
  ends MakeExternalConnectionParams
    (fun made _ =>
       match made with
       | inr e => IsPersistentError (Some e) = true
       | inl conn =>
           Conn_Name conn = Name (ns_Meta (st_r s)) /\
           In (Spec_Type (ns_Spec (st_r s))) connection_types /\
           IsStringGraphicOrSpacesCharsOnly (Conn_Identity conn) = true /\
           IsStringGraphicOrSpacesCharsOnly (Conn_Secret conn) = true
       end)
    (fun _ => blocks_present (ns_Spec (st_r s)) = false) s.
Proof.
  unfold MakeExternalConnectionParams.
  apply ends_bind. unfold fixAlternateKeysNames. apply ends_modify_r, ends_bind, ends_get_r.
  cbn [st_r st_log]. unfold ns_Meta, ns_Spec.
  cbn [r_NamespaceStore set_r_Secret].
  set (type := Spec_Type (NamespaceStore_Spec (r_NamespaceStore (st_r s)))).
  set (name := Name (NamespaceStore_Meta (r_NamespaceStore (st_r s)))).
  set (Q := fun (made : AddExternalConnectionParams + error) (_ : State) =>
              match made with
              | inr e => IsPersistentError (Some e) = true
              | inl conn =>
                  Conn_Name conn = name /\ In type connection_types /\
                  IsStringGraphicOrSpacesCharsOnly (Conn_Identity conn) = true /\
                  IsStringGraphicOrSpacesCharsOnly (Conn_Secret conn) = true
              end).
  set (P := fun _ : State =>
              blocks_present (NamespaceStore_Spec (r_NamespaceStore (st_r s))) = false).
  assert (Hfinish : forall (res : AddExternalConnectionParams + error) (s1 : State),
            match res with
            | inr e => IsPersistentError (Some e) = true
            | inl conn => Conn_Name conn = name /\ In type connection_types
            end ->
            ends (ret res)
              (fun built s2 =>
                 ends (match built with
                       | inr e => ret (inr e)
                       | inl conn =>
                           if negb (IsStringGraphicOrSpacesCharsOnly (Conn_Identity conn))
                              || negb (IsStringGraphicOrSpacesCharsOnly (Conn_Secret conn))
                           then
                             s <- get_r;
                             ret (inr (PersistentErr (NewPersistentError "InvalidSecret"
                               (fmt_Sprintf
                                  "Invalid secret containing non graphic characters (perhaps not base64 encoded?) %q"
                                  [Name (Secret_Meta (r_Secret s))]))))
                           else ret (inl conn)
                       end) Q P s2) P s1).
  { intros [conn|e] s1 Hres; apply ends_ret; [|now apply ends_ret].
    destruct (IsStringGraphicOrSpacesCharsOnly (Conn_Identity conn)) eqn:E1;
      destruct (IsStringGraphicOrSpacesCharsOnly (Conn_Secret conn)) eqn:E2; cbn [negb orb];
      try (apply ends_bind, ends_get_r, ends_ret; reflexivity).
    apply ends_ret. unfold Q. rewrite E1, E2. tauto. }
  apply ends_bind.
  assert (Hname : forall et ep id sec am,
            Conn_Name (mkAddExternalConnectionParams name et ep id sec am) = name)
    by reflexivity.
  destruct (type =s? nbv1.NSStoreTypeAWSS3) eqn:Eaws.
  { apply String.eqb_eq in Eaws.
    destruct (Spec_AWSS3 _) eqn:Eblock.
    - apply Hfinish. split; [reflexivity|]. rewrite Eaws. simpl; auto.
    - apply ends_panic. unfold P, blocks_present. fold type. rewrite Eaws. simpl.
      now rewrite Eblock. }
  destruct (type =s? nbv1.NSStoreTypeS3Compatible) eqn:Ecompat.
  { apply String.eqb_eq in Ecompat.
    destruct (Spec_S3Compatible _) as [block|] eqn:Eblock.
    - destruct (auth_method _ _) as [authMethod|e] eqn:Eauth;
        [|apply Hfinish; now apply auth_method_persistent in Eauth].
      destruct (endpoint_url _) as [endpoint' res] eqn:Eurl. unfold modify_Spec.
      apply ends_bind, ends_modify_r.
      destruct res as [endpoint|e]; apply Hfinish.
      + split; [reflexivity|]. rewrite Ecompat. simpl; auto.
      + apply (endpoint_url_persistent (S3Compatible_Endpoint block)). now rewrite Eurl.
    - apply ends_panic. unfold P, blocks_present. fold type. rewrite Ecompat. simpl.
      now rewrite Eblock. }
  destruct (type =s? nbv1.NSStoreTypeIBMCos) eqn:Eibm.
  { apply String.eqb_eq in Eibm.
    destruct (Spec_IBMCos _) as [block|] eqn:Eblock.
    - destruct (auth_method _ _) as [authMethod|e] eqn:Eauth;
        [|apply Hfinish; now apply auth_method_persistent in Eauth].
      destruct (endpoint_url _) as [endpoint' res] eqn:Eurl. unfold modify_Spec.
      apply ends_bind, ends_modify_r.
      destruct res as [endpoint|e]; apply Hfinish.
      + split; [reflexivity|]. rewrite Eibm. simpl; auto.
      + apply (endpoint_url_persistent (IBMCos_Endpoint block)). now rewrite Eurl.
    - apply ends_panic. unfold P, blocks_present. fold type. rewrite Eibm. simpl.
      now rewrite Eblock. }
  destruct (type =s? nbv1.NSStoreTypeAzureBlob) eqn:Eazure.
  { apply String.eqb_eq in Eazure. apply Hfinish.
    split; [reflexivity|]. rewrite Eazure. simpl; auto 6. }
  now apply Hfinish.
Qed.

(** X7. The outcomes of [MakeExternalConnectionParams]: every error it
    returns is persistent; a descriptor it returns carries the name of the
    store, belongs to a record of one of the four store types that have an
    external connection, and its identity and secret hold graphic characters
    and spaces only; and it panics only on a record that lacks the block of
    its declared type. *)
Theorem MakeExternalConnectionParams_outcomes (s : State) :
  ends MakeExternalConnectionParams
    (fun made _ =>
       match made with
       | inr e => IsPersistentError (Some e) = true
       | inl conn =>
           Conn_Name conn = Name (ns_Meta (st_r s)) /\
           In (Spec_Type (ns_Spec (st_r s))) connection_types /\
           IsStringGraphicOrSpacesCharsOnly (Conn_Identity conn) = true /\
           IsStringGraphicOrSpacesCharsOnly (Conn_Secret conn) = true
       end)
    (fun _ => blocks_present (ns_Spec (st_r s)) = false) s.
Proof. apply MakeExternalConnectionParams_ends. Qed.

Lemma ends_keeps {A B} (f : Reconciler -> B) (m : M A) (Q : A -> State -> Prop)
    (P : State -> Prop) (s : State) :
  keeps f m -> ends m Q P s ->
  ends m (fun a s' => Q a s' /\ f (st_r s') = f (st_r s)) P s.
Proof.
  intros Hkeep. specialize (Hkeep s). unfold ends.
  destruct (m s); cbn [final] in Hkeep; auto.
Qed.

Ltac frame_step :=
  match goal with
  | |- keeps _ (ret _) => apply keeps_ret
  | |- keeps _ panic => apply keeps_panic
  | |- keeps _ get_r => apply keeps_get_r
  | |- keeps _ (modify_r _) => apply keeps_modify_r; intros; reflexivity
  | |- keeps _ (bind _ _) => apply keeps_bind; [|intros]
  | |- keeps _ (orReturn _ _) => apply keeps_orReturn
  | |- keeps _ (call _ _ _) => apply keeps_call
  | |- keeps _ (NBClient_call _ _ _) => apply keeps_NBClient_call
  | |- keeps _ (match ?x with _ => _ end) => destruct x
  end.

Lemma MakeExternalConnectionParams_keeps_resource :
  keeps r_NamespaceResourceinfo MakeExternalConnectionParams.
Proof.
  unfold MakeExternalConnectionParams, fixAlternateKeysNames, modify_Spec.
  repeat frame_step.
Qed.

Lemma ReadSystemInfo_reuse_returns (systemInfo : SystemInfo) (conn : AddExternalConnectionParams)
    (s : State) :
  exists s',
    ReadSystemInfo_reuse systemInfo conn s = Returned None s' /\
    r_NamespaceResourceinfo (st_r s') = r_NamespaceResourceinfo (st_r s) /\
    st_log s' = st_log s.
Proof.
  unfold ReadSystemInfo_reuse, bind, get_r.
  destruct (reuse_connections _ _ _) as [info connName].
  unfold modify_r, ret. cbn [st_r st_log]. eexists. repeat split; reflexivity.
Qed.

End Descriptor.

Section Passes.

Context `{L : GoLib} (w : World).

(** ** A store with no connection to reuse *)

Lemma ReconcileExternalConnection_checks_first (s : State) (params : AddExternalConnectionParams) :
  r_ExternalConnectionInfo (st_r s) = None ->
  r_AddExternalConnectionParams (st_r s) = Some params ->
  r_NBClient (st_r s) = true ->
  exists rest,
    st_log (final (ReconcileExternalConnection w s))
    = (st_log s
       ++ CheckExternalConnectionAPI params (nb_CheckExternalConnectionAPI w (st_log s) params)
          :: rest)%list /\
    (rest = [] \/
     exists answer, rest = [AddExternalConnectionAPI params answer] /\
       nb_CheckExternalConnectionAPI w (st_log s) params
       = (fst (nb_CheckExternalConnectionAPI w (st_log s) params), None) /\
       Reply_Status (fst (nb_CheckExternalConnectionAPI w (st_log s) params))
       = nb.ExternalConnectionSuccess).
Proof.
  intros Hinfo Hparams Hclient.
  unfold ReconcileExternalConnection, bind at 1, get_r. rewrite Hinfo, Hparams.
  unfold bind at 1, NBClient_call, bind at 1, get_r. rewrite Hclient. unfold call.
  cbn [st_r st_log].
  destruct (nb_CheckExternalConnectionAPI w (st_log s) params) as [res [e|]] eqn:Echeck.
  - exists []. split; [|now left].
    destruct e as [p|rpc|text]; try reflexivity.
    destruct (RPCError_RPCCode rpc =s? "INVALID_SCHEMA_PARAMS"); reflexivity.
  - destruct (Reply_Status res =s? nb.ExternalConnectionSuccess) eqn:Estatus.
    + unfold bind, get_r. cbn [st_r st_log]. rewrite Hclient. cbn [final st_log].
      eexists. split; [rewrite <- app_assoc; reflexivity|]. right.
      eexists. split; [reflexivity|]. split; [reflexivity|].
      now apply String.eqb_eq in Estatus.
    + exists []. split; [|now left].
      repeat match goal with
             | |- context [if ?b then _ else _] => destruct b
             end; reflexivity.
Qed.

(** X8. When no connection of the remote system has the endpoint type,
    endpoint and identity of the descriptor, [ReadSystemInfo] keeps the
    descriptor under its own name: the reused connection is left as it was,
    the connection of the namespace resource to create is the name of the
    descriptor, no call is made; and, with no connection to reuse,
    [ReconcileExternalConnection] then begins with the check of that
    descriptor. *)
Theorem ReadSystemInfo_reuse_no_match (systemInfo : SystemInfo)
    (conn : AddExternalConnectionParams) (s : State) :
  forallb (fun c => negb (same_connection conn c)) (all_connections systemInfo) = true ->
  exists s',
    ReadSystemInfo_reuse systemInfo conn s = Returned None s' /\
    r_ExternalConnectionInfo (st_r s') = r_ExternalConnectionInfo (st_r s) /\
    r_AddExternalConnectionParams (st_r s') = Some conn /\
    option_map Create_Connection (r_CreateNamespaceResourceParams (st_r s'))
    = Some (Conn_Name conn) /\
    st_log s' = st_log s /\
    (r_ExternalConnectionInfo (st_r s) = None -> r_NBClient (st_r s) = true ->
     exists rest,
       st_log (final (ReconcileExternalConnection w s'))
       = (st_log s
          ++ CheckExternalConnectionAPI conn (nb_CheckExternalConnectionAPI w (st_log s) conn)
             :: rest)%list).
Proof.
  intros Hnone.
  assert (Hscan : forall acc, reuse_connections conn (SystemInfo_Accounts systemInfo) acc = acc).
  { intros acc. rewrite reuse_connections_scan. now apply reuse_step_no_match. }
  unfold ReadSystemInfo_reuse, bind, get_r. rewrite Hscan.
  unfold modify_r, ret. cbn [st_r st_log].
  replace (set_Conn_Name (Conn_Name conn) conn) with conn by (destruct conn; reflexivity).
  eexists. split; [reflexivity|]. cbn [st_r st_log].
  repeat split; try reflexivity.
  intros Hinfo Hclient.
  match goal with
  | |- context [ReconcileExternalConnection w ?s1] =>
      destruct (ReconcileExternalConnection_checks_first s1 conn) as (rest & Hlog & _);
      [exact Hinfo | reflexivity | exact Hclient |]
  end.
  exists rest. exact Hlog.
Qed.

(** ** A store whose namespace resource is already there *)

(** X9. When the system is connected, its read answers and the answer
    lists a namespace resource under the name of the store, [ReadSystemInfo],
    whatever it returns, leaves that resource as the known resource of the
    reconciler, and [ReconcileNamespaceStore] then returns nil without a
    call: the resource is not created a second time. [ReadSystemInfo] panics here only on a record that lacks the block
    of its declared type. *)
Theorem ReadSystemInfo_known_resource_not_created (s : State) (systemInfo : SystemInfo)
    (nsr : NamespaceResourceInfo) :
  system_Connect w (st_log s) tt = None ->
  nb_ReadSystemAPI w (st_log s ++ [Connect None])%list tt = inl systemInfo ->
  find (fun nsr => NamespaceResourceInfo_Name nsr =s? Name (ns_Meta (st_r s)))
    (SystemInfo_NamespaceResources systemInfo) = Some nsr ->
  ends (ReadSystemInfo w)
    (fun _ s' =>
       r_NamespaceResourceinfo (st_r s') = Some nsr /\
       ReconcileNamespaceStore w s' = Returned None s')
    (fun _ => blocks_present (ns_Spec (st_r s)) = false) s.
Proof.
  intros Hconnect Hread Hfind.
  assert (Hcreate : forall s', r_NamespaceResourceinfo (st_r s') = Some nsr ->
            r_NamespaceResourceinfo (st_r s') = Some nsr /\
            ReconcileNamespaceStore w s' = Returned None s').
  { intros s' H. split; [exact H|].
    unfold ReconcileNamespaceStore, bind, get_r. now rewrite H. }
  unfold ReadSystemInfo, orReturn. apply ends_bind, ends_call. rewrite Hconnect.
  apply ends_bind, ends_modify_r, ends_bind. unfold NBClient_call.
  apply ends_bind, ends_get_r. cbn [st_r st_log r_NBClient set_r_NBClient].
  apply ends_call. cbn [st_r st_log]. rewrite Hread.
  apply ends_bind, ends_modify_r, ends_bind, ends_modify_r, ends_bind, ends_get_r.
  cbn [st_r st_log]. unfold ns_Meta in *.
  cbn [r_NamespaceStore set_r_SystemInfo set_r_NBClient]. rewrite Hfind.
  set (loaded := set_r_NamespaceResourceinfo (Some nsr) _).
  assert (Hspec : ns_Spec loaded = ns_Spec (st_r s)) by reflexivity.
  destruct (Spec_Type (ns_Spec loaded) =s? nbv1.NSStoreTypeNSFS) eqn:Ensfs.
  - unfold ReadSystemInfo_nsfs. apply ends_bind, ends_get_r. cbn [st_r].
    destruct (Spec_NSFS (ns_Spec loaded)) as [nsfs|] eqn:Eblock.
    + apply ends_bind, ends_modify_r, ends_ret, Hcreate. reflexivity.
    + apply ends_panic. rewrite <- Hspec. unfold blocks_present. now rewrite Ensfs, Eblock.
  - apply ends_bind.
    match goal with
    | |- ends _ _ _ ?s0 =>
        pose proof (ends_keeps r_NamespaceResourceinfo _ _ _ s0
                      MakeExternalConnectionParams_keeps_resource
                      (MakeExternalConnectionParams_ends s0)) as Hmade
    end.
    eapply ends_conseq; [exact Hmade| |].
    + intros [conn|e] s1 [_ Hkept]; cbn [st_r] in Hkept.
      * destruct (ReadSystemInfo_reuse_returns systemInfo conn s1) as (s2 & Hrun & Hinfo & _).
        unfold ends. rewrite Hrun. apply Hcreate. now rewrite Hinfo, Hkept.
      * apply ends_ret, Hcreate. exact Hkept.
    + intros s1 H. exact H.
Qed.

(** ** The early returns of Reconcile *)

(** X10. [Reconcile] on a record the cluster does not have (the read of
    the record fails, and the record in memory has no UID): after the read
    alone it returns the empty result and no error, the reconciler untouched,
    when the error is one the helper knows; any other error ends in
    [util.Panic]. *)
Theorem Reconcile_skips_missing_record (s : State) (e : KubeError) :
  klient_Get_NamespaceStore w (st_log s) (r_NamespaceStore (st_r s)) = inr e ->
  UID (ns_Meta (st_r s)) = EmptyString ->
  let s1 := mkState (st_r s)
              (st_log s ++ [KubeGet_NamespaceStore (r_NamespaceStore (st_r s)) (inr e)]) in
  Reconcile w s
  = if kube_classified e then Returned (mkResult false 0, None) s1 else Panicked s1.
Proof.
  intros Hget Huid. cbv zeta.
  unfold Reconcile, bind at 1, KubeCheck_NamespaceStore, bind at 1, get_r at 1, bind at 1, call.
  rewrite Hget. destruct (kube_classified e); [|reflexivity].
  unfold ret at 1, bind at 1, get_r at 1. cbn [st_r st_log].
  apply String.eqb_eq in Huid. now rewrite Huid.
Qed.

(** X11. When the record lacks the mandatory label or finalizer and the
    cluster refuses the update that adds them with an error [util.KubeUpdate]
    knows (any other error ends in [util.Panic]), [Reconcile] returns at once
    with requeue-after 3 seconds and no error: its only calls are the read
    and the update of the record, the phases are not run and no status update
    is sent. *)
Theorem Reconcile_refused_update_requeues (s : State) (record : NamespaceStore)
    (e : KubeError) :
  let ensured :=
    set_Meta (fst (EnsureCommonMetaFields (NamespaceStore_Meta record) nbv1.Finalizer)) record in
  let log1 :=
    (st_log s ++ [KubeGet_NamespaceStore (r_NamespaceStore (st_r s)) (inl record)])%list in
  klient_Get_NamespaceStore w (st_log s) (r_NamespaceStore (st_r s)) = inl record ->
  UID (NamespaceStore_Meta record) <> EmptyString ->
  snd (EnsureCommonMetaFields (NamespaceStore_Meta record) nbv1.Finalizer) = true ->
  klient_Update w log1 ensured = Some e ->
  kube_classified e = true ->
  Reconcile w s
  = Returned (mkResult false (3 * Second), None)
      (mkState (set_r_NamespaceStore ensured (st_r s))
         (log1 ++ [KubeUpdate_NamespaceStore ensured (Some e)])).
Proof.
  cbv zeta. intros Hget Huid Hensured Hupdate Hclass.
  unfold Reconcile, bind at 1, KubeCheck_NamespaceStore, bind at 1, get_r at 1, bind at 1, call.
  rewrite Hget. unfold bind at 1, modify_r at 1, ret at 1, bind at 1, get_r at 1.
  cbn [st_r st_log]. unfold ns_Meta. cbn [r_NamespaceStore set_r_NamespaceStore].
  apply String.eqb_neq in Huid. rewrite Huid.
  destruct (EnsureCommonMetaFields (NamespaceStore_Meta record) nbv1.Finalizer)
    as [meta ensured] eqn:Eensure.
  cbn [fst snd] in *. subst ensured.
  unfold bind at 1, modify_r at 1. cbn [st_r st_log].
  unfold bind at 1, KubeUpdate, bind at 1, get_r at 1, bind at 1, call.
  cbn [st_r st_log r_NamespaceStore set_r_NamespaceStore].
  rewrite Hupdate, Hclass. reflexivity.
Qed.

(** ** Deletion *)

(** X12. Deletion when the parent system is gone, the record being in
    phase Deleting already: [ReconcileDeletion] sends one update of the
    record, from which the finalizer of the operator is removed, and makes no
    other call; it returns nil when the update is accepted, an error when the
    cluster refuses it with an error the helper knows, and ends in
    [util.Panic] otherwise. *)
Theorem ReconcileDeletion_without_system (s : State) :
  let released :=
    set_Meta (fst (RemoveFinalizer (ns_Meta (st_r s)) nbv1.Finalizer))
      (r_NamespaceStore (st_r s)) in
  let answer := klient_Update w (st_log s) released in
  let s' := mkState (set_r_NamespaceStore released (st_r s))
              (st_log s ++ [KubeUpdate_NamespaceStore released answer]) in
  UID (NooBaa_Meta (r_NooBaa (st_r s))) = EmptyString ->
  Status_Phase (ns_Status (st_r s)) = nbv1.NamespaceStorePhaseDeleting ->
  Contains nbv1.Finalizer (Finalizers (NamespaceStore_Meta released)) = false /\
  ReconcileDeletion w s
  = match answer with
    | None => Returned None s'
    | Some e =>
        if kube_classified e
        then Returned (Some (fmt_Errorf "NamespaceStore %q failed to remove finalizer %q"
                               [Name (ns_Meta (st_r s)); nbv1.Finalizer])) s'
        else Panicked s'
    end.
Proof.
  cbv zeta. intros Huid Hphase. split.
  - unfold RemoveFinalizer. rewrite RemoveFinalizer_loop_filter. simpl.
    apply Contains_filter_out.
  - unfold ReconcileDeletion, orReturn at 1, bind at 1, ReconcileDeletion_announce, bind at 1,
      get_r at 1.
    rewrite Hphase. cbn [negb String.eqb]. unfold nbv1.NamespaceStorePhaseDeleting.
    rewrite String.eqb_refl. cbn [negb]. unfold ret at 1, bind at 1, get_r at 1.
    apply String.eqb_eq in Huid. rewrite Huid.
    unfold FinalizeDeletion, bind at 1, modify_r at 1, bind at 1, KubeUpdate, bind at 1,
      get_r at 1, bind at 1, call.
    cbn [st_r st_log r_NamespaceStore set_r_NamespaceStore].
    destruct (klient_Update w (st_log s) _) as [e|]; [|reflexivity].
    destruct (kube_classified e); [|reflexivity].
    unfold ret at 1. cbn [negb]. unfold bind, get_r, ret. cbn [st_r].
    unfold ns_Meta. cbn [r_NamespaceStore set_r_NamespaceStore set_Meta NamespaceStore_Meta].
    unfold RemoveFinalizer. destruct (RemoveFinalizer_loop _ _). reflexivity.
Qed.

(** X13. Deletion of a record that is not yet in phase Deleting begins
    by setting the phase to Deleting, the metadata left as it is, and by
    sending the status update. When this update fails, its error is returned
    at once with nothing else done; when it succeeds, the pass goes on exactly
    as a pass on the record in phase Deleting. *)
Theorem ReconcileDeletion_announces_first (s : State) :
  let announced :=
    set_Status (SetPhase_status (time_Now w) nbv1.NamespaceStorePhaseDeleting
                  "NamespaceStorePhaseDeleting" "noobaa operator started deletion"
                  (ns_Status (st_r s))) (r_NamespaceStore (st_r s)) in
  let answer := Client_Status_Update w (st_log s) announced in
  let s1 := mkState (set_r_NamespaceStore announced (st_r s))
              (st_log s ++ [Status_Update announced answer]) in
  Status_Phase (ns_Status (st_r s)) <> nbv1.NamespaceStorePhaseDeleting ->
  Status_Phase (NamespaceStore_Status announced) = nbv1.NamespaceStorePhaseDeleting /\
  NamespaceStore_Meta announced = ns_Meta (st_r s) /\
  match answer with
  | Some e => ReconcileDeletion w s = Returned (Some e) s1
  | None => ReconcileDeletion w s = ReconcileDeletion w s1
  end.
Proof.
  cbv zeta. intros Hphase. split; [reflexivity|]. split; [reflexivity|].
  set (rest := bind get_r (fun r : Reconciler =>
                 if UID (NooBaa_Meta (r_NooBaa r)) =s? EmptyString then FinalizeDeletion w
                 else orReturn (ReadSystemInfo w) (ReconcileDeletion_cleanup w))).
  assert (Hdone : forall s0,
            Status_Phase (ns_Status (st_r s0)) = nbv1.NamespaceStorePhaseDeleting ->
            ReconcileDeletion w s0 = rest s0).
  { intros s0 H. unfold ReconcileDeletion, orReturn at 1, bind at 1, ReconcileDeletion_announce,
      bind at 1, get_r at 1.
    rewrite H. reflexivity. }
  apply String.eqb_neq in Hphase.
  set (announced := set_Status _ _).
  assert (Hfirst : ReconcileDeletion w s
                   = match Client_Status_Update w (st_log s) announced with
                     | Some e =>
                         Returned (Some e)
                           (mkState (set_r_NamespaceStore announced (st_r s))
                              (st_log s ++ [Status_Update announced
                                              (Client_Status_Update w (st_log s) announced)]))
                     | None =>
                         rest (mkState (set_r_NamespaceStore announced (st_r s))
                                 (st_log s ++ [Status_Update announced
                                                 (Client_Status_Update w (st_log s) announced)]))
                     end).
  { unfold ReconcileDeletion, orReturn at 1, bind at 1, ReconcileDeletion_announce, bind at 1,
      get_r at 1.
    rewrite Hphase. cbn [negb].
    unfold bind at 1, SetPhase, modify_Status, modify_r at 1, UpdateStatus, bind at 1,
      get_r at 1, call.
    cbn [st_r st_log r_NamespaceStore set_r_NamespaceStore]. fold announced.
    destruct (Client_Status_Update w (st_log s) announced) as [e|]; reflexivity. }
  rewrite Hfirst.
  destruct (Client_Status_Update w (st_log s) announced) as [e|]; [reflexivity|].
  symmetry. apply Hdone. reflexivity.
Qed.

(** ** The registration of a connection *)

(** X14. [ReconcileExternalConnection] registers a connection only after
    the check of the same parameters, those of the reconciler, was answered
    without error and with the status success, and then returns the answer of
    the registration; it leaves the reconciler as it is; and when the check
    call itself fails, the error returned is the persistent error
    InvalidConnectionParams with the message of the RPC error when its code is
    INVALID_SCHEMA_PARAMS, and the error of the call otherwise. *)
Theorem ReconcileExternalConnection_registers_after_check (s : State) :
  let out := ReconcileExternalConnection w s in
  exists new,
    st_log (final out) = (st_log s ++ new)%list /\
    st_r (final out) = st_r s /\
    (existsb is_AddExternalConnectionAPI new = true ->
     exists params res answer,
       new = [CheckExternalConnectionAPI params (res, None);
              AddExternalConnectionAPI params answer] /\
       Reply_Status res = nb.ExternalConnectionSuccess /\
       r_AddExternalConnectionParams (st_r s) = Some params /\
       r_ExternalConnectionInfo (st_r s) = None /\
       out = Returned answer (final out)) /\
    (forall params res e,
       new = [CheckExternalConnectionAPI params (res, Some e)] ->
       out = Returned
               (Some (match e with
                      | RPCErr rpcErr =>
                          if RPCError_RPCCode rpcErr =s? "INVALID_SCHEMA_PARAMS"
                          then PersistentErr (NewPersistentError "InvalidConnectionParams"
                                                (RPCError_Message rpcErr))
                          else e
                      | _ => e
                      end)) (final out)).
Proof.
  intros out.
  destruct (r_ExternalConnectionInfo (st_r s)) as [info|] eqn:Einfo.
  { assert (Hout : out = Returned None s)
      by (unfold out, ReconcileExternalConnection, bind, get_r; now rewrite Einfo).
    rewrite Hout. exists []. cbn. rewrite app_nil_r. repeat split; discriminate. }
  destruct (r_AddExternalConnectionParams (st_r s)) as [params|] eqn:Eparams.
  2: { assert (Hout : out = Returned None s)
         by (unfold out, ReconcileExternalConnection, bind, get_r; now rewrite Einfo, Eparams).
       rewrite Hout. exists []. cbn. rewrite app_nil_r. repeat split; discriminate. }
  destruct (r_NBClient (st_r s)) eqn:Eclient.
  2: { assert (Hout : out = Panicked s)
         by (unfold out, ReconcileExternalConnection, NBClient_call, bind, get_r;
             now rewrite Einfo, Eparams, Eclient).
       rewrite Hout. exists []. cbn. rewrite app_nil_r. repeat split; discriminate. }
  destruct (nb_CheckExternalConnectionAPI w (st_log s) params) as [res answer] eqn:Echeck.
  set (s1 := mkState (st_r s)
               (st_log s ++ [CheckExternalConnectionAPI params (res, answer)])).
  assert (Hstart : out
                   = (let '(res, err) := (res, answer) in
                      match err with
                      | Some e =>
                          match e with
                          | RPCErr rpcErr =>
                              if RPCError_RPCCode rpcErr =s? "INVALID_SCHEMA_PARAMS"
                              then ret (Some (PersistentErr
                                          (NewPersistentError "InvalidConnectionParams"
                                             (RPCError_Message rpcErr))))
                              else ret (Some e)
                          | _ => ret (Some e)
                          end
                      | None =>
                          let status := Reply_Status res in
                          if status =s? nb.ExternalConnectionSuccess then
                            NBClient_call (nb_AddExternalConnectionAPI w)
                              AddExternalConnectionAPI params
                          else if status =s? nb.ExternalConnectionInvalidCredentials then
                            ret (case_InvalidCredentials w (st_r s) status)
                          else if status =s? nb.ExternalConnectionInvalidEndpoint then
                            ret (case_InvalidEndpoint w (st_r s) status)
                          else if status =s? nb.ExternalConnectionTimeSkew then
                            ret (case_TimeSkew (st_r s) status)
                          else if status =s? nb.ExternalConnectionNotSupported then
                            ret (case_NotSupported (st_r s) status)
                          else
                            ret (case_default res)
                      end) s1).
  { unfold out, ReconcileExternalConnection, bind at 1, get_r at 1. rewrite Einfo, Eparams.
    unfold bind at 1, NBClient_call at 1, bind at 1, get_r at 1. rewrite Eclient.
    unfold call at 1. rewrite Echeck. reflexivity. }
  rewrite Hstart. clear Hstart. cbv zeta iota beta.
  destruct answer as [e|].
  - exists [CheckExternalConnectionAPI params (res, Some e)].
    destruct e as [p|rpc|text];
      [| destruct (RPCError_RPCCode rpc =s? "INVALID_SCHEMA_PARAMS") eqn:Ecode |];
      (split; [reflexivity|]; split; [reflexivity|]; split; [discriminate|]);
      intros params' res' e' Heq; injection Heq as <- <- <-; try rewrite Ecode; reflexivity.
  - destruct (Reply_Status res =s? nb.ExternalConnectionSuccess) eqn:Estatus.
    + unfold NBClient_call, bind, get_r, call. cbn [st_r st_log s1]. rewrite Eclient.
      cbn [final st_r st_log]. subst s1. cbn [st_r st_log].
      eexists. split; [rewrite <- app_assoc; reflexivity|]. split; [reflexivity|].
      split; [|discriminate]. intros _.
      eexists _, _, _. split; [reflexivity|]. split; [now apply String.eqb_eq in Estatus|].
      repeat split; reflexivity.
    + exists [CheckExternalConnectionAPI params (res, None)].
      repeat match goal with
             | |- context [if ?b then _ else _] => destruct b
             end;
        (split; [reflexivity|]; split; [reflexivity|]; split; discriminate).
Qed.

(** ** A declared secret the cluster does not have *)

(** X15. A declared secret the cluster does not have (the reference has a
    name, the secret in memory has no UID and the read fails with an error
    [util.KubeCheck] knows) is no error of [LoadNamespaceStoreSecret]: it
    looks the secret up under the name of the reference, in the namespace of
    the reference or, when that is empty, of the store, and returns nil. The
    Verifying phase that follows returns an error without a call: the error
    is persistent when the parent system is missing (its UID is empty), and
    with the parent system there it is persistent exactly when the record is
    5 minutes old or more. *)
Theorem LoadNamespaceStoreSecret_missing_secret (s : State) (secretRef : SecretReference)
    (e : KubeError) :
  let namespace :=
    if SecretReference_Namespace secretRef =s? EmptyString
    then Namespace (ns_Meta (st_r s)) else SecretReference_Namespace secretRef in
  let request :=
    mkSecret (set_Namespace namespace
                (set_Name (SecretReference_Name secretRef) (Secret_Meta (r_Secret (st_r s)))))
      (Secret_StringData (r_Secret (st_r s))) (Secret_Data (r_Secret (st_r s))) in
  GetNamespaceStoreSecret (r_NamespaceStore (st_r s)) = Some secretRef ->
  SecretReference_Name secretRef <> EmptyString ->
  UID (Secret_Meta (r_Secret (st_r s))) = EmptyString ->
  klient_Get_Secret w (st_log s) request = inr e ->
  kube_classified e = true ->
  exists s1,
    LoadNamespaceStoreSecret w s = Returned None s1 /\
    st_log s1 = (st_log s ++ [KubeGet_Secret request (inr e)])%list /\
    exists err s2,
      ReconcilePhaseVerifying w s1 = Returned (Some err) s2 /\
      st_log s2 = st_log s1 /\
      IsPersistentError (Some err)
      = (UID (NooBaa_Meta (r_NooBaa (st_r s))) =s? EmptyString)
        || negb (time_Now w - CreationTimestamp (ns_Meta (st_r s)) <? 5 * Minute).
Proof.
  cbv zeta. intros Href Hname Huid Hget Hclass.
  unfold LoadNamespaceStoreSecret, bind at 1, get_r at 1. rewrite Href.
  unfold bind at 1, modify_r at 1, bind at 1, KubeCheck_Secret, bind at 1, get_r at 1,
    bind at 1, call.
  cbn [st_r st_log r_Secret set_r_Secret]. rewrite Hget, Hclass.
  unfold ret at 1 2. eexists. split; [reflexivity|]. split; [reflexivity|].
  unfold ReconcilePhaseVerifying, bind at 1, SetPhase, modify_Status, modify_r at 1,
    bind at 1, get_r at 1.
  cbn [st_r st_log r_NooBaa r_Secret set_r_NamespaceStore set_r_Secret Secret_Meta].
  destruct (UID (NooBaa_Meta (r_NooBaa (st_r s))) =s? EmptyString);
    [eexists _, _; repeat split; reflexivity|].
  cbn [Name UID set_Namespace set_Name orb].
  apply String.eqb_neq in Hname. rewrite Hname.
  apply String.eqb_eq in Huid. rewrite Huid. cbn [negb andb].
  rewrite time_Since_young.
  unfold ns_Meta. cbn [r_NamespaceStore set_r_NamespaceStore set_Status NamespaceStore_Meta].
  destruct (_ <? 5 * Minute); eexists _, _; repeat split; reflexivity.
Qed.

(** ** The phase a pass without error ends in *)

Lemma nsrModeInfoMap_lookup (mode : string) :
  nsrModeInfoMap !! mode
  = if mode =s? "OPTIMAL"
    then Some (mkModeInfo nbv1.NamespaceStorePhaseReady corev1.EventTypeNormal)
    else if Contains mode rejecting_modes
         then Some (mkModeInfo nbv1.NamespaceStorePhaseRejected corev1.EventTypeWarning)
         else None.
Proof.
  unfold nsrModeInfoMap, modeInfoMap, rejecting_modes. cbn [Contains].
  destruct (String.eqb_spec mode "OPTIMAL") as [->|H1]; [reflexivity|].
  rewrite (String.eqb_sym "IO_ERRORS"), (String.eqb_sym "STORAGE_NOT_EXIST"),
    (String.eqb_sym "AUTH_FAILED").
  destruct (String.eqb_spec mode "IO_ERRORS") as [->|H2]; [reflexivity|].
  destruct (String.eqb_spec mode "STORAGE_NOT_EXIST") as [->|H3]; [reflexivity|].
  destruct (String.eqb_spec mode "AUTH_FAILED") as [->|H4]; [reflexivity|].
  apply not_elem_of_list_to_map_1. cbn. rewrite !elem_of_cons, elem_of_nil. tauto.
Qed.

(** X16. The phase a pass without error ends in: after [ReconcilePhases]
    returned nil, [Reconcile_react] returns the result unchanged and sets the
    phase to Rejected when the mode of the store is IO_ERRORS,
    STORAGE_NOT_EXIST or AUTH_FAILED, and to Ready otherwise; the mode is left
    as it is, and for a mode outside the table no event is sent. *)
Theorem Reconcile_react_after_phases (s s1 : State) (res : Result) :
  ReconcilePhases w s = Returned None s1 ->
  let mode := Status_ModeCode (ns_Status (st_r s1)) in
  exists s2,
    Reconcile_react w None res s1 = Returned res s2 /\
    Status_Phase (ns_Status (st_r s2))
    = (if Contains mode rejecting_modes
       then nbv1.NamespaceStorePhaseRejected else nbv1.NamespaceStorePhaseReady) /\
    Status_ModeCode (ns_Status (st_r s2)) = mode /\
    (Contains mode ("OPTIMAL" :: rejecting_modes) = false -> st_log s2 = st_log s1).
Proof.
  intros Hphases mode. apply ReconcilePhases_phase in Hphases.
  unfold Reconcile_react, bind at 1, get_r at 1. fold mode.
  rewrite nsrModeInfoMap_lookup, Hphases.
  assert (Hstatus : forall phase reason message,
            Status_ModeCode (SetPhase_status (time_Now w) phase reason message
                               (ns_Status (st_r s1))) = mode).
  { intros phase reason message. unfold SetPhase_status.
    repeat match goal with |- context [if ?b then _ else _] => destruct b end; reflexivity. }
  destruct (String.eqb_spec mode "OPTIMAL") as [Hopt|Hopt].
  - rewrite Hopt. cbn [Contains rejecting_modes ModeInfo_Phase ModeInfo_Severity].
    unfold SetPhase, modify_Status, modify_r, bind, emit, ret, get_r. cbn [st_r st_log].
    replace (negb (nbv1.NamespaceStorePhaseReady =s? nbv1.NamespaceStorePhaseCreating))
      with true by reflexivity.
    destruct (r_Recorder (st_r s1)); eexists; (split; [reflexivity|]);
      cbn [st_r st_log]; unfold ns_Status;
      cbn [r_NamespaceStore set_r_NamespaceStore set_Status NamespaceStore_Status];
      (split; [reflexivity|]); (split; [rewrite <- Hopt; apply Hstatus|]);
      cbn; try rewrite String.eqb_refl; discriminate.
  - apply String.eqb_neq in Hopt. cbn [Contains]. rewrite (String.eqb_sym "OPTIMAL"), Hopt.
    destruct (Contains mode rejecting_modes) eqn:Erej.
    + cbn [ModeInfo_Phase ModeInfo_Severity].
      replace (negb (nbv1.NamespaceStorePhaseRejected =s? nbv1.NamespaceStorePhaseCreating))
        with true by reflexivity.
      unfold SetPhase, modify_Status, modify_r, bind, emit, ret, get_r. cbn [st_r st_log].
      destruct (r_Recorder (st_r s1)); eexists; (split; [reflexivity|]);
        cbn [st_r st_log]; unfold ns_Status;
        cbn [r_NamespaceStore set_r_NamespaceStore set_Status NamespaceStore_Status];
        (split; [reflexivity|]); (split; [apply Hstatus|]); discriminate.
    + unfold SetPhase, modify_Status, modify_r, bind, emit, ret, get_r. cbn [st_r st_log].
      eexists. split; [reflexivity|]. cbn [st_r st_log]. unfold ns_Status.
      cbn [r_NamespaceStore set_r_NamespaceStore set_Status NamespaceStore_Status].
      split; [reflexivity|]. split; [apply Hstatus | reflexivity].
Qed.

End Passes.

(** ** The environment variables of a container *)

Lemma EnvVar_at_cons (e : EnvVar) (env : list EnvVar) (name : string) :
  EnvVar_at (e :: env) name = if EnvVar_Name e =s? name then Some e else EnvVar_at env name.
Proof.
  unfold EnvVar_at. simpl. destruct (EnvVar_Name e =s? name); [reflexivity|].
  destruct (GetEnvVariable env name); reflexivity.
Qed.

Lemma EnvVar_at_find (env : list EnvVar) (name : string) :
  EnvVar_at env name = find (fun e => EnvVar_Name e =s? name) env.
Proof.
  induction env as [|e env IH]; [reflexivity|].
  rewrite EnvVar_at_cons. simpl. now rewrite IH.
Qed.

Lemma EnvVar_at_app (envA envB : list EnvVar) (name : string) :
  EnvVar_at (envA ++ envB) name
  = match EnvVar_at envA name with Some e => Some e | None => EnvVar_at envB name end.
Proof. rewrite !EnvVar_at_find. apply find_append. Qed.

Lemma EnvVar_at_None (env : list EnvVar) (name : string) :
  EnvVar_at env name = None <-> ~ In name (map EnvVar_Name env).
Proof.
  induction env as [|e env IH]; [simpl; tauto|].
  rewrite EnvVar_at_cons. simpl.
  destruct (String.eqb_spec (EnvVar_Name e) name) as [E|E].
  - split; [discriminate | tauto].
  - rewrite IH. tauto.
Qed.

Lemma GetEnvVariable_None (env : list EnvVar) (name : string) :
  GetEnvVariable env name = None <-> EnvVar_at env name = None.
Proof.
  induction env as [|e env IH]; [unfold EnvVar_at; simpl; tauto|].
  rewrite EnvVar_at_cons. simpl. destruct (EnvVar_Name e =s? name); [split; discriminate|].
  rewrite <- IH. destruct (GetEnvVariable env name); simpl; split; congruence.
Qed.

Lemma EnvVar_at_alter_same (f : EnvVar -> EnvVar) (env : list EnvVar) (name : string)
    (i : nat) :
  (forall e, EnvVar_Name (f e) = EnvVar_Name e) ->
  GetEnvVariable env name = Some i ->
  EnvVar_at (alter f i env) name = option_map f (EnvVar_at env name).
Proof.
  intros Hf. revert i. induction env as [|e env IH]; intros i; simpl; [discriminate|].
  destruct (EnvVar_Name e =s? name) eqn:E.
  - intros H. injection H as <-. simpl. rewrite !EnvVar_at_cons, Hf, E. reflexivity.
  - destruct (GetEnvVariable env name) as [j|]; simpl; [|discriminate].
    intros H. injection H as <-. simpl. rewrite !EnvVar_at_cons, E. now apply IH.
Qed.

Lemma EnvVar_at_alter_other (f : EnvVar -> EnvVar) (env : list EnvVar) (name other : string)
    (i : nat) :
  (forall e, EnvVar_Name (f e) = EnvVar_Name e) ->
  other <> name ->
  GetEnvVariable env name = Some i ->
  EnvVar_at (alter f i env) other = EnvVar_at env other.
Proof.
  intros Hf Hne. revert i. induction env as [|e env IH]; intros i; simpl; [discriminate|].
  destruct (String.eqb_spec (EnvVar_Name e) name) as [E|E].
  - intros H. injection H as <-. simpl. rewrite !EnvVar_at_cons, Hf, E.
    assert (Hno : (name =s? other) = false) by (apply String.eqb_neq; congruence).
    now rewrite Hno.
  - destruct (GetEnvVariable env name) as [j|]; simpl; [|discriminate].
    intros H. injection H as <-. simpl. rewrite !EnvVar_at_cons.
    destruct (EnvVar_Name e =s? other); [reflexivity | now apply IH].
Qed.

Lemma EnvVar_at_remove_other (env : list EnvVar) (name other : string) :
  other <> name ->
  EnvVar_at (ReflectEnvVariable_remove env name) other = EnvVar_at env other.
Proof.
  intros Hne. induction env as [|e env IH]; simpl; [reflexivity|].
  destruct (String.eqb_spec (EnvVar_Name e) name) as [E|E].
  - rewrite EnvVar_at_cons.
    assert (Hno : (EnvVar_Name e =s? other) = false) by (apply String.eqb_neq; congruence).
    now rewrite Hno.
  - rewrite !EnvVar_at_cons, IH. reflexivity.
Qed.

Lemma EnvVar_at_remove_same (env : list EnvVar) (name : string) :
  List.NoDup (map EnvVar_Name env) ->
  EnvVar_at (ReflectEnvVariable_remove env name) name = None.
Proof.
  induction env as [|e env IH]; simpl; [reflexivity|].
  intros Hnodup. apply NoDup_cons_iff in Hnodup. destruct Hnodup as [Hfirst Hrest].
  destruct (String.eqb_spec (EnvVar_Name e) name) as [E|E].
  - apply EnvVar_at_None. congruence.
  - rewrite EnvVar_at_cons. apply String.eqb_neq in E. rewrite E. now apply IH.
Qed.

(** X17. [ReflectEnvVariable] on variables of distinct names: afterwards
    the variable called [name] has the value the environment of the process
    gives it when it is set there, and is absent when it is not; the
    variables of every other name are as they were. *)
Theorem ReflectEnvVariable_reflects (os_LookupEnv : string -> option string)
    (env : list EnvVar) (name : string) :
  List.NoDup (map EnvVar_Name env) ->
  let env' := ReflectEnvVariable os_LookupEnv env name in
  option_map EnvVar_Value (EnvVar_at env' name) = os_LookupEnv name /\
  (forall other, other <> name -> EnvVar_at env' other = EnvVar_at env other).
Proof.
  intros Hnodup. cbv zeta. unfold ReflectEnvVariable.
  destruct (os_LookupEnv name) as [val|].
  - destruct (GetEnvVariable env name) as [i|] eqn:Eget.
    + split.
      * rewrite (EnvVar_at_alter_same _ env name i) by (reflexivity || exact Eget).
        unfold EnvVar_at. rewrite Eget.
        destruct (env !! i) as [e|] eqn:Ei; [reflexivity|].
        exfalso. clear Hnodup. revert i Eget Ei.
        induction env as [|x env IH]; intros i; simpl; [discriminate|].
        destruct (EnvVar_Name x =s? name).
        -- intros H. injection H as <-. discriminate.
        -- destruct (GetEnvVariable env name) as [j|]; simpl; [|discriminate].
           intros H. injection H as <-. simpl. now apply IH.
      * intros other Hne. now apply (EnvVar_at_alter_other _ env name other i).
    + apply GetEnvVariable_None in Eget. split.
      * rewrite EnvVar_at_app, Eget, EnvVar_at_cons. simpl. now rewrite String.eqb_refl.
      * intros other Hne. rewrite EnvVar_at_app.
        destruct (EnvVar_at env other); [reflexivity|].
        rewrite EnvVar_at_cons. simpl.
        assert (Hno : (name =s? other) = false) by (apply String.eqb_neq; congruence).
        now rewrite Hno.
  - split.
    + now rewrite EnvVar_at_remove_same.
    + intros other Hne. now apply EnvVar_at_remove_other.
Qed.

Lemma existingEnvs_lookup (envA : list EnvVar) (m : gmap string bool) (name : string) :
  default false (fold_left (fun m item => <[ EnvVar_Name item := true ]> m) envA m !! name)
  = existsb (fun a => EnvVar_Name a =s? name) envA || default false (m !! name).
Proof.
  revert m. induction envA as [|a envA IH]; intros m; simpl; [reflexivity|].
  rewrite IH. destruct (String.eqb_spec (EnvVar_Name a) name) as [E|E].
  - rewrite E, lookup_insert_eq. simpl. now rewrite orb_true_r.
  - rewrite lookup_insert_ne by exact E. reflexivity.
Qed.

Lemma fold_left_append_if {A} (p : A -> bool) (l acc : list A) :
  fold_left (fun acc item => if p item then (acc ++ [item])%list else acc) l acc
  = (acc ++ List.filter p l)%list.
Proof.
  revert acc. induction l as [|x l IH]; intros acc; simpl; [now rewrite app_nil_r|].
  rewrite IH. destruct (p x); [|reflexivity]. now rewrite <- app_assoc.
Qed.

Lemma MergeEnvArrays_filter (envA envB : list EnvVar) :
  MergeEnvArrays envA envB
  = (envA ++ List.filter (fun item =>
                negb (existsb (fun a => EnvVar_Name a =s? EnvVar_Name item) envA)) envB)%list.
Proof.
  unfold MergeEnvArrays. rewrite <- fold_left_append_if.
  generalize envA at 2 4 as acc.
  induction envB as [|item envB IH]; intros acc; simpl; [reflexivity|].
  rewrite existingEnvs_lookup, lookup_empty. simpl. rewrite orb_false_r. apply IH.
Qed.

Lemma EnvVar_at_filter (p : EnvVar -> bool) (env : list EnvVar) (name : string) :
  (forall e, EnvVar_Name e = name -> p e = true) ->
  EnvVar_at (List.filter p env) name = EnvVar_at env name.
Proof.
  intros Hp. induction env as [|e env IH]; simpl; [reflexivity|].
  rewrite EnvVar_at_cons. destruct (String.eqb_spec (EnvVar_Name e) name) as [E|E].
  - rewrite (Hp e E), EnvVar_at_cons. apply String.eqb_eq in E. now rewrite E.
  - destruct (p e); [|exact IH]. rewrite EnvVar_at_cons.
    apply String.eqb_neq in E. now rewrite E.
Qed.

Lemma existsb_name_In (env : list EnvVar) (name : string) :
  existsb (fun a => EnvVar_Name a =s? name) env = true <-> In name (map EnvVar_Name env).
Proof.
  induction env as [|a env IH]; simpl; [split; [discriminate | tauto]|].
  rewrite orb_true_iff, IH, String.eqb_eq. tauto.
Qed.

(** X18. In [MergeEnvArrays] the first array wins: the merged array has,
    under a name, the variable of the first array when it has one, and the
    first variable of that name of the second array otherwise. *)
Theorem MergeEnvArrays_first_array_wins (envA envB : list EnvVar) (name : string) :
  EnvVar_at (MergeEnvArrays envA envB) name
  = match EnvVar_at envA name with
    | Some e => Some e
    | None => EnvVar_at envB name
    end.
Proof.
  rewrite MergeEnvArrays_filter, EnvVar_at_app.
  destruct (EnvVar_at envA name) as [e|] eqn:EA; [reflexivity|].
  apply EnvVar_at_filter. intros e <-.
  apply negb_true_iff. apply not_true_is_false. rewrite existsb_name_In.
  now apply EnvVar_at_None.
Qed.

Lemma NoDup_append {A} (l1 l2 : list A) :
  List.NoDup l1 -> List.NoDup l2 -> (forall x, In x l2 -> ~ In x l1) ->
  List.NoDup (l1 ++ l2).
Proof.
  intros H1 H2 Hdisj. induction l1 as [|a l1 IH]; simpl; [exact H2|].
  apply NoDup_cons_iff in H1. destruct H1 as [Ha H1].
  constructor.
  - rewrite in_app_iff. intros [Hin|Hin]; [tauto|]. apply (Hdisj a Hin). now left.
  - apply IH; [exact H1|]. intros x Hx Hin. apply (Hdisj x Hx). now right.
Qed.

(** X19. [MergeEnvArrays] of two arrays, each with distinct names, has
    distinct names: it is the first array followed by the variables of the
    second whose name the first does not have. *)
Theorem MergeEnvArrays_keeps_names_distinct (envA envB : list EnvVar) :
  List.NoDup (map EnvVar_Name envA) ->
  List.NoDup (map EnvVar_Name envB) ->
  List.NoDup (map EnvVar_Name (MergeEnvArrays envA envB)) /\
  (exists added,
     MergeEnvArrays envA envB = (envA ++ added)%list /\
     forall e, In e added <-> In e envB /\ ~ In (EnvVar_Name e) (map EnvVar_Name envA)).
Proof.
  intros HA HB. rewrite MergeEnvArrays_filter. split.
  - rewrite map_app.
    set (p := fun item => negb (existsb (fun a => EnvVar_Name a =s? EnvVar_Name item) envA)).
    assert (Hadded : List.NoDup (map EnvVar_Name (List.filter p envB)) /\
                     forall n, In n (map EnvVar_Name (List.filter p envB)) ->
                               In n (map EnvVar_Name envB) /\ ~ In n (map EnvVar_Name envA)).
    { clear HA. induction envB as [|b envB IH]; simpl; [split; [constructor | tauto]|].
      apply NoDup_cons_iff in HB. destruct HB as [Hb HB]. destruct (IH HB) as [IH1 IH2].
      destruct (p b) eqn:Eb; simpl.
      - split.
        + constructor; [|exact IH1]. intros Hin. apply IH2 in Hin. tauto.
        + intros n [<-|Hin]; [|apply IH2 in Hin; tauto].
          split; [now left|]. unfold p in Eb. apply negb_true_iff in Eb.
          rewrite <- existsb_name_In. congruence.
      - split; [exact IH1|]. intros n Hin. apply IH2 in Hin. tauto. }
    destruct Hadded as [Hnodup Hnames].
    apply NoDup_append; [exact HA | exact Hnodup|].
    intros n Hn. now apply Hnames.
  - eexists. split; [reflexivity|]. intros e. rewrite filter_In, negb_true_iff.
    rewrite <- existsb_name_In.
    destruct (existsb _ envA); split; intros [H1 H2]; split; congruence.
Qed.

(** ** The helpers of the cluster client *)

(** X20. [KubeApply] reports true exactly when it created the object. It
    calls create only after the cluster answered not-found (to the read or to
    the update), and update only after a read that found the object; it makes
    at most three calls, all of them about the object it was given. *)
Theorem KubeApply_reports_creation {Obj} (klient : Klient Obj) (obj : Obj)
    (log : list (KlientCall Obj)) :
  let out := KubeApply klient obj log in
  exists new,
    log_of out = (log ++ new)%list /\
    (forall created log', out = Gave created log' -> created = existsb is_created new) /\
    (existsb is_Create_call new = true -> existsb answered_NotFound new = true) /\
    (existsb is_Update_call new = true -> existsb is_Get_found new = true) /\
    (length new <= 3)%nat /\
    Forall (fun a => object_of a = obj) new.
Proof.
  cbv zeta. unfold KubeApply, andThen, ask, give, stop.
  destruct (Klient_Get klient log obj) as [found|e1] eqn:Eget.
  - destruct (Klient_Update klient _ obj) as [e2|] eqn:Eupdate.
    + destruct e2; cbn [IsNoMatchError IsNotRegisteredError IsNotFound IsConflict orb];
        try (eexists; split; [cbn [log_of]; rewrite <- app_assoc; reflexivity|];
             repeat split; try (intros ? ? H; inversion H; subst); try reflexivity;
             try discriminate; cbn [length]; repeat constructor).
      destruct (Klient_Create klient _ obj) as [e3|] eqn:Ecreate;
        [destruct e3|]; cbn [IsConflict];
        (eexists; split; [cbn [log_of]; rewrite <- !app_assoc; reflexivity|];
         repeat split; try (intros ? ? H; inversion H; subst); try reflexivity;
         try discriminate; cbn [length]; repeat constructor).
    + eexists; split; [cbn [log_of]; rewrite <- app_assoc; reflexivity|].
      repeat split; try (intros ? ? H; inversion H; subst); try reflexivity;
        try discriminate; cbn [length]; repeat constructor.
  - destruct e1; cbn [IsNoMatchError IsNotRegisteredError IsNotFound IsConflict orb];
      try (eexists; split; [cbn [log_of]; reflexivity|];
           repeat split; try (intros ? ? H; inversion H; subst); try reflexivity;
           try discriminate; cbn [length]; repeat constructor).
    destruct (Klient_Create klient _ obj) as [e3|] eqn:Ecreate;
      [destruct e3|]; cbn [IsConflict];
      (eexists; split; [cbn [log_of]; rewrite <- !app_assoc; reflexivity|];
       repeat split; try (intros ? ? H; inversion H; subst); try reflexivity;
       try discriminate; cbn [length]; repeat constructor).
Qed.

Section Hac_properties.

Context `{L : GoLib} (c : Cluster).

(** ** The high availability controller *)

Lemma HAC_Reconcile_delete_calls (res : Result) (pods : list Pod) (log : list HacCall) :
  (HAC_Reconcile_delete c res 0 pods log
   = Gave (res, None) (log ++ map deleted_call pods)%list)
  \/ (exists done pod rest e,
        pods = (done ++ pod :: rest)%list /\
        HAC_Reconcile_delete c res 0 pods log
        = Gave (res, Some e)
            (log ++ map deleted_call done ++ [Client_Delete pod (Some 0) (Some e)])%list).
Proof.
  revert log. induction pods as [|pod pods IH]; intros log.
  - left. simpl. unfold give. now rewrite app_nil_r.
  - simpl. unfold andThen, ask. cbn [fst snd].
    destruct (Cluster_Delete c log (pod, Some 0)) as [e|] eqn:Edelete.
    + right. exists [], pod, pods, e. split; reflexivity.
    + destruct (IH (log ++ [Client_Delete pod (Some 0) None])%list)
        as [Hall|(done & p & rest & e & Hpods & Hrun)].
      * left. rewrite Hall, <- app_assoc. reflexivity.
      * right. exists (pod :: done), p, rest, e. split; [now rewrite Hpods|].
        rewrite Hrun, <- app_assoc. reflexivity.
Qed.

(** X21. When the listing of the pods succeeds, [HAC.Reconcile] deletes
    the listed pods in the order of the list, each with the grace period 0:
    either every delete succeeds and it returns nil, or it stops at the first
    delete that fails and returns its error, the pods after it not being
    tried. The result is the empty result either way. *)
Theorem HAC_Reconcile_deletes_in_order (hac : HAC) (log : list HacCall) (items : list Pod) :
  Cluster_List c log (HAC_list_options hac) = inl items ->
  let listed := (log ++ [Client_List (HAC_list_options hac) (inl items)])%list in
  (HAC_Reconcile c hac log
   = Gave (mkResult false 0, None) (listed ++ map deleted_call items)%list)
  \/ (exists done pod rest e,
        items = (done ++ pod :: rest)%list /\
        HAC_Reconcile c hac log
        = Gave (mkResult false 0, Some e)
            (listed ++ map deleted_call done ++ [Client_Delete pod (Some 0) (Some e)])%list).
Proof.
  intros Hlist. cbv zeta.
  assert (Hrun : HAC_Reconcile c hac log
                 = HAC_Reconcile_delete c (mkResult false 0) 0 items
                     (log ++ [Client_List (HAC_list_options hac) (inl items)])%list).
  { unfold HAC_Reconcile, andThen at 1, KubeList, andThen at 1, ask.
    fold (HAC_list_options hac). now rewrite Hlist. }
  rewrite Hrun. apply HAC_Reconcile_delete_calls.
Qed.

(** X22. When the pods cannot be listed, [HAC.Reconcile] deletes
    nothing: after the list call alone it returns the empty result and an
    error when the error of the listing is one [util.KubeList] knows, and
    ends in [util.Panic] otherwise. *)
Theorem HAC_Reconcile_list_failure (hac : HAC) (log : list HacCall) (e : KubeError) :
  Cluster_List c log (HAC_list_options hac) = inr e ->
  let listed := (log ++ [Client_List (HAC_list_options hac) (inr e)])%list in
  HAC_Reconcile c hac log
  = if kube_classified e
    then Gave (mkResult false 0,
               Some (errorString
                       (fmt_Sprintf "failed to list noobaa pods on the node %v in namespace %v"
                          [HAC_Node_Name hac; options_Namespace]))) listed
    else Stopped listed.
Proof.
  intros Hlist. cbv zeta. unfold HAC_Reconcile, andThen at 1, KubeList, andThen at 1, ask.
  fold (HAC_list_options hac). rewrite Hlist.
  destruct e; reflexivity.
Qed.

End Hac_properties.

(** ** The vault utilities *)

Lemma String_append_assoc (a b c : string) : (a ++ b) ++ c = a ++ (b ++ c).
Proof.
  induction a as [|x a IH]; [reflexivity|].
  change (String x ((a ++ b) ++ c) = String x (a ++ (b ++ c))). now f_equal.
Qed.

Lemma String_length_append (a b : string) :
  String.length (a ++ b) = (String.length a + String.length b)%nat.
Proof.
  induction a as [|x a IH]; [reflexivity|].
  change (S (String.length (a ++ b)) = S (String.length a + String.length b)). now f_equal.
Qed.

Lemma strings_HasSuffix_slash (s : string) : strings_HasSuffix (s ++ "/") "/" = true.
Proof.
  unfold strings_HasSuffix. rewrite String_length_append. cbn [String.length].
  replace (String.length s + 1 - 1)%nat with (String.length s) by lia.
  replace (1 <=? String.length s + 1)%nat with true by (symmetry; apply Nat.leb_le; lia).
  cbn [andb]. apply String.eqb_eq.
  induction s as [|x s IH]; [reflexivity | exact IH].
Qed.

Lemma backend_mount_slash (backend : string) :
  backend <> EmptyString -> strings_HasSuffix backend "/" = false ->
  backend_mount (backend ++ "/") = backend_mount backend.
Proof.
  intros Hne Hslash. destruct backend as [|x b]; [congruence|].
  unfold backend_mount.
  replace ((String x b ++ "/") =s? EmptyString) with false by reflexivity.
  replace (String x b =s? EmptyString) with false by reflexivity.
  now rewrite strings_HasSuffix_slash, Hslash.
Qed.

Section Vault_properties.

Context `{L : GoLib} (client : VaultClient).

Lemma isKV2_run (backend : string) (log : list VaultCall) :
  let answer := Vault_ListMounts client log tt in
  isKV2 client backend log
  = Gave (match answer with
          | inr err => (false, Some err)
          | inl mounts =>
              match mounts !! backend_mount backend with
              | None => (false, Some (fmt_Errorf "can not find backend path %v in vault"
                                        [backend_mount backend]))
              | Some kvBackend => (mount_is_v2 kvBackend, None)
              end
          end) (log ++ [Sys_ListMounts answer])%list.
Proof.
  cbv zeta. unfold isKV2, andThen, ask, give, backend_mount.
  destruct (Vault_ListMounts client log tt) as [mounts|err]; [|reflexivity].
  set (b := if backend =s? EmptyString then defaultVaultBackendPath else backend).
  destruct (strings_HasSuffix b "/"); cbn [negb];
    (destruct (mounts !! _) as [kvBackend|]; [|reflexivity]);
    unfold mount_is_v2;
    (destruct (default EmptyString (MountOutput_Options kvBackend !! "version") =s? "2") eqn:E;
     [|now rewrite andb_false_r]);
    (replace (0 <? size (MountOutput_Options kvBackend))%nat with true; [reflexivity|]);
    symmetry; apply Nat.ltb_lt;
    (assert (Hsize : size (MountOutput_Options kvBackend) <> 0%nat);
     [apply (map_size_ne_0_lookup_2 _ "version");
      destruct (MountOutput_Options kvBackend !! "version"); [eauto | discriminate]
     | lia]).
Qed.

Lemma BuildExternalSecretPath_run (kms : KeyManagementServiceSpec) (uid : string)
    (log : list VaultCall) :
  let mount :=
    backend_mount (default EmptyString (KMS_ConnectionDetails kms !! vaultBackendPath)) in
  let answer := Vault_ListMounts client log tt in
  BuildExternalSecretPath client kms uid log
  = Gave (match answer with
          | inr err => (EmptyString, Some err)
          | inl mounts =>
              match mounts !! mount with
              | None => (EmptyString,
                         Some (fmt_Errorf "can not find backend path %v in vault" [mount]))
              | Some kvBackend =>
                  (mount ++ (if mount_is_v2 kvBackend then "data/" else EmptyString)
                   ++ rootSecretPath ++ "/rootkeyb64-" ++ uid, None)
              end
          end) (log ++ [Sys_ListMounts answer])%list.
Proof.
  cbv zeta. unfold BuildExternalSecretPath, andThen. rewrite isKV2_run.
  set (backend := default EmptyString (KMS_ConnectionDetails kms !! vaultBackendPath)).
  destruct (Vault_ListMounts client log tt) as [mounts|err]; [|reflexivity].
  destruct (mounts !! backend_mount backend) as [kvBackend|]; [|reflexivity].
  cbn [fst snd]. unfold give. f_equal. f_equal.
  assert (Hprefix : (if negb (backend =s? EmptyString)
                     then if negb (strings_HasSuffix backend "/")
                          then (EmptyString ++ backend) ++ "/" else EmptyString ++ backend
                     else EmptyString ++ defaultVaultBackendPath)
                    = backend_mount backend).
  { unfold backend_mount. destruct (backend =s? EmptyString); [reflexivity|].
    cbn [negb]. destruct (strings_HasSuffix backend "/"); reflexivity. }
  rewrite Hprefix. destruct (mount_is_v2 kvBackend); now rewrite !String_append_assoc.
Qed.

(** X23. [BuildExternalSecretPath] makes one call, the listing of the
    mounts, and builds the path under the mount whose version it consulted:
    the backend path of the connection details with one slash at its end
    (secret/ when there is none), then data/ when the mount is a key-value
    store of version 2, then NOOBAA_ROOT_SECRET_PATH/rootkeyb64- and the uid.
    It returns the error of the listing when it fails, and an error when the
    mount is not among the mounts. *)
Theorem BuildExternalSecretPath_under_the_mount (kms : KeyManagementServiceSpec) (uid : string)
    (log : list VaultCall) :
  let mount :=
    backend_mount (default EmptyString (KMS_ConnectionDetails kms !! vaultBackendPath)) in
  let answer := Vault_ListMounts client log tt in
  BuildExternalSecretPath client kms uid log
  = Gave (match answer with
          | inr err => (EmptyString, Some err)
          | inl mounts =>
              match mounts !! mount with
              | None => (EmptyString,
                         Some (fmt_Errorf "can not find backend path %v in vault" [mount]))
              | Some kvBackend =>
                  (mount ++ (if mount_is_v2 kvBackend then "data/" else EmptyString)
                   ++ rootSecretPath ++ "/rootkeyb64-" ++ uid, None)
              end
          end) (log ++ [Sys_ListMounts answer])%list.
Proof. apply BuildExternalSecretPath_run. Qed.

(** X24. A slash at the end of the backend path makes no difference:
    for a backend path that is not empty and does not end in a slash,
    [BuildExternalSecretPath] returns the same, after the same call, with and
    without the slash added. *)
Theorem BuildExternalSecretPath_ignores_trailing_slash (kms kms' : KeyManagementServiceSpec)
    (backend uid : string) (log : list VaultCall) :
  KMS_ConnectionDetails kms !! vaultBackendPath = Some backend ->
  backend <> EmptyString ->
  strings_HasSuffix backend "/" = false ->
  KMS_ConnectionDetails kms' !! vaultBackendPath = Some (backend ++ "/") ->
  BuildExternalSecretPath client kms' uid log = BuildExternalSecretPath client kms uid log.
Proof.
  intros Hkms Hne Hslash Hkms'.
  rewrite !BuildExternalSecretPath_run, Hkms, Hkms'.
  change (default EmptyString (Some (backend ++ "/"))) with (backend ++ "/").
  change (default EmptyString (Some backend)) with backend.
  now rewrite backend_mount_slash.
Qed.

(** X25. What [PutSecret] wrote, [GetSecret] reads: after a [PutSecret]
    that returned nil, in a vault whose read of the path answers with the
    data last written to it and whose mounts are unchanged, [GetSecret] with
    the same name, path and backend returns the value written and no error,
    for a key-value store of version 2 as for version 1. *)
Theorem GetSecret_after_PutSecret (secretName secretValue secretPath backendPath : string)
    (log log1 : list VaultCall) :
  PutSecret client secretName secretValue secretPath backendPath log = Gave None log1 ->
  (forall data, last log1 = Some (Logical_Write secretPath data None) ->
     Vault_Read client log1 secretPath = inl (Some (mkVaultSecret data))) ->
  Vault_ListMounts client
    (log1 ++ [Logical_Read secretPath (Vault_Read client log1 secretPath)])%list tt
  = Vault_ListMounts client log tt ->
  exists log2,
    GetSecret client secretName secretPath backendPath log1 = Gave (secretValue, None) log2.
Proof.
  intros Hput Hkept Hmounts.
  unfold PutSecret, andThen in Hput. rewrite isKV2_run in Hput.
  unfold GetSecret, andThen, ask. 
  destruct (Vault_ListMounts client log tt) as [mounts|err] eqn:Elist;
    [|discriminate].
  destruct (mounts !! backend_mount backendPath) as [kvBackend|] eqn:Emount;
    [|discriminate].
  cbn [fst snd] in Hput. unfold ask, give in Hput.
  match type of Hput with
  | context [Vault_Write client ?l ?req] =>
      destruct (Vault_Write client l req) as [e|] eqn:Ewrite; [discriminate|]
  end.
  injection Hput as <-.
  specialize (Hkept _ (last_snoc _ _)).
  rewrite Hkept in *. rewrite isKV2_run, Hmounts, Emount. cbn [fst snd].
  destruct (mount_is_v2 kvBackend); cbn [VaultSecret_Data].
  - rewrite lookup_insert_eq, lookup_singleton_eq. eexists. reflexivity.
  - rewrite lookup_insert_eq. eexists. reflexivity.
Qed.

End Vault_properties.

(** * The further properties on sample runs *)

(** X2 on the metadata of store-1 with another finalizer: the finalizer of
    the operator is added at the end and removed again. *)
Lemma AddFinalizer_RemoveFinalizer_round_trip_witness :
  let obj := sample_Meta ["other/finalizer"] None in
  Finalizers (fst (AddFinalizer obj nbv1.Finalizer)) = ["other/finalizer"; nbv1.Finalizer] /\
  RemoveFinalizer (fst (AddFinalizer obj nbv1.Finalizer)) nbv1.Finalizer = (obj, true).
Proof.
  intros obj.
  destruct (AddFinalizer_RemoveFinalizer_round_trip obj nbv1.Finalizer eq_refl) as [Hadd Hback].
  split; [now rewrite Hadd | exact Hback].
Defined.

(** X5 on an empty list of conditions: the error conditions, then the
    available conditions, leave the four types once each. *)
Lemma condition_setters_add_no_duplicate_witness :
  map Condition_Type
    (SetAvailableCondition 7 (SetErrorCondition 3 [] "InvalidType" "bad type") "Ready" "fine")
  = condition_types.
Proof.
  rewrite (condition_setters_add_no_duplicate SetErrorCondition SetAvailableCondition 3 7 []
             "InvalidType" "bad type" "Ready" "fine").
  - reflexivity.
  - simpl. auto.
  - simpl. auto.
Defined.

(** X8 on store-1 and [shared_SystemInfo], none of whose connections is to
    the identity of the descriptor: the connection is checked under the name
    of the store. *)
Lemma ReadSystemInfo_reuse_no_match_witness :
  let w := calm_world (10 * Minute) (sample_record aws_Spec empty_Status) shared_SystemInfo
             nb.ExternalConnectionSuccess in
  let s := mkState (set_r_NBClient true
                      (loaded (sample_record aws_Spec empty_Status) true true aws_keys)) [] in
  exists s',
    ReadSystemInfo_reuse shared_SystemInfo new_conn s = Returned None s' /\
    r_ExternalConnectionInfo (st_r s') = None /\
    r_AddExternalConnectionParams (st_r s') = Some new_conn /\
    exists rest,
      st_log (final (ReconcileExternalConnection w s'))
      = CheckExternalConnectionAPI new_conn
          (mkCheckExternalConnectionReply nb.ExternalConnectionSuccess EmptyString EmptyString,
           None) :: rest.
Proof.
  intros w s.
  destruct (ReadSystemInfo_reuse_no_match w shared_SystemInfo new_conn s eq_refl)
    as (s' & Hrun & Hinfo & Hparams & _ & _ & Hcheck).
  exists s'. split; [exact Hrun|]. split; [exact Hinfo|]. split; [exact Hparams|].
  destruct (Hcheck eq_refl eq_refl) as [rest Hlog]. exists rest. exact Hlog.
Defined.

(** X9 on store-1 and [shared_SystemInfo], which lists the namespace
    resource store-1. *)
Lemma ReadSystemInfo_known_resource_not_created_witness :
  let w := calm_world (10 * Minute) (sample_record aws_Spec empty_Status) shared_SystemInfo
             nb.ExternalConnectionSuccess in
  let s := mkState (loaded (sample_record aws_Spec empty_Status) true true aws_keys) [] in
  exists err s',
    ReadSystemInfo w s = Returned err s' /\
    option_map NamespaceResourceInfo_Name (r_NamespaceResourceinfo (st_r s')) = Some "store-1" /\
    ReconcileNamespaceStore w s' = Returned None s'.
Proof.
  intros w s.
  assert (Hfind : find (fun nsr => NamespaceResourceInfo_Name nsr =s? Name (ns_Meta (st_r s)))
                    (SystemInfo_NamespaceResources shared_SystemInfo)
                  = Some (mkNamespaceResourceInfo "store-1" nb.EndpointTypeAws
                            "https://s3.amazonaws.com" EmptyString))
    by (vm_compute; reflexivity).
  assert (Hrun : ReadSystemInfo w s = Returned None (final (ReadSystemInfo w s)))
    by (vm_compute; reflexivity).
  pose proof (ReadSystemInfo_known_resource_not_created w s shared_SystemInfo _
                eq_refl eq_refl Hfind) as Hends.
  destruct (ends_Returned _ _ _ _ _ _ Hrun Hends) as [Hinfo Hcreate].
  exists None, (final (ReadSystemInfo w s)).
  split; [exact Hrun|]. split; [|exact Hcreate].
  exact (f_equal (option_map NamespaceResourceInfo_Name) Hinfo).
Defined.

(** X10 on a cluster that does not have store-1. *)
Lemma Reconcile_skips_missing_record_witness :
  exists s',
    Reconcile (absent_world (10 * Minute)) (fresh true) = Returned (mkResult false 0, None) s' /\
    length (st_log s') = 1%nat.
Proof.
  pose proof (Reconcile_skips_missing_record (absent_world (10 * Minute)) (fresh true)
                KubeNotFound eq_refl eq_refl) as Hrun.
  eexists. split; [exact Hrun | reflexivity].
Defined.

(** X11 on store-1 without label and finalizer, in a cluster that refuses
    the update. *)
Lemma Reconcile_refused_update_requeues_witness :
  exists s',
    Reconcile (conflict_world (10 * Minute) new_record) (fresh true)
    = Returned (mkResult false (3 * Second), None) s' /\
    length (st_log s') = 2%nat.
Proof.
  pose proof (Reconcile_refused_update_requeues (conflict_world (10 * Minute) new_record)
                (fresh true) new_record KubeConflict eq_refl) as Hrun.
  eexists. split; [apply Hrun|]; try reflexivity.
  vm_compute. discriminate.
Defined.

(** X12 on store-1 in phase Deleting, its parent system gone. *)
Lemma ReconcileDeletion_without_system_witness :
  let w := calm_world (10 * Minute) deleting_record empty_SystemInfo
             nb.ExternalConnectionSuccess in
  let s := mkState (loaded deleting_record false true aws_keys) [] in
  exists s',
    ReconcileDeletion w s = Returned None s' /\
    Finalizers (ns_Meta (st_r s')) = ["other/finalizer"] /\
    length (st_log s') = 1%nat.
Proof.
  intros w s.
  destruct (ReconcileDeletion_without_system w s eq_refl eq_refl) as [_ Hrun].
  eexists. split; [exact Hrun|]. split; reflexivity.
Defined.

(** X13 on store-1 marked for deletion, in a cluster that refuses the
    status update. *)
Lemma ReconcileDeletion_announces_first_witness :
  let w := orphan_world (10 * Minute) deleted_record in
  let s := mkState (loaded deleted_record true true aws_keys) [] in
  exists e s',
    ReconcileDeletion w s = Returned (Some e) s' /\
    Status_Phase (ns_Status (st_r s')) = nbv1.NamespaceStorePhaseDeleting /\
    Finalizers (ns_Meta (st_r s')) = [nbv1.Finalizer] /\
    length (st_log s') = 1%nat.
Proof.
  intros w s.
  assert (Hphase : Status_Phase (ns_Status (st_r s)) <> nbv1.NamespaceStorePhaseDeleting)
    by (vm_compute; discriminate).
  destruct (ReconcileDeletion_announces_first w s Hphase) as (_ & _ & Hrun).
  eexists _, _. split; [exact Hrun|]. repeat split; reflexivity.
Defined.

(** X15 on store-1, whose secret creds the cluster does not have while
    the parent system is there: at second 1 the error of the Verifying phase
    is not persistent, at minute 6 it is. *)
Lemma LoadNamespaceStoreSecret_missing_secret_witness :
  let record := sample_record aws_Spec empty_Status in
  let s := mkState (loaded record true false ∅) [] in
  (exists s1 err s2,
     LoadNamespaceStoreSecret (no_secret_world (1 * Second) record) s = Returned None s1 /\
     ReconcilePhaseVerifying (no_secret_world (1 * Second) record) s1 = Returned (Some err) s2 /\
     IsPersistentError (Some err) = false) /\
  (exists s1 err s2,
     LoadNamespaceStoreSecret (no_secret_world (6 * Minute) record) s = Returned None s1 /\
     ReconcilePhaseVerifying (no_secret_world (6 * Minute) record) s1 = Returned (Some err) s2 /\
     IsPersistentError (Some err) = true).
Proof.
  intros record s.
  assert (Hname : SecretReference_Name (mkSecretReference "creds" EmptyString) <> EmptyString)
    by (vm_compute; discriminate).
  assert (Hsystem : (UID (NooBaa_Meta (r_NooBaa (st_r s))) =s? EmptyString) = false)
    by (vm_compute; reflexivity).
  assert (Href : GetNamespaceStoreSecret (r_NamespaceStore (st_r s))
                 = Some (mkSecretReference "creds" EmptyString))
    by (vm_compute; reflexivity).
  split.
  - destruct (LoadNamespaceStoreSecret_missing_secret (no_secret_world (1 * Second) record) s
                (mkSecretReference "creds" EmptyString) KubeNotFound
                Href Hname eq_refl eq_refl eq_refl)
      as (s1 & Hload & _ & err & s2 & Hverify & _ & Hkind).
    rewrite Hsystem in Hkind.
    exists s1, err, s2. repeat split; [exact Hload | exact Hverify | exact Hkind].
  - destruct (LoadNamespaceStoreSecret_missing_secret (no_secret_world (6 * Minute) record) s
                (mkSecretReference "creds" EmptyString) KubeNotFound
                Href Hname eq_refl eq_refl eq_refl)
      as (s1 & Hload & _ & err & s2 & Hverify & _ & Hkind).
    rewrite Hsystem in Hkind.
    exists s1, err, s2. repeat split; [exact Hload | exact Hverify | exact Hkind].
Defined.

(** X16 on store-1, whose mode is not set: the pass ends in phase Ready. *)
Lemma Reconcile_react_after_phases_witness :
  let record := sample_record aws_Spec empty_Status in
  let w := calm_world (10 * Minute) record empty_SystemInfo nb.ExternalConnectionSuccess in
  let s := mkState (loaded record true true aws_keys) [] in
  exists s1 s2,
    ReconcilePhases w s = Returned None s1 /\
    Reconcile_react w None (mkResult false 0) s1 = Returned (mkResult false 0) s2 /\
    Status_Phase (ns_Status (st_r s2)) = nbv1.NamespaceStorePhaseReady /\
    st_log s2 = st_log s1.
Proof.
  intros record w s.
  assert (Hphases : ReconcilePhases w s = Returned None (final (ReconcilePhases w s)))
    by (vm_compute; reflexivity).
  destruct (Reconcile_react_after_phases w s _ (mkResult false 0) Hphases)
    as (s2 & Hreact & Hphase & _ & Hlog).
  eexists _, s2. split; [exact Hphases|]. split; [exact Hreact|].
  split; [exact Hphase | apply Hlog; reflexivity].
Defined.

(** X17 on a container with the variables A and B, run where only A is
    set. *)
Lemma ReflectEnvVariable_reflects_witness :
  let env := [mkEnvVar "A" "1" None; mkEnvVar "B" "2" (Some "fieldRef")] in
  let os_LookupEnv := fun name => if name =s? "A" then Some "9" else None in
  ReflectEnvVariable os_LookupEnv env "A" = [mkEnvVar "A" "9" None; mkEnvVar "B" "2" (Some "fieldRef")] /\
  option_map EnvVar_Value (EnvVar_at (ReflectEnvVariable os_LookupEnv env "A") "A") = Some "9" /\
  EnvVar_at (ReflectEnvVariable os_LookupEnv env "B") "B" = None /\
  EnvVar_at (ReflectEnvVariable os_LookupEnv env "B") "A" = Some (mkEnvVar "A" "1" None).
Proof.
  intros env os_LookupEnv.
  assert (Hnodup : List.NoDup (map EnvVar_Name env)).
  { repeat constructor; simpl; intuition discriminate. }
  destruct (ReflectEnvVariable_reflects os_LookupEnv env "A" Hnodup) as [HA _].
  destruct (ReflectEnvVariable_reflects os_LookupEnv env "B" Hnodup) as [HB Hother].
  split; [reflexivity|]. split; [exact HA|]. split.
  - destruct (EnvVar_at (ReflectEnvVariable os_LookupEnv env "B") "B"); [discriminate HB|].
    reflexivity.
  - rewrite Hother; [reflexivity | discriminate].
Defined.

(** X19 on two arrays that share the variable A. *)
Lemma MergeEnvArrays_keeps_names_distinct_witness :
  let envA := [mkEnvVar "A" "1" None] in
  let envB := [mkEnvVar "A" "2" None; mkEnvVar "B" "3" None] in
  MergeEnvArrays envA envB = [mkEnvVar "A" "1" None; mkEnvVar "B" "3" None] /\
  List.NoDup (map EnvVar_Name (MergeEnvArrays envA envB)).
Proof.
  intros envA envB. split; [reflexivity|].
  apply (MergeEnvArrays_keeps_names_distinct envA envB).
  - repeat constructor; simpl; intuition discriminate.
  - repeat constructor; simpl; intuition discriminate.
Defined.

(** X21 on a node with three noobaa pods, the second of which cannot be
    deleted: the first is deleted, the third is not tried. *)
Lemma HAC_Reconcile_deletes_in_order_witness :
  let hac := NewHAC "noobaa" "node-1" in
  HAC_Reconcile stuck_cluster hac []
  = Gave (mkResult false 0, Some (errorString "pod is stuck"))
      [Client_List (HAC_list_options hac) (inl [pod_core; pod_db; pod_endpoint]);
       Client_Delete pod_core (Some 0) None;
       Client_Delete pod_db (Some 0) (Some (errorString "pod is stuck"))].
Proof.
  intros hac.
  destruct (HAC_Reconcile_deletes_in_order stuck_cluster hac []
              [pod_core; pod_db; pod_endpoint] eq_refl)
    as [Hall|(done & pod & rest & e & Hitems & Hrun)].
  - vm_compute in Hall. discriminate Hall.
  - reflexivity.
Defined.

(** X22 on a cluster in which the pods cannot be listed. *)
Lemma HAC_Reconcile_list_failure_witness :
  let hac := NewHAC "noobaa" "node-1" in
  exists text,
    HAC_Reconcile blind_cluster hac []
    = Gave (mkResult false 0, Some (errorString text))
        [Client_List (HAC_list_options hac) (inr KubeNotFound)].
Proof.
  intros hac. eexists.
  exact (HAC_Reconcile_list_failure blind_cluster hac [] KubeNotFound eq_refl).
Defined.

(** X24 on the backend paths kv and kv/. *)
Lemma BuildExternalSecretPath_ignores_trailing_slash_witness :
  let kms := mkKeyManagementServiceSpec {[ vaultBackendPath := "kv" ]} "token" in
  let kms' := mkKeyManagementServiceSpec {[ vaultBackendPath := "kv/" ]} "token" in
  BuildExternalSecretPath sample_vault kms' "uid-1" []
  = BuildExternalSecretPath sample_vault kms "uid-1" [].
Proof.
  intros kms kms'.
  apply (BuildExternalSecretPath_ignores_trailing_slash sample_vault kms kms' "kv" "uid-1" []).
  - reflexivity.
  - discriminate.
  - reflexivity.
  - reflexivity.
Defined.

(** X25 on a vault that keeps what is written. *)
Lemma GetSecret_after_PutSecret_witness :
  PutSecret sample_vault "rootkey" "c2VjcmV0" sample_path EmptyString [] = Gave None sample_writes /\
  exists log2,
    GetSecret sample_vault "rootkey" sample_path EmptyString sample_writes
    = Gave ("c2VjcmV0", None) log2.
Proof.
  assert (Hput : PutSecret sample_vault "rootkey" "c2VjcmV0" sample_path EmptyString []
                 = Gave None sample_writes)
    by (vm_compute; reflexivity).
  split; [exact Hput|].
  apply (GetSecret_after_PutSecret sample_vault "rootkey" "c2VjcmV0" sample_path EmptyString []
           sample_writes Hput).
  - intros data Hlast. injection Hlast as <-. vm_compute. reflexivity.
  - vm_compute. reflexivity.
Defined.
